(** * qmcloud/engine: the render-thread execution engine

    A shallow embedding of the OpenGL 2 device of [gfx/gl2] ([device.go],
    [rtt.go]), of [util.PreDraw] and of the GLFW window's [useProps],
    followed by the properties of the specification that concern them.

    Conventions.
    - Go closures sent over [renderExec] are defunctionalised: one
      constructor of [op] per [func() bool] literal of the source, run by
      [exec].
    - Native calls are recorded, in order, in the [trace] of the device.
    - The model is the default build ([tag.Gfxdebug = false]); logging and
      [debugRender] are absent.
    - Channels are FIFO lists; a blocking receive on an empty channel that no
      one will fill is the outcome [Blocked]. Their capacities (1024
      closures, 8 completion signals) are not modelled: a send never blocks.
    - One thread runs at a time: a caller that waits for a completion signal
      hands over to the device thread, which serves the queue until the
      signal is there. *)

From Stdlib Require Import ZArith Lia.
From Stdlib Require SpecFloat.
From stdpp Require Import base option list gmap strings.
From Stdlib Require Import Sorted.

Local Open Scope Z_scope.

(** A pointer or interface value is an [option]: [None] is nil. *)
Definition isNil {A} (o : option A) : bool :=
  match o with None => true | Some _ => false end.

(** ** Go's [image] package (standard library): rectangles *)

Module Image.

Record Point := { X : Z; Y : Z }.

Record Rectangle := { Min : Point; Max : Point }.

(** [image.Rect]: the returned rectangle has its corners swapped where
    needed so that it is well formed. *)
Definition Rect (x0 y0 x1 y1 : Z) : Rectangle :=
  let '(x0, x1) := if x0 >? x1 then (x1, x0) else (x0, x1) in
  let '(y0, y1) := if y0 >? y1 then (y1, y0) else (y0, y1) in
  {| Min := {| X := x0; Y := y0 |}; Max := {| X := x1; Y := y1 |} |}.

(** [Rectangle.Empty]: [r.Min.X >= r.Max.X || r.Min.Y >= r.Max.Y]. *)
Definition Empty (r : Rectangle) : bool :=
  (X (Min r) >=? X (Max r)) || (Y (Min r) >=? Y (Max r)).

Definition Dx (r : Rectangle) : Z := X (Max r) - X (Min r).

Definition Dy (r : Rectangle) : Z := Y (Max r) - Y (Min r).

End Image.

(** ** The OpenGL 2 device: [gfx/gl2] *)

Module GL2.

Import Image.

(** Floating point values are only stored and handed to the driver: they are
    kept as their IEEE-754 bit patterns. *)
Definition float32 := Z.
Definition float64 := Z.

Definition f32_zero : float32 := 0.
Definition f32_one : float32 := 0x3F800000.
Definition f64_one : float64 := 0x3FF0000000000000.

(** [gfx.Color]. *)
Record gfxColor := { R : float32; G : float32; B : float32; A : float32 }.

(** OpenGL constants used by the source. *)
Definition COLOR_BUFFER_BIT : Z := 0x4000.
Definition DEPTH_BUFFER_BIT : Z := 0x100.
Definition STENCIL_BUFFER_BIT : Z := 0x400.

Inductive attachment := COLOR_ATTACHMENT0 | DEPTH_ATTACHMENT | STENCIL_ATTACHMENT.

(** [gfx.ZeroTexFormat] and [gfx.ZeroDSFormat] are the zero values of their
    numeric types. *)
Abbreviation TexFormat := Z (only parsing).
Abbreviation DSFormat := Z (only parsing).
Definition ZeroTexFormat : TexFormat := 0.
Definition ZeroDSFormat : DSFormat := 0.

(** A [*gfx.Texture] named by an RTT configuration: what the source reads of
    it ([MinFilter.Mipmapped()]) and writes to it ([NativeTexture]; [None]
    is the nil interface). *)
Record Texture := {
  MinFilterMipmapped : bool;
  NativeTexture : option Z
}.

Record RTTConfig := {
  Bounds : Rectangle;
  ColorFormat : TexFormat;
  DepthFormat : DSFormat;
  StencilFormat : DSFormat;
  Samples : Z;
  Color : option Texture;
  Depth : option Texture;
  Stencil : option Texture
}.

(** Everything observable the device thread and its clients do. *)
Inductive event :=
| EvLock                      (* rsrcManager.Lock() *)
| EvUnlock                    (* rsrcManager.Unlock() *)
| EvMeshFree (m : Z)          (* nativeMesh.free() *)
| EvShaderFree (s : Z)        (* nativeShader.free() *)
| GlDeleteTextures (ids : list Z)
| GlDeleteFramebuffers (ids : list Z)
| GlDeleteRenderbuffers (ids : list Z)
| GlFlush
| GlClear (mask : Z)
| GlBindFramebuffer (fbo : Z)
| GlBindRenderbuffer (rb : Z)
| GlBindTexture (tex : Z)
| GlGenerateMipmap
| GlGenFramebuffers (fbo : Z)
| GlGenRenderbuffers (rb : Z)
| GlRenderbufferStorageMultisample (samples format width height : Z)
| GlFramebufferRenderbuffer (a : attachment) (rb : Z)
| EvNewNativeTexture (tex format width height : Z)
| GlTexImage2D (format width height : Z)
| GlFramebufferTexture2D (a : attachment) (tex : Z)
| GlCheckFramebufferStatus (status : Z)
| GlGetQueryAvailable (id : Z) (available : bool)
| GlGetQueryResult (id : Z) (result : Z)
| GlDeleteQueries (id : Z)
| GsBegin
| GsColorWrite
| GsDepthWrite
| GsStencilMaskSeparate
| GsScissor (bounds rect : Rectangle)
| GsClearColor (bg : gfxColor)
| GsClearDepth (depth : float64)
| GsClearStencil (stencil : Z)
| EvGosched                   (* runtime.Gosched() *)
| EvClockTick                 (* clock.Tick() *)
| EvSwapBuffers.              (* the window swaps after an op returned true *)

(** *** Data *)

Record pendingQuery := { qid : Z; qo : nat }.

#[export] Instance pendingQuery_eq_dec : EqDecision pendingQuery.
Proof. solve_decision. Defined.

Record rsrcManager := {
  meshes : list Z;
  shaders : list Z;
  textures : list Z;
  fbos : list Z;
  renderbuffers : list Z
}.

(** A pointer to an [rttCanvas] is its index in the store [canvases]. *)
Abbreviation canvasRef := nat (only parsing).

Record rttCanvas := {
  cfg : RTTConfig;
  VBounds : Rectangle;
  fbo : Z;
  rbColor : Z;
  rbDepth : Z;
  rbStencil : Z;
  rbDepthAndStencil : Z;
  count : Z;        (* textureCount.count *)
  readers : nat     (* read locks of textureCount currently held *)
}.

(** The [pre] and [post] closures handed to the hooked methods. *)
Inductive hook :=
| HookNil
| HookRttBegin (c : canvasRef)
| HookRttEnd (c : canvasRef)
| HookMipmaps (c : canvasRef).

(** The closures sent over [renderExec]. *)
Inductive op :=
| OpClear (rect : Rectangle) (bg : gfxColor) (pre post : hook)
| OpClearDepth (rect : Rectangle) (depth : float64) (pre post : hook)
| OpClearStencil (rect : Rectangle) (stencil : Z) (pre post : hook)
| OpQueryWait (pre post : hook)
| OpYield
| OpRender (pre post : hook)
| OpCreateRTT (c : canvasRef) (cfg : RTTConfig)
    (colorFormat depthFormat stencilFormat : Z).

(** Errors of [glc.Context.FramebufferStatus]: the one the source tells
    apart, and the others. *)
Inductive glcError :=
| FramebufferUnsupported
| FramebufferOther (status : Z).

#[export] Instance glcError_eq_dec : EqDecision glcError.
Proof. solve_decision. Defined.

(** The variables a [RenderToTexture] call shares with its creation
    closure. *)
Record rttLocals := {
  nTexColor : option Z;
  nTexDepth : option Z;
  nTexStencil : option Z;
  fbError : option glcError
}.

Definition noLocals : rttLocals :=
  {| nTexColor := None; nTexDepth := None; nTexStencil := None; fbError := None |}.

Record device := {
  renderExec : list op;            (* chan func() bool *)
  renderComplete : nat;            (* chan struct{}: signals waiting *)
  rsrc : rsrcManager;
  pending : list pendingQuery;     (* pending.queries *)
  rttCanvasPtr : option canvasRef; (* the field rttCanvas *)
  glArbFramebufferObject : bool;
  glArbOcclusionQuery : bool;
  rttTexFormats : gmap Z Z;
  rttDSFormats : gmap Z Z;
  devBounds : Rectangle;           (* BaseCanvas.Bounds() *)
  clock : nat;                     (* ticks of the frame clock *)
  canvases : list rttCanvas;       (* heap of rttCanvas objects *)
  locals : gmap nat rttLocals;     (* frames of RenderToTexture calls *)
  sampleCount : gmap nat Z;        (* nativeObject.sampleCount by object *)
  polls : nat;                     (* queryYield passes that polled *)
  glNext : Z;                      (* next name the driver hands out *)
  trace : list event
}.

(** Field updates of [device]. *)

Definition set_renderExec (v : list op) (d : device) : device :=
  {| renderExec := v; renderComplete := renderComplete d; rsrc := rsrc d;
     pending := pending d; rttCanvasPtr := rttCanvasPtr d;
     glArbFramebufferObject := glArbFramebufferObject d;
     glArbOcclusionQuery := glArbOcclusionQuery d;
     rttTexFormats := rttTexFormats d; rttDSFormats := rttDSFormats d;
     devBounds := devBounds d; clock := clock d; canvases := canvases d;
     locals := locals d; sampleCount := sampleCount d; polls := polls d;
     glNext := glNext d; trace := trace d |}.

Definition set_renderComplete (v : nat) (d : device) : device :=
  {| renderExec := renderExec d; renderComplete := v; rsrc := rsrc d;
     pending := pending d; rttCanvasPtr := rttCanvasPtr d;
     glArbFramebufferObject := glArbFramebufferObject d;
     glArbOcclusionQuery := glArbOcclusionQuery d;
     rttTexFormats := rttTexFormats d; rttDSFormats := rttDSFormats d;
     devBounds := devBounds d; clock := clock d; canvases := canvases d;
     locals := locals d; sampleCount := sampleCount d; polls := polls d;
     glNext := glNext d; trace := trace d |}.

Definition set_rsrc (v : rsrcManager) (d : device) : device :=
  {| renderExec := renderExec d; renderComplete := renderComplete d;
     rsrc := v; pending := pending d; rttCanvasPtr := rttCanvasPtr d;
     glArbFramebufferObject := glArbFramebufferObject d;
     glArbOcclusionQuery := glArbOcclusionQuery d;
     rttTexFormats := rttTexFormats d; rttDSFormats := rttDSFormats d;
     devBounds := devBounds d; clock := clock d; canvases := canvases d;
     locals := locals d; sampleCount := sampleCount d; polls := polls d;
     glNext := glNext d; trace := trace d |}.

Definition set_pending (v : list pendingQuery) (d : device) : device :=
  {| renderExec := renderExec d; renderComplete := renderComplete d;
     rsrc := rsrc d; pending := v; rttCanvasPtr := rttCanvasPtr d;
     glArbFramebufferObject := glArbFramebufferObject d;
     glArbOcclusionQuery := glArbOcclusionQuery d;
     rttTexFormats := rttTexFormats d; rttDSFormats := rttDSFormats d;
     devBounds := devBounds d; clock := clock d; canvases := canvases d;
     locals := locals d; sampleCount := sampleCount d; polls := polls d;
     glNext := glNext d; trace := trace d |}.

Definition set_rttCanvasPtr (v : option canvasRef) (d : device) : device :=
  {| renderExec := renderExec d; renderComplete := renderComplete d;
     rsrc := rsrc d; pending := pending d; rttCanvasPtr := v;
     glArbFramebufferObject := glArbFramebufferObject d;
     glArbOcclusionQuery := glArbOcclusionQuery d;
     rttTexFormats := rttTexFormats d; rttDSFormats := rttDSFormats d;
     devBounds := devBounds d; clock := clock d; canvases := canvases d;
     locals := locals d; sampleCount := sampleCount d; polls := polls d;
     glNext := glNext d; trace := trace d |}.

Definition set_clock (v : nat) (d : device) : device :=
  {| renderExec := renderExec d; renderComplete := renderComplete d;
     rsrc := rsrc d; pending := pending d; rttCanvasPtr := rttCanvasPtr d;
     glArbFramebufferObject := glArbFramebufferObject d;
     glArbOcclusionQuery := glArbOcclusionQuery d;
     rttTexFormats := rttTexFormats d; rttDSFormats := rttDSFormats d;
     devBounds := devBounds d; clock := v; canvases := canvases d;
     locals := locals d; sampleCount := sampleCount d; polls := polls d;
     glNext := glNext d; trace := trace d |}.

Definition set_canvases (v : list rttCanvas) (d : device) : device :=
  {| renderExec := renderExec d; renderComplete := renderComplete d;
     rsrc := rsrc d; pending := pending d; rttCanvasPtr := rttCanvasPtr d;
     glArbFramebufferObject := glArbFramebufferObject d;
     glArbOcclusionQuery := glArbOcclusionQuery d;
     rttTexFormats := rttTexFormats d; rttDSFormats := rttDSFormats d;
     devBounds := devBounds d; clock := clock d; canvases := v;
     locals := locals d; sampleCount := sampleCount d; polls := polls d;
     glNext := glNext d; trace := trace d |}.

Definition set_locals (v : gmap nat rttLocals) (d : device) : device :=
  {| renderExec := renderExec d; renderComplete := renderComplete d;
     rsrc := rsrc d; pending := pending d; rttCanvasPtr := rttCanvasPtr d;
     glArbFramebufferObject := glArbFramebufferObject d;
     glArbOcclusionQuery := glArbOcclusionQuery d;
     rttTexFormats := rttTexFormats d; rttDSFormats := rttDSFormats d;
     devBounds := devBounds d; clock := clock d; canvases := canvases d;
     locals := v; sampleCount := sampleCount d; polls := polls d;
     glNext := glNext d; trace := trace d |}.

Definition set_sampleCount (v : gmap nat Z) (d : device) : device :=
  {| renderExec := renderExec d; renderComplete := renderComplete d;
     rsrc := rsrc d; pending := pending d; rttCanvasPtr := rttCanvasPtr d;
     glArbFramebufferObject := glArbFramebufferObject d;
     glArbOcclusionQuery := glArbOcclusionQuery d;
     rttTexFormats := rttTexFormats d; rttDSFormats := rttDSFormats d;
     devBounds := devBounds d; clock := clock d; canvases := canvases d;
     locals := locals d; sampleCount := v; polls := polls d;
     glNext := glNext d; trace := trace d |}.

Definition set_polls (v : nat) (d : device) : device :=
  {| renderExec := renderExec d; renderComplete := renderComplete d;
     rsrc := rsrc d; pending := pending d; rttCanvasPtr := rttCanvasPtr d;
     glArbFramebufferObject := glArbFramebufferObject d;
     glArbOcclusionQuery := glArbOcclusionQuery d;
     rttTexFormats := rttTexFormats d; rttDSFormats := rttDSFormats d;
     devBounds := devBounds d; clock := clock d; canvases := canvases d;
     locals := locals d; sampleCount := sampleCount d; polls := v;
     glNext := glNext d; trace := trace d |}.

Definition set_glNext (v : Z) (d : device) : device :=
  {| renderExec := renderExec d; renderComplete := renderComplete d;
     rsrc := rsrc d; pending := pending d; rttCanvasPtr := rttCanvasPtr d;
     glArbFramebufferObject := glArbFramebufferObject d;
     glArbOcclusionQuery := glArbOcclusionQuery d;
     rttTexFormats := rttTexFormats d; rttDSFormats := rttDSFormats d;
     devBounds := devBounds d; clock := clock d; canvases := canvases d;
     locals := locals d; sampleCount := sampleCount d; polls := polls d;
     glNext := v; trace := trace d |}.

Definition set_trace (v : list event) (d : device) : device :=
  {| renderExec := renderExec d; renderComplete := renderComplete d;
     rsrc := rsrc d; pending := pending d; rttCanvasPtr := rttCanvasPtr d;
     glArbFramebufferObject := glArbFramebufferObject d;
     glArbOcclusionQuery := glArbOcclusionQuery d;
     rttTexFormats := rttTexFormats d; rttDSFormats := rttDSFormats d;
     devBounds := devBounds d; clock := clock d; canvases := canvases d;
     locals := locals d; sampleCount := sampleCount d; polls := polls d;
     glNext := glNext d; trace := v |}.

(** Field updates of [rsrcManager]. *)

Definition set_meshes (v : list Z) (r : rsrcManager) : rsrcManager :=
  {| meshes := v; shaders := shaders r; textures := textures r;
     fbos := fbos r; renderbuffers := renderbuffers r |}.

Definition set_shaders (v : list Z) (r : rsrcManager) : rsrcManager :=
  {| meshes := meshes r; shaders := v; textures := textures r;
     fbos := fbos r; renderbuffers := renderbuffers r |}.

Definition set_textures (v : list Z) (r : rsrcManager) : rsrcManager :=
  {| meshes := meshes r; shaders := shaders r; textures := v; fbos := fbos r;
     renderbuffers := renderbuffers r |}.

Definition set_fbos (v : list Z) (r : rsrcManager) : rsrcManager :=
  {| meshes := meshes r; shaders := shaders r; textures := textures r;
     fbos := v; renderbuffers := renderbuffers r |}.

Definition set_renderbuffers (v : list Z) (r : rsrcManager) : rsrcManager :=
  {| meshes := meshes r; shaders := shaders r; textures := textures r;
     fbos := fbos r; renderbuffers := v |}.

(** Field updates of [rttCanvas]. *)

Definition set_cfg (v : RTTConfig) (c : rttCanvas) : rttCanvas :=
  {| cfg := v; VBounds := VBounds c; fbo := fbo c; rbColor := rbColor c;
     rbDepth := rbDepth c; rbStencil := rbStencil c;
     rbDepthAndStencil := rbDepthAndStencil c; count := count c;
     readers := readers c |}.

Definition set_fbo (v : Z) (c : rttCanvas) : rttCanvas :=
  {| cfg := cfg c; VBounds := VBounds c; fbo := v; rbColor := rbColor c;
     rbDepth := rbDepth c; rbStencil := rbStencil c;
     rbDepthAndStencil := rbDepthAndStencil c; count := count c;
     readers := readers c |}.

Definition set_rbColor (v : Z) (c : rttCanvas) : rttCanvas :=
  {| cfg := cfg c; VBounds := VBounds c; fbo := fbo c; rbColor := v;
     rbDepth := rbDepth c; rbStencil := rbStencil c;
     rbDepthAndStencil := rbDepthAndStencil c; count := count c;
     readers := readers c |}.

Definition set_rbDepth (v : Z) (c : rttCanvas) : rttCanvas :=
  {| cfg := cfg c; VBounds := VBounds c; fbo := fbo c; rbColor := rbColor c;
     rbDepth := v; rbStencil := rbStencil c;
     rbDepthAndStencil := rbDepthAndStencil c; count := count c;
     readers := readers c |}.

Definition set_rbStencil (v : Z) (c : rttCanvas) : rttCanvas :=
  {| cfg := cfg c; VBounds := VBounds c; fbo := fbo c; rbColor := rbColor c;
     rbDepth := rbDepth c; rbStencil := v;
     rbDepthAndStencil := rbDepthAndStencil c; count := count c;
     readers := readers c |}.

Definition set_rbDepthAndStencil (v : Z) (c : rttCanvas) : rttCanvas :=
  {| cfg := cfg c; VBounds := VBounds c; fbo := fbo c; rbColor := rbColor c;
     rbDepth := rbDepth c; rbStencil := rbStencil c; rbDepthAndStencil := v;
     count := count c; readers := readers c |}.

Definition set_count (v : Z) (c : rttCanvas) : rttCanvas :=
  {| cfg := cfg c; VBounds := VBounds c; fbo := fbo c; rbColor := rbColor c;
     rbDepth := rbDepth c; rbStencil := rbStencil c;
     rbDepthAndStencil := rbDepthAndStencil c; count := v;
     readers := readers c |}.

Definition set_readers (v : nat) (c : rttCanvas) : rttCanvas :=
  {| cfg := cfg c; VBounds := VBounds c; fbo := fbo c; rbColor := rbColor c;
     rbDepth := rbDepth c; rbStencil := rbStencil c;
     rbDepthAndStencil := rbDepthAndStencil c; count := count c;
     readers := v |}.

(** *** The monad of device code: state, panics, fuel, blocking *)

Inductive outcome (A : Type) :=
| Done (a : A) (d : device)
| Panic (msg : string)
| OutOfFuel
| Blocked.

Arguments Done {A} a d.
Arguments Panic {A} msg.
Arguments OutOfFuel {A}.
Arguments Blocked {A}.

Definition M (A : Type) : Type := device → outcome A.

#[export] Instance M_ret : MRet M := λ A a d, Done a d.

#[export] Instance M_bind : MBind M := λ A B k m d,
  match m d with
  | Done a d' => k a d'
  | Panic msg => Panic msg
  | OutOfFuel => OutOfFuel
  | Blocked => Blocked
  end.

Definition get : M device := λ d, Done d d.

Definition modify (f : device → device) : M unit := λ d, Done tt (f d).

Definition panic {A} (msg : string) : M A := λ _, Panic msg.

Definition outOfFuel {A} : M A := λ _, OutOfFuel.

Definition blocked {A} : M A := λ _, Blocked.

Definition emit (e : event) : M unit :=
  modify (λ d, set_trace (trace d ++ [e]) d).

Definition when (b : bool) (m : M unit) : M unit := if b then m else mret tt.

Fixpoint forEach {A} (l : list A) (f : A → M unit) : M unit :=
  match l with
  | [] => mret tt
  | x :: l' => f x ;; forEach l' f
  end.

(** *** What the source takes from packages that are not part of it *)

Class Native := {
  (** [gfx.RTTConfig.Valid] *)
  Valid : RTTConfig → bool;
  (** [gfx.DSFormat.IsCombined] *)
  IsCombined : DSFormat → bool;
  (** [glc.Context.FramebufferStatus]: [None] is the nil error *)
  FramebufferStatus : Z → option glcError;
  (** the driver's answer to [gl.CheckFramebufferStatus] for the framebuffer
      built from a configuration *)
  glCheckFramebufferStatus : RTTConfig → Z;
  (** the driver's answer to [GetQueryObjectiv(id, QUERY_RESULT_AVAILABLE)]
      during the n-th polling pass *)
  glQueryAvailable : nat → Z → bool;
  (** the driver's answer to [GetQueryObjectiv(id, QUERY_RESULT)] *)
  glQueryResult : Z → Z
}.

Section Device.

Context `{Native}.

(** *** [rsrcManager] *)

Definition modifyRsrc (f : rsrcManager → rsrcManager) : M unit :=
  modify (λ d, set_rsrc (f (rsrc d)) d).

(** Modelled from the spec: [rsrcManager.freeTextures] is not among the
    sources. Section 4.2: the list is locked, swapped for empty and unlocked,
    then the native deletion is one batched call over all handles, followed
    by a flush of the command stream; as for its siblings, nothing is issued
    for an empty list. *)
Definition freeTextures : M unit :=
  emit EvLock ;;
  d ← get;
  let ids := textures (rsrc d) in
  modifyRsrc (set_textures []) ;;
  emit EvUnlock ;;
  when (0 <? length ids)%nat
    (emit (GlDeleteTextures ids) ;; emit GlFlush).

Definition freeFBOs : M unit :=
  emit EvLock ;;
  d ← get;
  when (0 <? length (fbos (rsrc d)))%nat
    (emit (GlDeleteFramebuffers (fbos (rsrc d))) ;; emit GlFlush) ;;
  modifyRsrc (set_fbos []) ;;
  emit EvUnlock.

Definition freeRenderbuffers : M unit :=
  emit EvLock ;;
  d ← get;
  when (0 <? length (renderbuffers (rsrc d)))%nat
    (emit (GlDeleteRenderbuffers (renderbuffers (rsrc d))) ;; emit GlFlush) ;;
  modifyRsrc (set_renderbuffers []) ;;
  emit EvUnlock.

Definition freePending : M unit :=
  emit EvLock ;;
  d ← get;
  forEach (meshes (rsrc d)) (λ native, emit (EvMeshFree native)) ;;
  modifyRsrc (set_meshes []) ;;
  forEach (shaders (rsrc d)) (λ native, emit (EvShaderFree native)) ;;
  modifyRsrc (set_shaders []) ;;
  emit EvUnlock ;;
  freeTextures ;;
  freeFBOs ;;
  freeRenderbuffers.

(** *** Occlusion queries: [queryYield], [queryWait] *)

(** The first loop of [queryYield]: poll every pending query once. *)
Fixpoint pollQueries (pass : nat) (queries toRemove : list pendingQuery)
    : M (list pendingQuery) :=
  match queries with
  | [] => mret toRemove
  | query :: queries' =>
      let available := glQueryAvailable pass (qid query) in
      emit (GlGetQueryAvailable (qid query) available) ;;
      if available then
        let result := glQueryResult (qid query) in
        emit (GlGetQueryResult (qid query) result) ;;
        emit (GlDeleteQueries (qid query)) ;;
        d ← get;
        match sampleCount d !! qo query with
        | None => panic "interface conversion: gfx.NativeObject is not *gl2.nativeObject"
        | Some _ => modify (set_sampleCount (<[qo query := result]> (sampleCount d)))
        end ;;
        pollQueries pass queries' (toRemove ++ [query])
      else pollQueries pass queries' toRemove
  end.

(** "Find the index": the last index holding [query], 0 when there is
    none. *)
Fixpoint findIdxFrom (i idx : nat) (query : pendingQuery)
    (queries : list pendingQuery) : nat :=
  match queries with
  | [] => idx
  | q :: queries' =>
      findIdxFrom (S i) (if bool_decide (q = query) then i else idx) query queries'
  end.

Definition findIdx (query : pendingQuery) (queries : list pendingQuery) : nat :=
  findIdxFrom 0 0 query queries.

(** [append(queries[:idx], queries[idx+1:]...)]. *)
Definition removeQuery (query : pendingQuery) : M unit :=
  d ← get;
  let idx := findIdx query (pending d) in
  if bool_decide (length (pending d) < S idx)%nat
  then panic "slice bounds out of range"
  else modify (set_pending (take idx (pending d) ++ drop (S idx) (pending d))).

Definition queryYield : M Z :=
  d ← get;
  if negb (glArbOcclusionQuery d) then mret 0 else
  modify (set_polls (S (polls d))) ;;
  toRemove ← pollQueries (polls d) (pending d) [];
  forEach toRemove removeQuery ;;
  d' ← get;
  mret (Z.of_nat (length (pending d'))).

(** Go's [int] on amd64: 64 bits, two's complement. *)
Definition wrap_int (z : Z) : Z := (z + 2 ^ 63) `mod` 2 ^ 64 - 2 ^ 63.

(** [for i := 0; r.queryYield() > 0; i++ { ... }]; Go's [%] is [Z.rem]. *)
Fixpoint queryWaitLoop (fuel : nat) (i : Z) : M unit :=
  match fuel with
  | O => outOfFuel
  | S fuel' =>
      n ← queryYield;
      if 0 <? n then
        when (negb (i =? 0) && (Z.rem i 16 =? 0)) (emit EvGosched) ;;
        queryWaitLoop fuel' (wrap_int (i + 1))
      else mret tt
  end.

Definition queryWait (fuel : nat) : M unit :=
  d ← get;
  if negb (glArbOcclusionQuery d) then mret tt else queryWaitLoop fuel 0.

(** *** Hooks of the render-to-texture canvas *)

Definition derefCanvas (c : canvasRef) : M rttCanvas :=
  d ← get;
  match canvases d !! c with
  | Some cv => mret cv
  | None => panic "invalid memory address or nil pointer dereference"
  end.

Definition updCanvas (c : canvasRef) (f : rttCanvas → rttCanvas) : M unit :=
  cv ← derefCanvas c;
  modify (λ d, set_canvases (<[c := f cv]> (canvases d)) d).

Definition rttBegin (c : canvasRef) : M unit :=
  cv ← derefCanvas c;
  modify (set_rttCanvasPtr (Some c)) ;;
  emit (GlBindFramebuffer (fbo cv)).

Definition rttEnd (c : canvasRef) : M unit :=
  _ ← derefCanvas c;
  modify (set_rttCanvasPtr None) ;;
  emit (GlBindFramebuffer 0).

(** The closure [do] of [rttCanvas.Render]. *)
Definition genMipmap (t : option Texture) : M unit :=
  match t with
  | None => mret tt
  | Some t =>
      if negb (MinFilterMipmapped t) then mret tt else
      match NativeTexture t with
      | None => panic "interface conversion: gfx.NativeTexture is nil, not *gl2.nativeTexture"
      | Some n => emit (GlBindTexture n) ;; emit GlGenerateMipmap
      end
  end.

Definition rttMipmaps (c : canvasRef) : M unit :=
  cv ← derefCanvas c;
  genMipmap (Color (cfg cv)) ;;
  genMipmap (Depth (cfg cv)) ;;
  genMipmap (Stencil (cfg cv)) ;;
  emit (GlBindTexture 0).

(** [if pre != nil { pre() }], the same for [post]. *)
Definition runHook (h : hook) : M unit :=
  match h with
  | HookNil => mret tt
  | HookRttBegin c => rttBegin c
  | HookRttEnd c => rttEnd c
  | HookMipmaps c => rttMipmaps c
  end.

Definition performScissor (rect : Rectangle) : M unit :=
  d ← get;
  match rttCanvasPtr d with
  | Some c => cv ← derefCanvas c; emit (GsScissor (VBounds cv) rect)
  | None => emit (GsScissor (devBounds d) rect)
  end.

Definition signalComplete : M unit :=
  modify (λ d, set_renderComplete (S (renderComplete d)) d).

Definition clockTick : M unit :=
  modify (λ d, set_clock (S (clock d)) d) ;; emit EvClockTick.

Definition genName : M Z :=
  d ← get;
  modify (set_glNext (glNext d + 1)) ;;
  mret (glNext d).

Definition setLocals (c : canvasRef) (f : rttLocals → rttLocals) : M unit :=
  modify (λ d, set_locals (<[c := f (default noLocals (locals d !! c))]> (locals d)) d).

(** Go's conversion to [int32]. *)
Definition to_int32 (z : Z) : Z := (z + 2 ^ 31) `mod` 2 ^ 32 - 2 ^ 31.

(** *** The creation closure of [RenderToTexture] *)

Definition to_uint32 (z : Z) : Z := z `mod` 2 ^ 32.

(** [GenRenderbuffers], [BindRenderbuffer], [RenderbufferStorageMultisample]
    and one [FramebufferRenderbuffer] per attachment point. *)
Definition newRenderbuffer (c : canvasRef) (store : Z → rttCanvas → rttCanvas)
    (samples format width height : Z) (points : list attachment) : M unit :=
  rb ← genName;
  emit (GlGenRenderbuffers rb) ;;
  updCanvas c (store rb) ;;
  emit (GlBindRenderbuffer rb) ;;
  emit (GlRenderbufferStorageMultisample samples (to_uint32 format) width height) ;;
  forEach points (λ a, emit (GlFramebufferRenderbuffer a rb)).

(** Modelled from the spec: [newNativeTexture] is not among the sources.
    Section 4.5: for an attachment with a destination texture the creation
    allocates and binds a native texture; its name comes from the driver. *)
Definition newNativeTexture (format width height : Z) : M Z :=
  n ← genName;
  emit (EvNewNativeTexture n format width height) ;;
  mret n.

Definition newTexture (format width height : Z) (a : attachment) : M Z :=
  n ← newNativeTexture format width height;
  emit (GlTexImage2D format width height) ;;
  emit GlGenerateMipmap ;;
  emit (GlFramebufferTexture2D a n) ;;
  mret n.

(** The creation closure up to the completeness check: the framebuffer and
    its attachments. *)
Definition attachRTT (c : canvasRef) (cfg : RTTConfig)
    (colorFormat depthFormat stencilFormat : Z) : M unit :=
  let width := to_int32 (Dx (Bounds cfg)) in
  let height := to_int32 (Dy (Bounds cfg)) in
  id ← genName;
  emit (GlGenFramebuffers id) ;;
  updCanvas c (set_fbo id) ;;
  emit (GlBindFramebuffer id) ;;
  let samples := to_int32 (Samples cfg) in
  when (isNil (Color cfg) && negb (ColorFormat cfg =? ZeroTexFormat))
    (newRenderbuffer c set_rbColor samples colorFormat width height
       [COLOR_ATTACHMENT0]) ;;
  let dsCombined :=
    (DepthFormat cfg =? StencilFormat cfg) && IsCombined (DepthFormat cfg) in
  (if isNil (Depth cfg) && isNil (Stencil cfg) && dsCombined then
     newRenderbuffer c set_rbDepthAndStencil samples depthFormat width height
       [DEPTH_ATTACHMENT; STENCIL_ATTACHMENT]
   else
     when (isNil (Depth cfg) && negb (DepthFormat cfg =? ZeroDSFormat))
       (newRenderbuffer c set_rbDepth samples depthFormat width height
          [DEPTH_ATTACHMENT]) ;;
     when (isNil (Stencil cfg) && negb (StencilFormat cfg =? ZeroDSFormat))
       (newRenderbuffer c set_rbStencil samples stencilFormat width height
          [STENCIL_ATTACHMENT])) ;;
  when (negb (isNil (Color cfg)) && negb (ColorFormat cfg =? ZeroTexFormat))
    (n ← newTexture colorFormat width height COLOR_ATTACHMENT0;
     setLocals c (λ l, {| nTexColor := Some n; nTexDepth := nTexDepth l;
                          nTexStencil := nTexStencil l; fbError := fbError l |})) ;;
  when (negb dsCombined)
    (when (negb (isNil (Depth cfg)) && negb (DepthFormat cfg =? ZeroDSFormat))
       (n ← newTexture depthFormat width height DEPTH_ATTACHMENT;
        setLocals c (λ l, {| nTexColor := nTexColor l; nTexDepth := Some n;
                             nTexStencil := nTexStencil l; fbError := fbError l |}))).

(** The rest of the closure: the check for errors, the unbinding, the
    completion signal; "no frame was rendered". *)
Definition createRTT (c : canvasRef) (cfg : RTTConfig)
    (colorFormat depthFormat stencilFormat : Z) : M bool :=
  attachRTT c cfg colorFormat depthFormat stencilFormat ;;
  let status := glCheckFramebufferStatus cfg in
  emit (GlCheckFramebufferStatus status) ;;
  setLocals c (λ l, {| nTexColor := nTexColor l; nTexDepth := nTexDepth l;
                       nTexStencil := nTexStencil l;
                       fbError := FramebufferStatus status |}) ;;
  emit (GlBindTexture 0) ;;
  emit (GlBindRenderbuffer 0) ;;
  emit (GlBindFramebuffer 0) ;;
  signalComplete ;;
  mret false.

(** *** Running the closures *)

(** [for i := 0; i < len(r.renderExec); i++ { f := <-r.renderExec; f() }]:
    the length is read again at every test. *)
Fixpoint drain (run : op → M bool) (fuel : nat) (i : Z) : M unit :=
  match fuel with
  | O => outOfFuel
  | S fuel' =>
      d ← get;
      if i <? Z.of_nat (length (renderExec d)) then
        match renderExec d with
        | [] => blocked
        | f :: rest =>
            modify (set_renderExec rest) ;;
            _ ← run f;
            drain run fuel' (i + 1)
        end
      else mret tt
  end.

Fixpoint exec (fuel : nat) (f : op) : M bool :=
  match f with
  | OpClear rect bg pre post =>
      runHook pre ;;
      emit GsBegin ;;
      emit GsColorWrite ;;
      performScissor rect ;;
      emit (GsClearColor bg) ;;
      emit (GlClear COLOR_BUFFER_BIT) ;;
      _ ← queryYield;
      runHook post ;;
      mret false
  | OpClearDepth rect depth pre post =>
      runHook pre ;;
      emit GsBegin ;;
      emit GsDepthWrite ;;
      performScissor rect ;;
      emit (GsClearDepth depth) ;;
      emit (GlClear DEPTH_BUFFER_BIT) ;;
      _ ← queryYield;
      runHook post ;;
      mret false
  | OpClearStencil rect stencil pre post =>
      runHook pre ;;
      emit GsBegin ;;
      emit GsStencilMaskSeparate ;;
      performScissor rect ;;
      emit (GsClearStencil stencil) ;;
      emit (GlClear STENCIL_BUFFER_BIT) ;;
      _ ← queryYield;
      runHook post ;;
      mret false
  | OpQueryWait pre post =>
      runHook pre ;;
      emit GlFlush ;;
      queryWait fuel ;;
      runHook post ;;
      signalComplete ;;
      mret false
  | OpYield =>
      freePending ;;
      _ ← queryYield;
      mret false
  | OpRender pre post =>
      match fuel with
      | O => outOfFuel
      | S fuel' =>
          freePending ;;
          runHook pre ;;
          drain (exec fuel') fuel 0 ;;
          emit GlFlush ;;
          queryWait fuel ;;
          runHook post ;;
          d ← get;
          match rttCanvasPtr d with
          | Some _ => signalComplete ;; mret false
          | None => clockTick ;; signalComplete ;; mret true
          end
      end
  | OpCreateRTT c cfg colorFormat depthFormat stencilFormat =>
      createRTT c cfg colorFormat depthFormat stencilFormat
  end.

(** The device thread (the [case fn := <-exec] arm of the window's [run])
    serving the queue until a completion signal is there for the caller
    blocked in [<-r.renderComplete]. *)
Fixpoint awaitComplete (fuel : nat) : M unit :=
  d ← get;
  match renderComplete d with
  | S n => modify (set_renderComplete n)
  | O =>
      match fuel with
      | O => outOfFuel
      | S fuel' =>
          match renderExec d with
          | [] => blocked
          | fn :: rest =>
              modify (set_renderExec rest) ;;
              exec fuel' fn ≫= λ renderedFrame : bool,
              when renderedFrame (emit EvSwapBuffers) ;;
              awaitComplete fuel'
          end
      end
  end.

(** *** The methods of [device] *)

(** [r.renderExec <- f]. *)
Definition send (f : op) : M unit :=
  modify (λ d, set_renderExec (renderExec d ++ [f]) d).

Definition hookedClear (rect : Rectangle) (bg : gfxColor) (pre post : hook) : M unit :=
  if Empty rect then mret tt else send (OpClear rect bg pre post).

Definition hookedClearDepth (rect : Rectangle) (depth : float64) (pre post : hook)
    : M unit :=
  if Empty rect then mret tt else send (OpClearDepth rect depth pre post).

Definition hookedClearStencil (rect : Rectangle) (stencil : Z) (pre post : hook)
    : M unit :=
  if Empty rect then mret tt else send (OpClearStencil rect stencil pre post).

Definition hookedQueryWait (fuel : nat) (pre post : hook) : M unit :=
  send (OpQueryWait pre post) ;; awaitComplete fuel.

Definition hookedRender (fuel : nat) (pre post : hook) : M unit :=
  send (OpRender pre post) ;; awaitComplete fuel.

Definition Clear (rect : Rectangle) (bg : gfxColor) : M unit :=
  hookedClear rect bg HookNil HookNil.

Definition ClearDepth (rect : Rectangle) (depth : float64) : M unit :=
  hookedClearDepth rect depth HookNil HookNil.

Definition ClearStencil (rect : Rectangle) (stencil : Z) : M unit :=
  hookedClearStencil rect stencil HookNil HookNil.

Definition QueryWait (fuel : nat) : M unit := hookedQueryWait fuel HookNil HookNil.

Definition Render (fuel : nat) : M unit := hookedRender fuel HookNil HookNil.

(** *** The methods of [rttCanvas]

    [Draw] and [Download] forward to [hookedDraw] and [hookedDownload], which
    are not among the sources; they are left out. *)

(** [noop]: the read lock is released on the [false] path only. *)
Definition noop (c : canvasRef) : M bool :=
  updCanvas c (λ cv, set_readers (S (readers cv)) cv) ;;
  cv ← derefCanvas c;
  if count cv =? 0 then mret true
  else updCanvas c (λ cv, set_readers (Nat.pred (readers cv)) cv) ;; mret false.

Definition rttClear (c : canvasRef) (rect : Rectangle) (bg : gfxColor) : M unit :=
  noop c ≫= λ b : bool,
  if b then mret tt else hookedClear rect bg (HookRttBegin c) (HookRttEnd c).

Definition rttClearDepth (c : canvasRef) (rect : Rectangle) (depth : float64)
    : M unit :=
  hookedClearDepth rect depth (HookRttBegin c) (HookRttEnd c).

Definition rttClearStencil (c : canvasRef) (rect : Rectangle) (stencil : Z)
    : M unit :=
  hookedClearStencil rect stencil (HookRttBegin c) (HookRttEnd c).

Definition rttQueryWait (fuel : nat) (c : canvasRef) : M unit :=
  hookedQueryWait fuel (HookRttBegin c) (HookRttEnd c).

Definition rttRender (fuel : nat) (c : canvasRef) : M unit :=
  hookedRender fuel HookNil (HookMipmaps c).

(** *** [RenderToTexture] *)

Inductive slot := SlotColor | SlotDepth | SlotStencil.

Definition slotTexture (s : slot) (cfg : RTTConfig) : option Texture :=
  match s with
  | SlotColor => Color cfg
  | SlotDepth => Depth cfg
  | SlotStencil => Stencil cfg
  end.

Definition setSlotTexture (s : slot) (t : option Texture) (cfg : RTTConfig)
    : RTTConfig :=
  {| Bounds := Bounds cfg; ColorFormat := ColorFormat cfg;
     DepthFormat := DepthFormat cfg; StencilFormat := StencilFormat cfg;
     Samples := Samples cfg;
     Color := match s with SlotColor => t | _ => Color cfg end;
     Depth := match s with SlotDepth => t | _ => Depth cfg end;
     Stencil := match s with SlotStencil => t | _ => Stencil cfg end |}.

(** The closure [finishTexture]: the texture object is the one the canvas's
    configuration points to. *)
Definition finishTexture (c : canvasRef) (s : slot) (native : option Z) : M unit :=
  cv ← derefCanvas c;
  match slotTexture s (cfg cv), native with
  | None, _ => mret tt
  | Some _, None => mret tt
  | Some t, Some n =>
      updCanvas c (λ cv,
        set_count (count cv + 1)
          (set_cfg (setSlotTexture s
                      (Some {| MinFilterMipmapped := MinFilterMipmapped t;
                               NativeTexture := Some n |}) (cfg cv)) cv))
  end.

(** [canvas := &rttCanvas{...}]; the precision recorded in the [BaseCanvas]
    plays no part in what follows and is left out. *)
Definition newCanvas (cfg : RTTConfig) : M canvasRef :=
  d ← get;
  modify (set_canvases (canvases d ++
    [ {| cfg := cfg; VBounds := Bounds cfg; fbo := 0; rbColor := 0; rbDepth := 0;
         rbStencil := 0; rbDepthAndStencil := 0; count := 0; readers := O |} ])) ;;
  mret (length (canvases d)).

(** The result is [None] for Go's nil canvas. *)
Definition RenderToTexture (fuel : nat) (cfg : RTTConfig) : M (option canvasRef) :=
  if negb (Valid cfg) then panic "RenderToTexture(): Configuration is invalid!" else
  d ← get;
  if negb (glArbFramebufferObject d) then mret None else
  let colorFormat := rttTexFormats d !! ColorFormat cfg in
  if negb (ColorFormat cfg =? ZeroTexFormat) && isNil colorFormat then mret None else
  let depthFormat := rttDSFormats d !! DepthFormat cfg in
  if negb (DepthFormat cfg =? ZeroDSFormat) && isNil depthFormat then mret None else
  let stencilFormat := rttDSFormats d !! StencilFormat cfg in
  if negb (StencilFormat cfg =? ZeroDSFormat) && isNil stencilFormat then mret None else
  canvas ← newCanvas cfg;
  send (OpCreateRTT canvas cfg (default 0 colorFormat) (default 0 depthFormat)
          (default 0 stencilFormat)) ;;
  awaitComplete fuel ;;
  d' ← get;
  let l := default noLocals (locals d' !! canvas) in
  match fbError l with
  | Some e =>
      if bool_decide (e = FramebufferUnsupported) then mret None
      else panic "glc: framebuffer is incomplete"
  | None =>
      finishTexture canvas SlotColor (nTexColor l) ;;
      finishTexture canvas SlotDepth (nTexDepth l) ;;
      finishTexture canvas SlotStencil (nTexStencil l) ;;
      rttClear canvas (Rect 0 0 0 0)
        {| R := f32_zero; G := f32_zero; B := f32_zero; A := f32_one |} ;;
      rttClearDepth canvas (Rect 0 0 0 0) f64_one ;;
      rttClearStencil canvas (Rect 0 0 0 0) 0 ;;
      mret (Some canvas)
  end.

(** *** [rttCanvas.freeTexture], run by a texture's finalizer *)

(** Modelled from the spec: [finalizeTexture] is not among the sources.
    Section 4.2, [Enqueue(kind, handle)]: the handle is appended to the list
    of its kind under the lock. *)
Definition finalizeTexture (n : Z) : M unit :=
  emit EvLock ;;
  modifyRsrc (λ r, set_textures (textures r ++ [n]) r) ;;
  emit EvUnlock.

(** [finalizeTexture] of the native texture of [t], when [t] is not nil;
    the type assertion panics on a nil [NativeTexture]. *)
Definition finalizeAttached (t : option Texture) : M unit :=
  match t with
  | None => mret tt
  | Some t =>
      match NativeTexture t with
      | None => panic "interface conversion: gfx.NativeTexture is nil, not *gl2.nativeTexture"
      | Some n => finalizeTexture n
      end
  end.

(** The closure [freeRb]. *)
Definition freeRb (id : Z) : M unit :=
  if id =? 0 then mret tt else
  emit EvLock ;;
  modifyRsrc (λ r, set_renderbuffers (renderbuffers r ++ [id]) r) ;;
  emit EvUnlock.

(** [textureCount.Lock()] waits for the read locks to be released: with a
    leaked read lock it waits for ever. *)
Definition freeTexture (c : canvasRef) : M unit :=
  cv ← derefCanvas c;
  if bool_decide (0 < readers cv)%nat then blocked else
  if count cv =? 0 then mret tt else
  updCanvas c (set_count (count cv - 1)) ;;
  when (count cv - 1 =? 0)
    (finalizeAttached (Color (cfg cv)) ;;
     finalizeAttached (Depth (cfg cv)) ;;
     finalizeAttached (Stencil (cfg cv)) ;;
     when (negb (fbo cv =? 0))
       (emit EvLock ;;
        modifyRsrc (λ r, set_fbos (fbos r ++ [fbo cv]) r) ;;
        emit EvUnlock) ;;
     freeRb (rbColor cv) ;;
     freeRb (rbDepth cv) ;;
     freeRb (rbStencil cv) ;;
     freeRb (rbDepthAndStencil cv)).

End Device.

(** *** Reading a trace *)

(** The native deletion calls. *)
Definition isDeletion (e : event) : bool :=
  match e with
  | EvMeshFree _ | EvShaderFree _ | GlDeleteTextures _
  | GlDeleteFramebuffers _ | GlDeleteRenderbuffers _ => true
  | _ => false
  end.


(** One batched call for a non-empty list of handles, none for an empty
    one. *)
Definition batch (call : list Z → event) (ids : list Z) : list event :=
  match ids with
  | [] => []
  | _ :: _ => [call ids]
  end.


Definition isClear (e : event) : bool :=
  match e with GlClear _ => true | _ => false end.

Definition isGosched (e : event) : bool :=
  match e with EvGosched => true | _ => false end.

Definition noRsrc : rsrcManager :=
  {| meshes := []; shaders := []; textures := []; fbos := []; renderbuffers := [] |}.

(** The calls that delete a list of handles: none for an empty list, else
    one batched deletion and a flush. *)
Definition deleteCalls (call : list Z → event) (ids : list Z) : list event :=
  match ids with
  | [] => []
  | _ :: _ => [call ids; GlFlush]
  end.

(** The trace one reclamation pass adds, from the lists it finds. *)
Definition freePendingTrace (r : rsrcManager) : list event :=
  [EvLock] ++ map EvMeshFree (meshes r) ++ map EvShaderFree (shaders r) ++ [EvUnlock]
  ++ [EvLock; EvUnlock] ++ deleteCalls GlDeleteTextures (textures r)
  ++ [EvLock] ++ deleteCalls GlDeleteFramebuffers (fbos r) ++ [EvUnlock]
  ++ [EvLock] ++ deleteCalls GlDeleteRenderbuffers (renderbuffers r) ++ [EvUnlock].

Definition isRender (f : op) : bool :=
  match f with OpRender _ _ => true | _ => false end.

Definition goscheds (d : device) : nat := length (List.filter isGosched (trace d)).

(** *** Relations between the state before and the state after *)

(** [m] relates every state to the states it ends in. *)
Definition keeps (R : device → device → Prop) {A} (m : M A) : Prop :=
  ∀ d a d', m d = Done a d' → R d d'.

(** The relations that housekeeping on the device thread (reclamation, query
    polling, native calls) respects. *)
Class Frame (R : device → device → Prop) := {
  frame_preorder :: PreOrder R;
  frame_trace v d : R d (set_trace v d);
  frame_rsrc v d : R d (set_rsrc v d);
  frame_sampleCount v d : R d (set_sampleCount v d);
  frame_polls v d : R d (set_polls v d);
  frame_pending v d : R d (set_pending v d)
}.

Definition sameQueue (d d' : device) : Prop := renderExec d' = renderExec d.

(** The canvas in use, the frame clock and the queue are the same. *)
Definition samePresentation (d d' : device) : Prop :=
  rttCanvasPtr d' = rttCanvasPtr d ∧ clock d' = clock d ∧
  renderExec d' = renderExec d.

(** The canvas [c] exists. *)
Definition allocated (c : canvasRef) (d : device) : Prop :=
  (c < length (canvases d))%nat.

(** What building a canvas leaves alone: the queue, the completion signals
    and the clear calls seen so far. *)
Definition rttFrame (d d' : device) : Prop :=
  renderExec d' = renderExec d ∧
  renderComplete d' = renderComplete d ∧
  List.filter isClear (trace d') = List.filter isClear (trace d).

(** [m] runs to completion on every state that has the canvas [c], keeps the
    canvas and respects [rttFrame]. *)
Definition safe (c : canvasRef) {A} (m : M A) : Prop :=
  ∀ d, allocated c d →
    ∃ a d', m d = Done a d' ∧ allocated c d' ∧ rttFrame d d'.

(** Nothing is queued and no completion signal is waiting: the caller is the
    only client of the device. *)
Definition quiescent (d : device) : Prop :=
  renderExec d = [] ∧ renderComplete d = 0%nat.

Definition colorMissing (d : device) (cfg : RTTConfig) : Prop :=
  ColorFormat cfg ≠ ZeroTexFormat ∧ rttTexFormats d !! ColorFormat cfg = None.

Definition depthMissing (d : device) (cfg : RTTConfig) : Prop :=
  DepthFormat cfg ≠ ZeroDSFormat ∧ rttDSFormats d !! DepthFormat cfg = None.

Definition stencilMissing (d : device) (cfg : RTTConfig) : Prop :=
  StencilFormat cfg ≠ ZeroDSFormat ∧ rttDSFormats d !! StencilFormat cfg = None.

(** The conditions under which [RenderToTexture] gives up before it builds
    anything: no framebuffer objects, or a requested format without a native
    equivalent. *)
Definition refused (d : device) (cfg : RTTConfig) : Prop :=
  glArbFramebufferObject d = false ∨ colorMissing d cfg ∨ depthMissing d cfg ∨
  stencilMissing d cfg.

(** Every pending query belongs to an object whose [NativeObject] is a
    [nativeObject]. *)
Definition objectsOk (d : device) : Prop :=
  ∀ q, q ∈ pending d → is_Some (sampleCount d !! qo q).

(** What polling the queries leaves alone. *)
Definition pollFrame (d d' : device) : Prop :=
  pending d' = pending d ∧ polls d' = polls d ∧
  glArbOcclusionQuery d' = glArbOcclusionQuery d ∧
  goscheds d' = goscheds d ∧
  ∀ o, is_Some (sampleCount d !! o) → is_Some (sampleCount d' !! o).

(** What removing entries of the pending list leaves alone. *)
Definition removeFrame (d d' : device) : Prop :=
  polls d' = polls d ∧ glArbOcclusionQuery d' = glArbOcclusionQuery d ∧
  goscheds d' = goscheds d ∧ sampleCount d' = sampleCount d ∧
  pending d' ⊆ pending d.

(** The number of iterations [i] with [0 <= i < j] at which the loop of
    [queryWait] calls [runtime.Gosched]: the positive multiples of 16. *)
Definition yieldsBelow (j : Z) : Z := if j <=? 0 then 0 else (j - 1) `div` 16.

(** From the [n]-th polling pass after the current one on, every pending
    query is reported available. *)
Definition settledWithin `{Native} (n : nat) (d : device) : Prop :=
  ∀ q, q ∈ pending d → ∀ pass, (polls d + n ≤ pass)%nat →
    glQueryAvailable pass (qid q) = true.

(** *** Further readings of a state *)

(** What a closure other than the one of [Render] leaves alone: the queue
    and the frame clock. *)
Definition steady (d d' : device) : Prop :=
  renderExec d' = renderExec d ∧ clock d' = clock d.

(** What housekeeping leaves alone: the queue, the completion signals, the
    frame clock, the active canvas and the canvases. *)
Definition undisturbed (d d' : device) : Prop :=
  renderExec d' = renderExec d ∧ renderComplete d' = renderComplete d ∧
  clock d' = clock d ∧ rttCanvasPtr d' = rttCanvasPtr d ∧
  canvases d' = canvases d.

Definition sameRsrc (d d' : device) : Prop := rsrc d' = rsrc d.

(** The [pre] and [post] that a method of [device] (nil, nil) or of
    [rttCanvas] ([r.rttBegin], [r.rttEnd]) hands to a hooked method. *)
Definition bracketed (pre post : hook) : bool :=
  match pre, post with
  | HookNil, HookNil => true
  | HookRttBegin c, HookRttEnd c' => bool_decide (c = c')
  | _, _ => false
  end.

(** The closures that the methods of [device] and [rttCanvas], [yield] and
    [RenderToTexture] send over [renderExec]. *)
Definition sentByMethods (f : op) : bool :=
  match f with
  | OpClear _ _ pre post | OpClearDepth _ _ pre post
  | OpClearStencil _ _ pre post | OpQueryWait pre post => bracketed pre post
  | OpYield => true
  | OpRender HookNil HookNil | OpRender HookNil (HookMipmaps _) => true
  | OpRender _ _ => false
  | OpCreateRTT _ _ _ _ _ => true
  end.

(** No canvas is active and the queue holds closures of the methods
    only. *)
Definition methodsOnly (d : device) : Prop :=
  rttCanvasPtr d = None ∧ Forall (λ f, sentByMethods f = true) (renderExec d).

(** The buffer that a closure sent by [Clear], [ClearDepth] or
    [ClearStencil] of the device clears. *)
Definition clearMask (f : op) : option Z :=
  match f with
  | OpClear _ _ HookNil HookNil => Some COLOR_BUFFER_BIT
  | OpClearDepth _ _ HookNil HookNil => Some DEPTH_BUFFER_BIT
  | OpClearStencil _ _ HookNil HookNil => Some STENCIL_BUFFER_BIT
  | _ => None
  end.

(** The events that make a frame: the clears, the tick of the clock, the
    swap of the buffers. *)
Definition frameEvent (e : event) : bool :=
  match e with
  | GlClear _ | EvClockTick | EvSwapBuffers => true
  | _ => false
  end.

(** The frame events of the trace are the same. *)
Definition sameFrameEvents (d d' : device) : Prop :=
  List.filter frameEvent (trace d') = List.filter frameEvent (trace d).

(** The native texture of a texture of a configuration, if it has one. *)
Definition nativeOf (t : option Texture) : list Z :=
  match t ≫= NativeTexture with
  | Some n => [n]
  | None => []
  end.

(** The framebuffer and the renderbuffers that a canvas owns: the names
    other than 0. *)
Definition canvasFramebuffer (cv : rttCanvas) : list Z :=
  if fbo cv =? 0 then [] else [fbo cv].

Definition canvasRenderbuffers (cv : rttCanvas) : list Z :=
  List.filter (λ id, negb (id =? 0))
    [rbColor cv; rbDepth cv; rbStencil cv; rbDepthAndStencil cv].

(** Every texture of the configuration holds a native texture. *)
Definition texturesLoaded (cfg : RTTConfig) : Prop :=
  ∀ t, t ∈ [Color cfg; Depth cfg; Stencil cfg] →
    ∀ x, t = Some x → is_Some (NativeTexture x).

(** [d'] is [d] with the handles [ts], [fs] and [rs] added to the lists of
    textures, framebuffers and renderbuffers to free, and no native deletion
    issued. *)
Definition queues (ts fs rs : list Z) (d d' : device) : Prop :=
  textures (rsrc d') = textures (rsrc d) ++ ts ∧
  fbos (rsrc d') = fbos (rsrc d) ++ fs ∧
  renderbuffers (rsrc d') = renderbuffers (rsrc d) ++ rs ∧
  meshes (rsrc d') = meshes (rsrc d) ∧ shaders (rsrc d') = shaders (rsrc d) ∧
  undisturbed d d' ∧
  List.filter isDeletion (trace d') = List.filter isDeletion (trace d).

Section Polling.

Context `{Native}.

(** A query that the driver reports available during polling pass
    [pass]. *)
Definition availableAt (pass : nat) (q : pendingQuery) : bool :=
  glQueryAvailable pass (qid q).

(** The sample counts once the results of [queries] have been stored, in
    their order. *)
Definition storeResults (queries : list pendingQuery) (counts : gmap nat Z)
    : gmap nat Z :=
  foldl (λ counts q, <[qo q := glQueryResult (qid q)]> counts) counts queries.

(** The queries that a polling pass leaves pending. *)
Definition stillPending (d : device) : list pendingQuery :=
  if glArbOcclusionQuery d
  then List.filter (λ q, negb (availableAt (polls d) q)) (pending d)
  else pending d.

End Polling.

(** *** Reading what [RenderToTexture] builds *)

#[export] Instance attachment_eq_dec : EqDecision attachment.
Proof. solve_decision. Defined.

(** What an event attaches to the bound framebuffer: the attachment point,
    and whether it is a texture ([true]) or a renderbuffer ([false]). *)
Definition attachmentOf (e : event) : option (attachment * bool) :=
  match e with
  | GlFramebufferRenderbuffer a _ => Some (a, false)
  | GlFramebufferTexture2D a _ => Some (a, true)
  | _ => None
  end.

Definition attachmentsOf (t : list event) : list (attachment * bool) :=
  omap attachmentOf t.

(** [m], when it returns, has changed the reading [view] of the state by
    [g]. *)
Definition tracks {V A} (view : device → V) (g : V → V) (m : M A) : Prop :=
  ∀ d a d', m d = Done a d' → view d' = g (view d).

(** [m], when it returns, has made the attachments [l], in this order. *)
Definition attaches {A} (l : list (attachment * bool)) (m : M A) : Prop :=
  tracks (λ d, attachmentsOf (trace d)) (λ v, v ++ l) m.

(** The texture that the configuration names for an attachment point. *)
Definition textureFor (a : attachment) (cfg : RTTConfig) : option Texture :=
  match a with
  | COLOR_ATTACHMENT0 => Color cfg
  | DEPTH_ATTACHMENT => Depth cfg
  | STENCIL_ATTACHMENT => Stencil cfg
  end.

(** The variables [nTexColor], [nTexDepth], [nTexStencil] and [fbError] of
    the [RenderToTexture] call that built canvas [c]. *)
Definition localsOf (c : canvasRef) (d : device) : rttLocals :=
  default noLocals (locals d !! c).

(** Which of [nTexColor], [nTexDepth] and [nTexStencil] are set. *)
Definition nativesOf (l : rttLocals) : bool * bool * bool :=
  (negb (isNil (nTexColor l)), negb (isNil (nTexDepth l)), negb (isNil (nTexStencil l))).

Definition nativesSet (c : canvasRef) (d : device) : bool * bool * bool :=
  nativesOf (localsOf c d).

(** What the creation closure leaves alone of a canvas. *)
Definition canvasCore (cv : rttCanvas) : RTTConfig * Z * nat * Rectangle :=
  (cfg cv, count cv, readers cv, VBounds cv).

Definition sameCore (c : canvasRef) (d d' : device) : Prop :=
  canvasCore <$> canvases d' !! c = canvasCore <$> canvases d !! c.

Definition sameLocals (d d' : device) : Prop := locals d' = locals d.

Definition samePending (d d' : device) : Prop := pending d' = pending d.

(** [result] is [given] finished with a native texture when [flag] is set,
    and [given] as it was otherwise. *)
Definition finishedAs (flag : bool) (given result : option Texture) : Prop :=
  if flag
  then ∃ t n, given = Some t ∧
         result = Some {| MinFilterMipmapped := MinFilterMipmapped t;
                          NativeTexture := Some n |}
  else result = given.

(** The closure creates a native texture for the colour texture of the
    configuration. *)
Definition colorTextured (cfg : RTTConfig) : bool :=
  negb (isNil (Color cfg)) && negb (ColorFormat cfg =? ZeroTexFormat).

(** A texture for which the [post] closure of [rttCanvas.Render] reaches the
    type assertion on [t.NativeTexture] with a nil [NativeTexture]. *)
Definition unloadedMipmap (t : option Texture) : bool :=
  match t with
  | Some t => MinFilterMipmapped t && isNil (NativeTexture t)
  | None => false
  end.

(** The events that tell where a frame goes: the framebuffer bound, the
    scissor rectangle, the clears, the tick of the clock and the swap. *)
Definition targetEvent (e : event) : bool :=
  match e with
  | GlBindFramebuffer _ | GsScissor _ _ | GlClear _ | EvClockTick | EvSwapBuffers => true
  | _ => false
  end.

Section Creation.

Context `{Native}.

(** [dsCombined] of the creation closure. *)
Definition dsCombined (cfg : RTTConfig) : bool :=
  (DepthFormat cfg =? StencilFormat cfg) && IsCombined (DepthFormat cfg).

(** The closure creates a native texture for the depth texture of the
    configuration. *)
Definition depthTextured (cfg : RTTConfig) : bool :=
  negb (dsCombined cfg) &&
  (negb (isNil (Depth cfg)) && negb (DepthFormat cfg =? ZeroDSFormat)).

(** The attachments that the creation closure makes for a configuration, in
    the order of the closure. *)
Definition madeAttachments (cfg : RTTConfig) : list (attachment * bool) :=
  (if isNil (Color cfg) && negb (ColorFormat cfg =? ZeroTexFormat)
   then [(COLOR_ATTACHMENT0, false)] else []) ++
  (if isNil (Depth cfg) && isNil (Stencil cfg) && dsCombined cfg
   then [(DEPTH_ATTACHMENT, false); (STENCIL_ATTACHMENT, false)]
   else
     (if isNil (Depth cfg) && negb (DepthFormat cfg =? ZeroDSFormat)
      then [(DEPTH_ATTACHMENT, false)] else []) ++
     (if isNil (Stencil cfg) && negb (StencilFormat cfg =? ZeroDSFormat)
      then [(STENCIL_ATTACHMENT, false)] else [])) ++
  (if negb (isNil (Color cfg)) && negb (ColorFormat cfg =? ZeroTexFormat)
   then [(COLOR_ATTACHMENT0, true)] else []) ++
  (if negb (dsCombined cfg)
   then
     if negb (isNil (Depth cfg)) && negb (DepthFormat cfg =? ZeroDSFormat)
     then [(DEPTH_ATTACHMENT, true)] else []
   else []).

(** A configuration with such a texture among those that the creation
    closure does not create. *)
Definition leavesUnloadedMipmap (cfg : RTTConfig) : bool :=
  negb (colorTextured cfg) && unloadedMipmap (Color cfg) ||
  negb (depthTextured cfg) && unloadedMipmap (Depth cfg) ||
  unloadedMipmap (Stencil cfg).

End Creation.

(** *** Example states *)

(** A driver that accepts every framebuffer and reports a query available
    from the seventeenth polling pass on; configurations are valid when
    their bounds are not empty. *)
Definition exampleNative : Native :=
  {| Valid := λ cfg, negb (Empty (Bounds cfg));
     IsCombined := λ f, f =? 4;
     FramebufferStatus := λ status,
       if status =? 0x8CD5 then None
       else if status =? 0x8CDD then Some FramebufferUnsupported
       else Some (FramebufferOther status);
     glCheckFramebufferStatus := λ _, 0x8CD5;
     glQueryAvailable := λ pass _, bool_decide (16 ≤ pass)%nat;
     glQueryResult := λ _, 1 |}.

Definition exampleDevice : device :=
  {| renderExec := []; renderComplete := 0; rsrc := noRsrc; pending := [];
     rttCanvasPtr := None;
     glArbFramebufferObject := true; glArbOcclusionQuery := true;
     rttTexFormats := {[ 1 := 0x1907; 2 := 0x1908 ]};
     rttDSFormats := {[ 1 := 0x81A5; 2 := 0x81A6; 3 := 0x81A7; 4 := 0x88F0 ]};
     devBounds := Rect 0 0 640 480; clock := 0; canvases := []; locals := ∅;
     sampleCount := ∅; polls := 0; glNext := 1; trace := [] |}.

(** A colour texture and a depth renderbuffer. *)
Definition exampleConfig : RTTConfig :=
  {| Bounds := Rect 0 0 256 256; ColorFormat := 2; DepthFormat := 1;
     StencilFormat := 0; Samples := 0;
     Color := Some {| MinFilterMipmapped := true; NativeTexture := None |};
     Depth := None; Stencil := None |}.

(** The same with empty bounds. *)
Definition invalidConfig : RTTConfig :=
  {| Bounds := Rect 0 0 0 0; ColorFormat := 2; DepthFormat := 1;
     StencilFormat := 0; Samples := 0;
     Color := Some {| MinFilterMipmapped := true; NativeTexture := None |};
     Depth := None; Stencil := None |}.

(** [exampleDevice] on a driver without framebuffer objects. *)
Definition exampleNoFBO : device :=
  {| renderExec := []; renderComplete := 0; rsrc := noRsrc; pending := [];
     rttCanvasPtr := None;
     glArbFramebufferObject := false; glArbOcclusionQuery := true;
     rttTexFormats := ∅; rttDSFormats := ∅;
     devBounds := Rect 0 0 640 480; clock := 0; canvases := []; locals := ∅;
     sampleCount := ∅; polls := 0; glNext := 1; trace := [] |}.

(** [exampleDevice] once [RenderToTexture(exampleConfig)] has returned
    canvas 0. *)
Definition exampleCanvasDevice : device :=
  Eval vm_compute in
    match @RenderToTexture exampleNative 1 exampleConfig exampleDevice with
    | Done _ d => d
    | _ => exampleDevice
    end.

(** ... and once the finalizer of its one texture has run. *)
Definition exampleReleasedDevice : device :=
  Eval vm_compute in
    match freeTexture 0 exampleCanvasDevice with
    | Done _ d => d
    | _ => exampleCanvasDevice
    end.

(** Canvas 0 then. *)
Definition exampleReleasedCanvas : rttCanvas :=
  Eval vm_compute in
    match canvases exampleReleasedDevice !! 0%nat with
    | Some cv => cv
    | None =>
        {| cfg := exampleConfig; VBounds := Rect 0 0 0 0; fbo := 0; rbColor := 0;
           rbDepth := 0; rbStencil := 0; rbDepthAndStencil := 0; count := 0;
           readers := 0 |}
    end.

Definition red : gfxColor := {| R := f32_one; G := f32_zero; B := f32_zero; A := f32_one |}.

Definition clearA : op := OpClear (Rect 0 0 100 100) red HookNil HookNil.

Definition clearB : op := OpClearDepth (Rect 0 0 100 100) f64_one HookNil HookNil.

(** [exampleDevice] with two operations queued. *)
Definition exampleQueued : device := set_renderExec [clearA; clearB] exampleDevice.

(** [exampleDevice] with framebuffer 7 waiting to be deleted. *)
Definition examplePendingFBO : device :=
  set_rsrc (set_fbos [7] noRsrc) exampleDevice.

(** [exampleDevice] with one occlusion query in flight. *)
Definition exampleQuerying : device :=
  set_sampleCount {[ 0%nat := 0 ]}
    (set_pending [ {| qid := 7; qo := 0 |} ] exampleDevice).

(** [exampleQueued] once the closure of a [Render] has run. *)
Definition examplePresented : device :=
  Eval vm_compute in
    match @exec exampleNative 2 (OpRender HookNil HookNil) exampleQueued with
    | Done _ d => d
    | _ => exampleQueued
    end.

(** [exampleQuerying] at the polling pass that finds its query
    available. *)
Definition exampleSettled : device := set_polls 16 exampleQuerying.

(** Canvas 0 of [exampleCanvasDevice]. *)
Definition exampleCanvas : rttCanvas :=
  Eval vm_compute in
    match canvases exampleCanvasDevice !! 0%nat with
    | Some cv => cv
    | None => exampleReleasedCanvas
    end.

(** A combined depth and stencil format with a depth and a stencil texture,
    and a colour buffer without a texture. *)
Definition exampleStencilConfig : RTTConfig :=
  {| Bounds := Rect 0 0 256 256; ColorFormat := 2; DepthFormat := 4;
     StencilFormat := 4; Samples := 0;
     Color := None;
     Depth := Some {| MinFilterMipmapped := false; NativeTexture := None |};
     Stencil := Some {| MinFilterMipmapped := false; NativeTexture := None |} |}.

(** [exampleCanvasDevice] once the creation closure has run for
    [exampleStencilConfig] on canvas 0. *)
Definition exampleAttached : device :=
  Eval vm_compute in
    match @createRTT exampleNative 0 exampleStencilConfig 0x1908 0x88F0 0x88F0
            exampleCanvasDevice with
    | Done _ d => d
    | _ => exampleCanvasDevice
    end.

(** A colour texture and a stencil texture, both mipmapped. *)
Definition exampleMipmapConfig : RTTConfig :=
  {| Bounds := Rect 0 0 256 256; ColorFormat := 2; DepthFormat := 1;
     StencilFormat := 4; Samples := 0;
     Color := Some {| MinFilterMipmapped := true; NativeTexture := None |};
     Depth := None;
     Stencil := Some {| MinFilterMipmapped := true; NativeTexture := None |} |}.

End GL2.

(** ** [util.PreDraw] *)

Module Util.

Import Image.

Inductive error :=
| ErrNilState
| ErrNilShader
| ErrNilSource
| ErrNoVertices
| ErrNoMeshes
| ErrShaderError.

(** What [PreDraw] reads of the objects it is given. A vertex is its three
    coordinates, kept as bit patterns; an image is a handle. *)
Record Shader := { ShaderLoaded : bool; Error : string }.

Record Mesh := { MeshLoaded : bool; HasChanged : bool; Vertices : list (Z * Z * Z) }.

Record Texture := { TextureLoaded : bool; Source : option Z }.

(** A [*gfx.State]: [PreDraw] only tests it against nil. *)
Inductive State := aState.

Record Object := {
  ObjState : option State;     (* o.State, nil or not *)
  ObjShader : option Shader;   (* o.Shader *)
  Meshes : list Mesh;
  Textures : list Texture
}.

(** The [gfx.Device] handed to [PreDraw]: what a resource looks like once
    the device has signalled that loading is complete. *)
Class Device := {
  LoadShader : Shader → Shader;
  LoadMesh : Mesh → Mesh;
  LoadTexture : Texture → Texture
}.

Section PreDraw.

Context `{Device}.

(** The loop over [o.Meshes]: the error, if any, and the meshes as the loop
    leaves them. *)
Fixpoint loadMeshes (ms : list Mesh) : option error * list Mesh :=
  match ms with
  | [] => (None, [])
  | m :: ms' =>
      if MeshLoaded m && negb (HasChanged m) then
        let '(err, r) := loadMeshes ms' in (err, m :: r)
      else if (length (Vertices m) =? 0)%nat then (Some ErrNoVertices, m :: ms')
      else let '(err, r) := loadMeshes ms' in (err, LoadMesh m :: r)
  end.

(** The loop over [o.Textures]. *)
Fixpoint loadTextures (ts : list Texture) : option error * list Texture :=
  match ts with
  | [] => (None, [])
  | t :: ts' =>
      if TextureLoaded t then
        let '(err, r) := loadTextures ts' in (err, t :: r)
      else if isNil (Source t) then (Some ErrNilSource, t :: ts')
      else let '(err, r) := loadTextures ts' in (err, LoadTexture t :: r)
  end.

(** [PreDraw(dev, rect, o, c)]: the two results and the object as the call
    leaves it. The camera is not used; [o.Bounds()] only caches a bounding
    box. *)
Definition PreDraw (rect : Rectangle) (o : Object) : bool * option error * Object :=
  if Empty rect then (false, None, o) else
  match ObjState o with
  | None => (false, Some ErrNilState, o)
  | Some _ =>
  match ObjShader o with
  | None => (false, Some ErrNilShader, o)
  | Some shader =>
  if (0 <? String.length (Error shader))%nat then (false, Some ErrShaderError, o) else
  if (length (Meshes o) =? 0)%nat then (false, Some ErrNoMeshes, o) else
  let shader' := if negb (ShaderLoaded shader) then LoadShader shader else shader in
  let '(err, ms) := loadMeshes (Meshes o) in
  let o1 := {| ObjState := ObjState o; ObjShader := Some shader'; Meshes := ms;
               Textures := Textures o |} in
  match err with
  | Some e => (false, Some e, o1)
  | None =>
  let '(err, ts) := loadTextures (Textures o) in
  let o2 := {| ObjState := ObjState o; ObjShader := Some shader'; Meshes := ms;
               Textures := ts |} in
  match err with
  | Some e => (false, Some e, o2)
  | None =>
  if (0 <? String.length (Error shader'))%nat then (false, Some ErrShaderError, o2)
  else (true, None, o2)
  end end end end.

End PreDraw.

(** The shader as [PreDraw] leaves it. *)
Definition loadedShader `{Device} (shader : Shader) : Shader :=
  if negb (ShaderLoaded shader) then LoadShader shader else shader.

(** A mesh the loop will hand to the device. *)
Definition needsLoad (m : Mesh) : bool := negb (MeshLoaded m && negb (HasChanged m)).

(** A mesh the loop accepts: skipped, or with vertices. *)
Definition meshOk (m : Mesh) : bool :=
  negb (needsLoad m) || negb (length (Vertices m) =? 0)%nat.

(** A texture the loop accepts: loaded already, or with a source. *)
Definition textureOk (t : Texture) : bool :=
  TextureLoaded t || negb (isNil (Source t)).

(** A device whose loading changes nothing that [PreDraw] reads. *)
Definition idleDevice : Device :=
  {| LoadShader := λ s, s; LoadMesh := λ m, m; LoadTexture := λ t, t |}.

Definition okShader : Shader := {| ShaderLoaded := true; Error := "" |}.

(** An object drawn before: its one mesh is loaded, unchanged, and its
    vertex data has been released. *)
Definition loadedObject : Object :=
  {| ObjState := Some aState;
     ObjShader := Some okShader;
     Meshes := [ {| MeshLoaded := true; HasChanged := false; Vertices := [] |} ];
     Textures := [ {| TextureLoaded := true; Source := None |} ] |}.

(** An object whose one mesh has yet to be loaded and has no vertices. *)
Definition emptyMeshObject : Object :=
  {| ObjState := Some aState;
     ObjShader := Some okShader;
     Meshes := [ {| MeshLoaded := false; HasChanged := false; Vertices := [] |} ];
     Textures := [] |}.

(** A mesh, a texture as the loops of [PreDraw] leave it. *)
Definition afterLoadMesh `{Device} (m : Mesh) : Mesh :=
  if needsLoad m then LoadMesh m else m.

Definition afterLoadTexture `{Device} (t : Texture) : Texture :=
  if TextureLoaded t then t else LoadTexture t.

(** The object once the shader, every mesh and every texture have been
    through the loading steps of [PreDraw]. *)
Definition afterLoad `{Device} (o : Object) : Object :=
  {| ObjState := ObjState o;
     ObjShader := loadedShader <$> ObjShader o;
     Meshes := map afterLoadMesh (Meshes o);
     Textures := map afterLoadTexture (Textures o) |}.

(** The checks that [PreDraw] makes before it loads anything. *)
Definition drawable (o : Object) : Prop :=
  ObjState o ≠ None ∧
  (∃ shader, ObjShader o = Some shader ∧ Error shader = "") ∧
  Meshes o ≠ [].

(** A device that marks what it has loaded. *)
Definition marksLoaded `{Device} : Prop :=
  (∀ s, ShaderLoaded (LoadShader s) = true) ∧
  (∀ m, MeshLoaded (LoadMesh m) = true ∧ HasChanged (LoadMesh m) = false) ∧
  (∀ t, TextureLoaded (LoadTexture t) = true).

(** A device that marks resources as loaded and releases their data, as
    [gfx.Device] asks of an implementation. *)
Definition markingDevice : Device :=
  {| LoadShader := λ s, {| ShaderLoaded := true; Error := Error s |};
     LoadMesh := λ m, {| MeshLoaded := true; HasChanged := false; Vertices := [] |};
     LoadTexture := λ t, {| TextureLoaded := true; Source := None |} |}.

(** An object that has not been drawn yet. *)
Definition freshObject : Object :=
  {| ObjState := Some aState;
     ObjShader := Some {| ShaderLoaded := false; Error := "" |};
     Meshes := [ {| MeshLoaded := false; HasChanged := false;
                    Vertices := [(0, 0, 0); (1, 0, 0); (0, 1, 0)]%Z |} ];
     Textures := [ {| TextureLoaded := false; Source := Some 7%Z |} ] |}.

(** Its second mesh has no vertices, its texture is still to be loaded. *)
Definition halfEmptyObject : Object :=
  {| ObjState := Some aState;
     ObjShader := Some {| ShaderLoaded := false; Error := "" |};
     Meshes := [ {| MeshLoaded := false; HasChanged := false;
                    Vertices := [(0, 0, 0); (1, 0, 0); (0, 1, 0)]%Z |};
                 {| MeshLoaded := false; HasChanged := false; Vertices := [] |} ];
     Textures := [ {| TextureLoaded := false; Source := Some 7%Z |} ] |}.

(** [halfEmptyObject] and [freshObject] as a call with [markingDevice]
    leaves them. *)
Definition halfLoadedObject : Object :=
  Eval vm_compute in (@PreDraw markingDevice (Rect 0 0 100 100) halfEmptyObject).2.

Definition drawnObject : Object :=
  Eval vm_compute in (@PreDraw markingDevice (Rect 0 0 100 100) freshObject).2.

End Util.

(** ** The GLFW window: [useProps] *)

Module Window.

Abbreviation float64 := Z (only parsing).

(** [math.Inf(-1)] and the constant [-1], as bit patterns. *)
Definition f64_neg_inf : float64 := 0xFFF0000000000000.
Definition f64_neg_one : float64 := 0xBFF0000000000000.

Definition f64_isNaN (a : float64) : bool :=
  (Z.land a 0x7FF0000000000000 =? 0x7FF0000000000000) &&
  negb (Z.land a 0x000FFFFFFFFFFFFF =? 0).

Definition f64_isZero (a : float64) : bool := Z.land a 0x7FFFFFFFFFFFFFFF =? 0.

(** Go's [==] on [float64]. *)
Definition f64_eqb (a b : float64) : bool :=
  negb (f64_isNaN a) && negb (f64_isNaN b) &&
  ((a =? b) || (f64_isZero a && f64_isZero b)).

(** The properties [useProps] reads and writes. *)
Record Props := {
  Title : string;
  Size : Z * Z;
  Pos : Z * Z;
  CursorPos : float64 * float64;
  Visible : bool;
  Minimized : bool;
  VSync : bool;
  CursorGrabbed : bool;
  Fullscreen : bool
}.

Definition SetSize (v : Z * Z) (p : Props) : Props :=
  {| Title := Title p; Size := v; Pos := Pos p; CursorPos := CursorPos p;
     Visible := Visible p; Minimized := Minimized p; VSync := VSync p;
     CursorGrabbed := CursorGrabbed p; Fullscreen := Fullscreen p |}.

Definition SetPos (v : Z * Z) (p : Props) : Props :=
  {| Title := Title p; Size := Size p; Pos := v; CursorPos := CursorPos p;
     Visible := Visible p; Minimized := Minimized p; VSync := VSync p;
     CursorGrabbed := CursorGrabbed p; Fullscreen := Fullscreen p |}.

Definition SetCursorPos (v : float64 * float64) (p : Props) : Props :=
  {| Title := Title p; Size := Size p; Pos := Pos p; CursorPos := v;
     Visible := Visible p; Minimized := Minimized p; VSync := VSync p;
     CursorGrabbed := CursorGrabbed p; Fullscreen := Fullscreen p |}.

Definition SetVisible (v : bool) (p : Props) : Props :=
  {| Title := Title p; Size := Size p; Pos := Pos p;
     CursorPos := CursorPos p; Visible := v; Minimized := Minimized p;
     VSync := VSync p; CursorGrabbed := CursorGrabbed p;
     Fullscreen := Fullscreen p |}.

Definition SetMinimized (v : bool) (p : Props) : Props :=
  {| Title := Title p; Size := Size p; Pos := Pos p;
     CursorPos := CursorPos p; Visible := Visible p; Minimized := v;
     VSync := VSync p; CursorGrabbed := CursorGrabbed p;
     Fullscreen := Fullscreen p |}.

Definition SetVSync (v : bool) (p : Props) : Props :=
  {| Title := Title p; Size := Size p; Pos := Pos p;
     CursorPos := CursorPos p; Visible := Visible p;
     Minimized := Minimized p; VSync := v; CursorGrabbed := CursorGrabbed p;
     Fullscreen := Fullscreen p |}.

Definition SetCursorGrabbed (v : bool) (p : Props) : Props :=
  {| Title := Title p; Size := Size p; Pos := Pos p;
     CursorPos := CursorPos p; Visible := Visible p;
     Minimized := Minimized p; VSync := VSync p; CursorGrabbed := v;
     Fullscreen := Fullscreen p |}.

Definition SetFullscreen (v : bool) (p : Props) : Props :=
  {| Title := Title p; Size := Size p; Pos := Pos p;
     CursorPos := CursorPos p; Visible := Visible p;
     Minimized := Minimized p; VSync := VSync p;
     CursorGrabbed := CursorGrabbed p; Fullscreen := v |}.

(** The calls into GLFW, the lock of the window and the rebuild signal. *)
Inductive call :=
| Unlock
| Lock
| WinSetTitle (title : string)
| WinSetSize (width height : Z)
| MonitorGetVideoMode
| WinSetPos (x y : Z)
| WinSetCursorPos (x y : float64)
| WinShow
| WinHide
| WinIconify
| WinRestore
| GlfwSwapInterval (interval : Z)
| WinSetInputMode (cursorDisabled : bool)
| RebuildSignal.               (* w.rebuild <- struct{}{} *)

Record glfwWindow := {
  props : Props;
  last : Props;
  beforeFullscreen : Z * Z;
  lastCursorX : float64;
  lastCursorY : float64;
  extWGLEXTSwapControlTear : bool;
  extGLXEXTSwapControlTear : bool;
  frameRateText : string;   (* Sprintf("%dFPS", ceil of the clock's frame rate) *)
  videoMode : Z * Z;        (* the monitor's video mode: width, height *)
  calls : list call
}.

Definition set_props (v : Props) (w : glfwWindow) : glfwWindow :=
  {| props := v; last := last w; beforeFullscreen := beforeFullscreen w;
     lastCursorX := lastCursorX w; lastCursorY := lastCursorY w;
     extWGLEXTSwapControlTear := extWGLEXTSwapControlTear w;
     extGLXEXTSwapControlTear := extGLXEXTSwapControlTear w;
     frameRateText := frameRateText w; videoMode := videoMode w;
     calls := calls w |}.

Definition set_last (v : Props) (w : glfwWindow) : glfwWindow :=
  {| props := props w; last := v; beforeFullscreen := beforeFullscreen w;
     lastCursorX := lastCursorX w; lastCursorY := lastCursorY w;
     extWGLEXTSwapControlTear := extWGLEXTSwapControlTear w;
     extGLXEXTSwapControlTear := extGLXEXTSwapControlTear w;
     frameRateText := frameRateText w; videoMode := videoMode w;
     calls := calls w |}.

Definition set_beforeFullscreen (v : Z * Z) (w : glfwWindow) : glfwWindow :=
  {| props := props w; last := last w; beforeFullscreen := v;
     lastCursorX := lastCursorX w; lastCursorY := lastCursorY w;
     extWGLEXTSwapControlTear := extWGLEXTSwapControlTear w;
     extGLXEXTSwapControlTear := extGLXEXTSwapControlTear w;
     frameRateText := frameRateText w; videoMode := videoMode w;
     calls := calls w |}.

Definition set_lastCursorX (v : float64) (w : glfwWindow) : glfwWindow :=
  {| props := props w; last := last w;
     beforeFullscreen := beforeFullscreen w; lastCursorX := v;
     lastCursorY := lastCursorY w;
     extWGLEXTSwapControlTear := extWGLEXTSwapControlTear w;
     extGLXEXTSwapControlTear := extGLXEXTSwapControlTear w;
     frameRateText := frameRateText w; videoMode := videoMode w;
     calls := calls w |}.

Definition set_lastCursorY (v : float64) (w : glfwWindow) : glfwWindow :=
  {| props := props w; last := last w;
     beforeFullscreen := beforeFullscreen w; lastCursorX := lastCursorX w;
     lastCursorY := v;
     extWGLEXTSwapControlTear := extWGLEXTSwapControlTear w;
     extGLXEXTSwapControlTear := extGLXEXTSwapControlTear w;
     frameRateText := frameRateText w; videoMode := videoMode w;
     calls := calls w |}.

Definition set_calls (v : list call) (w : glfwWindow) : glfwWindow :=
  {| props := props w; last := last w;
     beforeFullscreen := beforeFullscreen w; lastCursorX := lastCursorX w;
     lastCursorY := lastCursorY w;
     extWGLEXTSwapControlTear := extWGLEXTSwapControlTear w;
     extGLXEXTSwapControlTear := extGLXEXTSwapControlTear w;
     frameRateText := frameRateText w; videoMode := videoMode w;
     calls := v |}.

Definition emit (c : call) (w : glfwWindow) : glfwWindow :=
  set_calls (calls w ++ [c]) w.

(** [withoutLock(f)]. *)
Definition withoutLock (f : glfwWindow → glfwWindow) (w : glfwWindow) : glfwWindow :=
  emit Lock (f (emit Unlock w)).

Fixpoint stripPrefix (prefix s : string) : option string :=
  match prefix, s with
  | EmptyString, _ => Some s
  | String a prefix', String b s' =>
      if Ascii.eqb a b then stripPrefix prefix' s' else None
  | String _ _, EmptyString => None
  end.

(** [strings.Replace(s, old, new, 1)] for a non-empty [old]. *)
Fixpoint replaceFirst (old new s : string) : string :=
  match stripPrefix old s with
  | Some rest => new +:+ rest
  | None =>
      match s with
      | EmptyString => EmptyString
      | String a s' => String a (replaceFirst old new s')
      end
  end.

Definition updateTitle (w : glfwWindow) : glfwWindow :=
  emit (WinSetTitle (replaceFirst "{FPS}" (frameRateText w) (Title (props w)))) w.

Definition applySize (force fullscreen : bool) (w : glfwWindow) : glfwWindow :=
  let '(width, height) := Size (props w) in
  let '(lastWidth, lastHeight) := Size (last w) in
  if force || negb (width =? lastWidth) || negb (height =? lastHeight) then
    let w := if negb fullscreen then set_beforeFullscreen (width, height) w else w in
    let w := set_last (SetSize (width, height) (last w)) w in
    withoutLock (emit (WinSetSize width height)) w
  else w.

Definition applyPos (force fullscreen : bool) (w : glfwWindow) : glfwWindow :=
  let '(width, height) := Size (props w) in
  let '(x, y) := Pos (props w) in
  let '(lastX, lastY) := Pos (last w) in
  if (force || negb (x =? lastX) || negb (y =? lastY)) && negb fullscreen then
    let w := set_last (SetPos (x, y) (last w)) w in
    if (x =? -1) && (y =? -1) then
      let w := emit MonitorGetVideoMode w in
      let '(vmWidth, vmHeight) := videoMode w in
      withoutLock
        (emit (WinSetPos (vmWidth ÷ 2 - width ÷ 2) (vmHeight ÷ 2 - height ÷ 2))) w
    else withoutLock (emit (WinSetPos x y)) w
  else w.

Definition applyCursorPos (force : bool) (w : glfwWindow) : glfwWindow :=
  let '(cursorX, cursorY) := CursorPos (props w) in
  let '(lastCursorX, lastCursorY) := CursorPos (last w) in
  if force || negb (f64_eqb cursorX lastCursorX) || negb (f64_eqb cursorY lastCursorY) then
    let w := set_last (SetCursorPos (cursorX, cursorY) (last w)) w in
    if negb (f64_eqb cursorX f64_neg_one) && negb (f64_eqb cursorY f64_neg_one) then
      withoutLock (emit (WinSetCursorPos cursorX cursorY)) w
    else w
  else w.

Definition applyVisible (force : bool) (w : glfwWindow) : glfwWindow :=
  let visible := Visible (props w) in
  if force || negb (eqb (Visible (last w)) visible) then
    let w := set_last (SetVisible visible (last w)) w in
    withoutLock (emit (if visible then WinShow else WinHide)) w
  else w.

Definition applyMinimized (force : bool) (w : glfwWindow) : glfwWindow :=
  let minimized := Minimized (props w) in
  if force || negb (eqb (Minimized (last w)) minimized) then
    let w := set_last (SetMinimized minimized (last w)) w in
    withoutLock (emit (if minimized then WinIconify else WinRestore)) w
  else w.

Definition applyVSync (force : bool) (w : glfwWindow) : glfwWindow :=
  let vsync := VSync (props w) in
  if force || negb (eqb (VSync (last w)) vsync) then
    let w := set_last (SetVSync vsync (last w)) w in
    let swapInterval :=
      if vsync then
        if extWGLEXTSwapControlTear w || extGLXEXTSwapControlTear w then -1 else 1
      else 0 in
    emit (GlfwSwapInterval swapInterval) w
  else w.

Definition applyCursorGrabbed (force : bool) (w : glfwWindow) : glfwWindow :=
  let grabbed := CursorGrabbed (props w) in
  if force || negb (eqb (CursorGrabbed (last w)) grabbed) then
    let w := set_last (SetCursorGrabbed grabbed (last w)) w in
    let w := set_lastCursorX f64_neg_inf w in
    let w := set_lastCursorY f64_neg_inf w in
    withoutLock (emit (WinSetInputMode grabbed)) w
  else w.

Definition useProps (p : Props) (force : bool) (w : glfwWindow) : glfwWindow :=
  let w := set_props p w in
  let fullscreen := Fullscreen (props w) in
  let lastFullscreen := Fullscreen (last w) in
  if negb (eqb fullscreen lastFullscreen) then
    let w := set_last (SetFullscreen fullscreen (last w)) w in
    let w :=
      if negb fullscreen then set_props (SetSize (beforeFullscreen w) (props w)) w
      else w in
    emit RebuildSignal w
  else
    let w := updateTitle w in
    let w := applySize force fullscreen w in
    let w := applyPos force fullscreen w in
    let w := applyCursorPos force w in
    let w := applyVisible force w in
    let w := applyMinimized force w in
    let w := applyVSync force w in
    applyCursorGrabbed force w.

(** The GLFW calls among the recorded ones. *)
Definition isNative (c : call) : bool :=
  match c with
  | Unlock | Lock | RebuildSignal => false
  | _ => true
  end.

Definition exampleProps : Props :=
  {| Title := "engine - {FPS}"; Size := (640, 480); Pos := (-1, -1);
     CursorPos := (f64_neg_one, f64_neg_one); Visible := true; Minimized := false;
     VSync := true; CursorGrabbed := false; Fullscreen := false |}.

(** A windowed window that has [exampleProps] applied. *)
Definition exampleWindow : glfwWindow :=
  {| props := exampleProps; last := exampleProps; beforeFullscreen := (640, 480);
     lastCursorX := 0; lastCursorY := 0;
     extWGLEXTSwapControlTear := false; extGLXEXTSwapControlTear := true;
     frameRateText := "60FPS"; videoMode := (1920, 1080); calls := [] |}.

(** The request to go fullscreen, with another title and vsync off. *)
Definition fullscreenRequest : Props :=
  {| Title := "engine"; Size := (640, 480); Pos := (-1, -1);
     CursorPos := (f64_neg_one, f64_neg_one); Visible := true; Minimized := false;
     VSync := false; CursorGrabbed := true; Fullscreen := true |}.


(** *** The event callbacks of [initCallbacks] *)

(** The events that the callbacks below hand to [sendEvent], without their
    time stamp. *)
Inductive windowEvent :=
| EvMinimized
| EvRestored
| EvMoved (x y : Z)
| EvResized (width height : Z)
| EvCursorMoved (x y : float64) (delta : bool).

(** The callbacks that write the properties [useProps] reads: the new state
    of the window and the event sent, if any. The read lock that a callback
    holds meanwhile is not recorded. *)
Definition iconifyCallback (iconify : bool) (w : glfwWindow)
    : glfwWindow * option windowEvent :=
  let w := set_last (SetMinimized iconify (last w)) w in
  let w := set_props (SetMinimized iconify (props w)) w in
  (w, Some (if iconify then EvMinimized else EvRestored)).

Definition posCallback (x y : Z) (w : glfwWindow) : glfwWindow * option windowEvent :=
  let w := set_last (SetPos (x, y) (last w)) w in
  if Fullscreen (last w) then (w, None)
  else (set_props (SetPos (x, y) (props w)) w, Some (EvMoved x y)).

Definition sizeCallback (width height : Z) (w : glfwWindow)
    : glfwWindow * option windowEvent :=
  let w :=
    if negb (Fullscreen (last w)) then set_beforeFullscreen (width, height) w
    else w in
  let w := set_last (SetSize (width, height) (last w)) w in
  let w := set_props (SetSize (width, height) (props w)) w in
  (w, Some (EvResized width height)).

Section CursorCallback.

(** Go's [-] on [float64]. *)
Variable f64_sub : float64 → float64 → float64.

Definition cursorPosCallback (x y : float64) (w : glfwWindow)
    : glfwWindow * option windowEvent :=
  let grabbed := CursorGrabbed (props w) in
  if grabbed then
    let lastX := lastCursorX w in
    let lastY := lastCursorY w in
    let w := set_lastCursorX x w in
    let w := set_lastCursorY y w in
    if f64_eqb lastX f64_neg_inf && f64_eqb lastY f64_neg_inf then (w, None)
    else (w, Some (EvCursorMoved (f64_sub x lastX) (f64_sub y lastY) grabbed))
  else
    let w := set_last (SetCursorPos (x, y) (last w)) w in
    let w := set_props (SetCursorPos (x, y) (props w)) w in
    (w, Some (EvCursorMoved x y grabbed)).

End CursorCallback.

(** *** Reading the state and the calls *)

(** Every property that [useProps] applies is recorded as applied with the
    value requested: the position only outside fullscreen, the cursor
    position as Go's [==] sees it. *)
Definition settled (w : glfwWindow) : Prop :=
  Fullscreen (props w) = Fullscreen (last w) ∧
  Size (props w) = Size (last w) ∧
  (Fullscreen (props w) = false → Pos (props w) = Pos (last w)) ∧
  f64_eqb (CursorPos (props w)).1 (CursorPos (last w)).1 = true ∧
  f64_eqb (CursorPos (props w)).2 (CursorPos (last w)).2 = true ∧
  Visible (props w) = Visible (last w) ∧
  Minimized (props w) = Minimized (last w) ∧
  VSync (props w) = VSync (last w) ∧
  CursorGrabbed (props w) = CursorGrabbed (last w).

(** The GLFW calls that [useProps] makes through [withoutLock]. *)
Definition eventful (c : call) : bool :=
  match c with
  | WinSetSize _ _ | WinSetPos _ _ | WinSetCursorPos _ _ | WinShow | WinHide
  | WinIconify | WinRestore | WinSetInputMode _ => true
  | _ => false
  end.

(** Following the write lock through the calls: [Unlock] only while it is
    held, [Lock] only while it is not, the calls of [eventful] only while it
    is not, every other call only while it is. The result is whether the
    lock is held at the end, [None] if a call is out of place. *)
Fixpoint lockWalk (held : bool) (l : list call) : option bool :=
  match l with
  | [] => Some held
  | Unlock :: l' => if held then lockWalk false l' else None
  | Lock :: l' => if held then None else lockWalk true l'
  | c :: l' => if eqb held (negb (eventful c)) then lockWalk held l' else None
  end.

Definition notNaN (v : float64 * float64) : Prop :=
  f64_isNaN v.1 = false ∧ f64_isNaN v.2 = false.

(** [f] adds calls that keep to the lock and leave it held. *)
Definition keepsLock (f : glfwWindow → glfwWindow) : Prop :=
  ∀ w, ∃ l, calls (f w) = calls w ++ l ∧ lockWalk true l = Some true.

(** *** [build] *)

(** What [glfw.CreateWindow] is asked for: the size, the title, and whether
    a monitor is given, which makes the window fullscreen. *)
Record creation := {
  cwSize : Z * Z;
  cwTitle : string;
  cwMonitor : bool
}.

(** The answers of GLFW and of [glfwNewDevice] during a [build]: the error
    of each, if any, and the two extensions. *)
Class Glfw := {
  CreateWindow : creation → option string;
  glfwNewDevice : option string;
  ExtensionSupported : string → bool
}.

Definition set_extensions (wgl glx : bool) (w : glfwWindow) : glfwWindow :=
  {| props := props w; last := last w;
     beforeFullscreen := beforeFullscreen w; lastCursorX := lastCursorX w;
     lastCursorY := lastCursorY w;
     extWGLEXTSwapControlTear := wgl;
     extGLXEXTSwapControlTear := glx;
     frameRateText := frameRateText w; videoMode := videoMode w;
     calls := calls w |}.

(** [build]: the error returned, the window asked of [glfw.CreateWindow] if
    the call was made, and the state. The window hints, the OpenGL context,
    the device and the registration of the callbacks leave the state
    modelled here alone and are not recorded. *)
Definition build `{Glfw} (w : glfwWindow)
    : option string * option creation * glfwWindow :=
  let p := props w in
  let w := set_beforeFullscreen (Size p) w in
  let w :=
    if Fullscreen p then
      let w := emit MonitorGetVideoMode w in
      let w := set_props (SetSize (videoMode w) (props w)) w in
      set_last (SetSize (videoMode w) (last w)) w
    else w in
  let c := {| cwSize := Size (props w); cwTitle := Title p;
              cwMonitor := Fullscreen p |} in
  match CreateWindow c with
  | Some err => (Some err, Some c, w)
  | None =>
      match glfwNewDevice with
      | Some err => (Some err, Some c, w)
      | None =>
          let w :=
            set_extensions (ExtensionSupported "WGL_EXT_swap_control_tear")
              (ExtensionSupported "GLX_EXT_swap_control_tear") w in
          (None, Some c, useProps (props w) true w)
      end
  end.

(** *** More example states *)

(** [fullscreenRequest] without the fullscreen mode: another title, vsync
    off, the cursor grabbed. *)
Definition windowedRequest : Props := SetFullscreen false fullscreenRequest.

(** A request to leave fullscreen that asks for 800 by 600. *)
Definition leaveRequest : Props := SetSize (800, 600) exampleProps.

(** GLFW and the device never fail; no adaptive vsync. *)
Definition exampleGlfw : Glfw :=
  {| CreateWindow := λ _, None; glfwNewDevice := None;
     ExtensionSupported := λ _, false |}.

(** The value that a bit pattern stands for, and back; every NaN is read as
    the one NaN of [spec_float] and written as Go's [math.NaN()]. *)
Definition f64_decode (a : float64) : SpecFloat.spec_float :=
  let s := Z.testbit a 63 in
  let e := Z.land (Z.shiftr a 52) 0x7FF in
  let m := Z.land a 0xFFFFFFFFFFFFF in
  if e =? 0x7FF then
    if m =? 0 then SpecFloat.S754_infinity s else SpecFloat.S754_nan
  else if e =? 0 then
    match m with
    | Z.pos p => SpecFloat.S754_finite s p (-1074)
    | _ => SpecFloat.S754_zero s
    end
  else
    match m + 2 ^ 52 with
    | Z.pos p => SpecFloat.S754_finite s p (e - 1075)
    | _ => SpecFloat.S754_nan
    end.

Definition f64_encode (f : SpecFloat.spec_float) : float64 :=
  let sign (s : bool) := if s then 2 ^ 63 else 0 in
  match f with
  | SpecFloat.S754_zero s => sign s
  | SpecFloat.S754_infinity s => sign s + 0x7FF0000000000000
  | SpecFloat.S754_nan => 0x7FF8000000000001
  | SpecFloat.S754_finite s m e =>
      sign s +
      (if Z.pos m <? 2 ^ 52 then Z.pos m
       else (e + 1075) * 2 ^ 52 + (Z.pos m - 2 ^ 52))
  end.

(** IEEE 754 subtraction in binary64, rounding to nearest even: Go's [-]
    on [float64], the payload of a NaN aside. *)
Definition f64_minus (a b : float64) : float64 :=
  f64_encode (SpecFloat.SFsub 53 1024 (f64_decode a) (f64_decode b)).

(** 100.0, 50.0 and 103.5 as bit patterns. *)
Definition f64_100 : float64 := 0x4059000000000000.
Definition f64_50 : float64 := 0x4049000000000000.
Definition f64_103_5 : float64 := 0x4059E00000000000.

End Window.

(** ** [gfxutil]: [InsertionSort], [ByState], [ByDist] *)

Module Gfxutil.

(** Go's [sort.Interface]; [None] is a panic (an index out of range). *)
Class Interface (D : Type) := {
  Len : D → Z;
  Less : D → Z → Z → option bool;
  Swap : D → Z → Z → option D
}.

(** The outcome of a loop that is given fuel. *)
Inductive outcome (D : Type) :=
| Returns (data : D)
| Panics
| OutOfFuel.
Arguments Returns {D} data.
Arguments Panics {D}.
Arguments OutOfFuel {D}.

Section InsertionSort.

Context {D : Type} `{Interface D}.

(** [for j := i; j > 0 && data.Less(j, j-1); j-- { data.Swap(j, j-1) }]. *)
Fixpoint insertAt (j : nat) (data : D) : option D :=
  match j with
  | O => Some data
  | S j' =>
      match Less data (Z.of_nat j) (Z.of_nat j') with
      | None => None
      | Some false => Some data
      | Some true =>
          match Swap data (Z.of_nat j) (Z.of_nat j') with
          | None => None
          | Some data' => insertAt j' data'
          end
      end
  end.

(** [for i := 0; i < data.Len(); i++ { ... }], from [i] on: the length is
    read again at every test. *)
Fixpoint sortFrom (fuel : nat) (i : nat) (data : D) : outcome D :=
  match fuel with
  | O => OutOfFuel
  | S fuel' =>
      if Z.of_nat i <? Len data then
        match insertAt i data with
        | None => Panics
        | Some data' => sortFrom fuel' (S i) data'
        end
      else Returns data
  end.

Definition InsertionSort (fuel : nat) (data : D) : outcome D := sortFrom fuel 0 data.

End InsertionSort.

(** A Go slice index expression [s[i]]. *)
Definition index {A} (s : list A) (i : Z) : option A :=
  if i <? 0 then None else s !! Z.to_nat i.

(** [s[i], s[j] = s[j], s[i]]: both operands are read, then [s[i]] and
    [s[j]] are written, in this order. *)
Definition swapSlice {A} (s : list A) (i j : Z) : option (list A) :=
  match index s i, index s j with
  | Some a, Some b => Some (<[Z.to_nat j := a]> (<[Z.to_nat i := b]> s))
  | _, _ => None
  end.

(** A slice sorted by [less] on its elements: [ByState] with [less a b] for
    [a.Compare(b)]. *)
Definition bySlice {A} (less : A → A → bool) : Interface (list A) :=
  {| Len := λ s, Z.of_nat (length s);
     Less := λ s i j,
       match index s i, index s j with
       | Some a, Some b => Some (less a b)
       | _, _ => None
       end;
     Swap := swapSlice |}.

Section Orders.

(** [gfx.Object], its [Compare] method, [lmath.Vec3], and the squared
    distance of an object's position in world space to a target, as a
    [float64] with Go's [>]: none of them is among the sources. *)
Context {Object Vec3 F : Type}.
Variable Compare : Object → Object → bool.
Variable distSq : Object → Vec3 → F.
Variable gt : F → F → bool.

Definition ByState : Interface (list Object) := bySlice Compare.

(** [ByDist.Less] on two objects: the first is further away from the
    target. *)
Definition farther (target : Vec3) (i j : Object) : bool :=
  gt (distSq i target) (distSq j target).

Record ByDist := { Objects : list Object; Target : Vec3 }.

Definition byDist : Interface ByDist :=
  {| Len := λ b, Z.of_nat (length (Objects b));
     Less := λ b ii jj,
       match index (Objects b) ii, index (Objects b) jj with
       | Some i, Some j => Some (farther (Target b) i j)
       | _, _ => None
       end;
     Swap := λ b i j,
       match swapSlice (Objects b) i j with
       | Some s => Some {| Objects := s; Target := Target b |}
       | None => None
       end |}.

End Orders.

(** [b] may come after [a]: it is not less than [a]. *)
Definition notBefore {A} (less : A → A → bool) (a b : A) : Prop := less b a = false.

(** [less] never holds both ways; [less] is a strict weak order when,
    besides, its negation is transitive. *)
Definition asymmetric {A} (less : A → A → bool) : Prop :=
  ∀ a b, less a b = true → less b a = false.

Definition negTransitive {A} (less : A → A → bool) : Prop :=
  ∀ a b c, less b a = false → less c b = false → less c a = false.

(** The sorted part of the slice, last element first, once [x] has been
    moved down into it. *)
Fixpoint moveDown {A} (less : A → A → bool) (x : A) (r : list A) : list A :=
  match r with
  | [] => [x]
  | y :: r' => if less x y then y :: moveDown less x r' else x :: r
  end.

(** *** Example data *)

(** Objects on a line: an object is its coordinate, the squared distance is
    that of the coordinates. *)
Definition exampleDistSq (o target : Z) : Z := (o - target) * (o - target).

Definition exampleByDist : ByDist :=
  {| Objects := [1; 10; 4]; Target := 0 |}.

End Gfxutil.

(** * Properties *)

Import Image GL2.

(** ** The monad *)

Section MonadFacts.

Context `{Native}.

Lemma bind_Done {A B} (m : M A) (k : A → M B) d a d' :
  m d = Done a d' → (m ≫= k) d = k a d'.
Proof. intros E. unfold mbind, M_bind. by rewrite E. Qed.

Lemma bind_Done_inv {A B} (m : M A) (k : A → M B) d b d' :
  (m ≫= k) d = Done b d' → ∃ a d1, m d = Done a d1 ∧ k a d1 = Done b d'.
Proof.
  unfold mbind, M_bind. destruct (m d) as [a d1| | |]; try done. eauto.
Qed.

Lemma get_bind {B} (k : device → M B) d : (get ≫= k) d = k d d.
Proof. reflexivity. Qed.

Lemma forEach_emit {A} (f : A → event) (l : list A) d :
  forEach l (λ x, emit (f x)) d = Done tt (set_trace (trace d ++ map f l) d).
Proof.
  revert d. induction l as [|x l IH]; intros d; simpl.
  - rewrite app_nil_r. by destruct d.
  - unfold mbind, M_bind. simpl. rewrite IH. simpl.
    by rewrite <- app_assoc.
Qed.

Lemma derefCanvas_run c cv d :
  canvases d !! c = Some cv → derefCanvas c d = Done cv d.
Proof. intros Hc. unfold derefCanvas. rewrite get_bind. by rewrite Hc. Qed.

End MonadFacts.

(** ** Frame rules: what a computation leaves alone when it returns *)

Section Keeps.

Context (R : device → device → Prop) `{!PreOrder R}.

Lemma keeps_ret {A} (a : A) : keeps R (mret a).
Proof. intros d a' d' [= _ <-]. reflexivity. Qed.

Lemma keeps_bind {A B} (m : M A) (k : A → M B) :
  keeps R m → (∀ a, keeps R (k a)) → keeps R (m ≫= k).
Proof.
  intros Hm Hk d b d'. unfold mbind, M_bind.
  destruct (m d) as [a d1| | |] eqn:E; try done.
  intros E'. etrans; [by eapply Hm|by eapply Hk].
Qed.

Lemma keeps_get_bind {B} (k : device → M B) :
  (∀ d0, keeps R (k d0)) → keeps R (get ≫= k).
Proof. intros Hk d b d' E. by eapply (Hk d). Qed.

Lemma keeps_modify f : (∀ d, R d (f d)) → keeps R (modify f).
Proof. intros Hf d a d' [= _ <-]. apply Hf. Qed.

Lemma keeps_panic {A} msg : keeps R (@panic A msg).
Proof. by intros d a d'. Qed.

Lemma keeps_outOfFuel {A} : keeps R (@outOfFuel A).
Proof. by intros d a d'. Qed.

Lemma keeps_blocked {A} : keeps R (@blocked A).
Proof. by intros d a d'. Qed.

Lemma keeps_when b m : keeps R m → keeps R (when b m).
Proof. intros Hm. destruct b; [done|apply keeps_ret]. Qed.

Lemma keeps_forEach {A} (l : list A) f :
  (∀ x, keeps R (f x)) → keeps R (forEach l f).
Proof.
  intros Hf. induction l as [|x l IH]; simpl; [apply keeps_ret|].
  apply keeps_bind; [apply Hf|done].
Qed.

End Keeps.

Ltac keeps_step :=
  lazymatch goal with
  | |- keeps _ (mret _) => apply keeps_ret; exact _
  | |- keeps _ (get ≫= _) => apply keeps_get_bind; intros ?
  | |- keeps _ (_ ≫= _) => apply keeps_bind; [exact _| |intros ?]
  | |- keeps _ (panic _) => apply keeps_panic
  | |- keeps _ outOfFuel => apply keeps_outOfFuel
  | |- keeps _ blocked => apply keeps_blocked
  | |- keeps _ (when _ _) => apply keeps_when; [exact _|]
  | |- keeps _ (forEach _ _) => apply keeps_forEach; [exact _|intros ?]
  | |- keeps _ (if ?b then _ else _) => destruct b
  | |- keeps _ (match ?x with _ => _ end) => destruct x
  | |- keeps _ (modify _) =>
      apply keeps_modify; intros ?;
      first [ apply frame_trace | apply frame_rsrc | apply frame_sampleCount
            | apply frame_polls | apply frame_pending | done ]
  | |- keeps _ (emit _) =>
      apply keeps_modify; intros ?; first [apply frame_trace | done]
  end.

Ltac keeps_auto := repeat first [ assumption | keeps_step ]; try done.

#[export] Instance sameQueue_frame : Frame sameQueue.
Proof.
  split; try done. split; [done|].
  intros x y z H1 H2. unfold sameQueue in *. congruence.
Qed.

#[export] Instance samePresentation_frame : Frame samePresentation.
Proof.
  split; try done. split; [done|].
  intros x y z (?&?&?) (?&?&?). unfold samePresentation. split_and!; congruence.
Qed.

Section Housekeeping.

Context `{Native} (R : device → device → Prop) `{!Frame R}.

Lemma freePending_keeps : keeps R freePending.
Proof.
  unfold freePending, freeTextures, freeFBOs, freeRenderbuffers, modifyRsrc.
  keeps_auto.
Qed.

Lemma pollQueries_keeps pass queries toRemove :
  keeps R (pollQueries pass queries toRemove).
Proof.
  revert toRemove.
  induction queries as [|q queries IH]; intros toRemove; simpl; keeps_auto.
Qed.

Lemma queryYield_keeps : keeps R queryYield.
Proof.
  pose proof pollQueries_keeps. unfold queryYield, removeQuery. keeps_auto.
Qed.

Lemma queryWaitLoop_keeps fuel i : keeps R (queryWaitLoop fuel i).
Proof.
  pose proof queryYield_keeps.
  revert i. induction fuel as [|fuel IH]; intros i; simpl; keeps_auto.
Qed.

Lemma queryWait_keeps fuel : keeps R (queryWait fuel).
Proof. pose proof queryWaitLoop_keeps. unfold queryWait. keeps_auto. Qed.

Lemma rttMipmaps_keeps c : keeps R (rttMipmaps c).
Proof. unfold rttMipmaps, genMipmap, derefCanvas. keeps_auto. Qed.

End Housekeeping.

(** Bring a state built from a record literal back to a record literal. *)
Ltac norm_state :=
  cbv beta iota delta
      [set_renderExec set_renderComplete set_rsrc set_pending set_rttCanvasPtr
       set_clock set_canvases set_locals set_sampleCount set_polls set_glNext
       set_trace set_meshes set_shaders set_textures set_fbos set_renderbuffers
       renderExec renderComplete rsrc pending rttCanvasPtr glArbFramebufferObject
       glArbOcclusionQuery rttTexFormats rttDSFormats devBounds clock canvases
       locals sampleCount polls glNext trace
       meshes shaders textures fbos renderbuffers].

Ltac run_step tac :=
  first [ rewrite get_bind
        | erewrite bind_Done by (first [reflexivity | apply forEach_emit | tac]) ];
  cbv beta; norm_state.

(** ** Reclamation: [rsrcManager.freePending] *)

Section Reclaim.

Lemma freeTextures_run d :
  freeTextures d =
    Done tt (set_rsrc (set_textures [] (rsrc d))
               (set_trace (trace d ++ [EvLock; EvUnlock] ++
                           deleteCalls GlDeleteTextures (textures (rsrc d))) d)).
Proof.
  destruct d as [q rc [ms ss ts fs rs] pq cp c1 c2 m1 m2 bd ck cs ls sc po gn tr].
  unfold freeTextures, modifyRsrc. norm_state. do 4 run_step fail.
  destruct ts; cbn [deleteCalls when Nat.ltb Nat.leb length]; unfold mret, M_ret.
  - by rewrite <- !app_assoc.
  - run_step fail. unfold emit, modify. norm_state. by rewrite <- !app_assoc.
Qed.

Lemma freeFBOs_run d :
  freeFBOs d =
    Done tt (set_rsrc (set_fbos [] (rsrc d))
               (set_trace (trace d ++ [EvLock] ++
                           deleteCalls GlDeleteFramebuffers (fbos (rsrc d)) ++
                           [EvUnlock]) d)).
Proof.
  destruct d as [q rc [ms ss ts fs rs] pq cp c1 c2 m1 m2 bd ck cs ls sc po gn tr].
  unfold freeFBOs, modifyRsrc. norm_state. do 2 run_step fail.
  destruct fs; cbn [deleteCalls when Nat.ltb Nat.leb length]; unfold mret, M_ret.
  - run_step fail. run_step fail. unfold emit, modify. norm_state.
    by rewrite <- !app_assoc.
  - erewrite bind_Done; cycle 1.
    { run_step fail. reflexivity. }
    norm_state. run_step fail. unfold emit, modify. norm_state.
    by rewrite <- !app_assoc.
Qed.

Lemma freeRenderbuffers_run d :
  freeRenderbuffers d =
    Done tt (set_rsrc (set_renderbuffers [] (rsrc d))
               (set_trace (trace d ++ [EvLock] ++
                           deleteCalls GlDeleteRenderbuffers (renderbuffers (rsrc d)) ++
                           [EvUnlock]) d)).
Proof.
  destruct d as [q rc [ms ss ts fs rs] pq cp c1 c2 m1 m2 bd ck cs ls sc po gn tr].
  unfold freeRenderbuffers, modifyRsrc. norm_state. do 2 run_step fail.
  destruct rs; cbn [deleteCalls when Nat.ltb Nat.leb length]; unfold mret, M_ret.
  - run_step fail. run_step fail. unfold emit, modify. norm_state.
    by rewrite <- !app_assoc.
  - erewrite bind_Done; cycle 1.
    { run_step fail. reflexivity. }
    norm_state. run_step fail. unfold emit, modify. norm_state.
    by rewrite <- !app_assoc.
Qed.

Lemma freePending_run d :
  freePending d =
    Done tt (set_rsrc noRsrc (set_trace (trace d ++ freePendingTrace (rsrc d)) d)).
Proof.
  unfold freePending, modifyRsrc.
  destruct d as [q rc [ms ss ts fs rs] pq cp c1 c2 m1 m2 bd ck cs ls sc po gn tr].
  norm_state. do 7 run_step fail.
  run_step ltac:(apply freeTextures_run).
  run_step ltac:(apply freeFBOs_run).
  rewrite freeRenderbuffers_run. norm_state.
  unfold freePendingTrace, noRsrc. norm_state.
  f_equal. f_equal. rewrite <- !app_assoc. reflexivity.
Qed.

Lemma filter_map_sel {A} (sel : event → bool) (f : A → event) (l : list A)
    (t : list event) :
  (∀ x, sel (f x) = true) →
  List.filter sel (map f l ++ t) = map f l ++ List.filter sel t.
Proof.
  intros Hf. induction l as [|x l IH]; simpl; [done|].
  by rewrite Hf, IH.
Qed.




End Reclaim.

(** ** [Render]: the drain loop of [hookedRender] *)

Section Drain.

Context `{Native}.

Lemma runHook_sameQueue h : keeps sameQueue (runHook h).
Proof.
  destruct h; simpl; unfold rttBegin, rttEnd, rttMipmaps, genMipmap, derefCanvas;
    keeps_auto.
Qed.

Lemma performScissor_sameQueue rect : keeps sameQueue (performScissor rect).
Proof. unfold performScissor, derefCanvas. keeps_auto. Qed.

Lemma createRTT_sameQueue c cfg cf df sf :
  keeps sameQueue (createRTT c cfg cf df sf).
Proof.
  unfold createRTT, attachRTT, newRenderbuffer, newTexture, newNativeTexture, genName,
    updCanvas, derefCanvas, setLocals, signalComplete.
  keeps_auto.
Qed.

(** Only a [Render] closure receives from the queue. *)
Lemma exec_sameQueue fuel f : isRender f = false → keeps sameQueue (exec fuel f).
Proof.
  pose proof (freePending_keeps sameQueue). pose proof (queryYield_keeps sameQueue).
  pose proof (queryWait_keeps sameQueue). pose proof runHook_sameQueue.
  pose proof performScissor_sameQueue. pose proof createRTT_sameQueue.
  intros Hf. destruct f; try done; destruct fuel; simpl; unfold signalComplete;
    keeps_auto.
Qed.

(** With [i] counted up while the length counts down, the loop stops half
    way. *)
Lemma drain_half run fuel : ∀ i d d',
  (∀ f, f ∈ renderExec d → keeps sameQueue (run f)) →
  drain run fuel i d = Done tt d' →
  renderExec d' =
    drop (Z.to_nat ((Z.of_nat (length (renderExec d)) - i + 1) `div` 2))
      (renderExec d).
Proof.
  induction fuel as [|fuel IH]; intros i d d' Hrun; simpl; [done|].
  unfold mbind at 1, M_bind at 1; simpl.
  destruct (Z.ltb_spec i (Z.of_nat (length (renderExec d)))) as [Hlt|Hge].
  - destruct (renderExec d) as [|f rest] eqn:Eq; [done|].
    intros E. apply bind_Done_inv in E as (? & d1 & [= _ <-] & E).
    apply bind_Done_inv in E as (b & d2 & Ef & E).
    assert (Hq2 : renderExec d2 = rest).
    { apply (Hrun f) in Ef; [|left]. unfold sameQueue in Ef. rewrite Ef.
      by destruct d. }
    apply IH in E.
    + rewrite E, Hq2. simpl length in *.
      replace (Z.to_nat ((Z.of_nat (S (length rest)) - i + 1) `div` 2))
        with (S (Z.to_nat ((Z.of_nat (length rest) - (i + 1) + 1) `div` 2)));
        [done|].
      rewrite <- Z2Nat.inj_succ by (apply Z.div_pos; lia).
      f_equal.
      replace (Z.of_nat (S (length rest)) - i + 1)
        with ((Z.of_nat (length rest) - (i + 1) + 1) + 1 * 2) by lia.
      rewrite Z.div_add by done. lia.
    + rewrite Hq2. intros g Hg. apply Hrun. by right.
  - intros [= <-].
    assert ((Z.of_nat (length (renderExec d)) - i + 1) `div` 2 < 1)
      by (apply Z.div_lt_upper_bound; lia).
    replace (Z.to_nat _) with 0%nat by lia. done.
Qed.

Lemma div2_ceil (n : nat) :
  Z.to_nat ((Z.of_nat n - 0 + 1) `div` 2) = ((n + 1) / 2)%nat.
Proof.
  rewrite Z.sub_0_r. replace (Z.of_nat n + 1) with (Z.of_nat (n + 1)) by lia.
  change 2 with (Z.of_nat 2). rewrite <- (Nat2Z.inj_div (n + 1) 2). lia.
Qed.

Lemma exec_Render_S fuel pre post :
  exec (S fuel) (OpRender pre post) =
    (freePending ;;
     runHook pre ;;
     drain (exec fuel) (S fuel) 0 ;;
     emit GlFlush ;;
     queryWait (S fuel) ;;
     runHook post ;;
     d ← get;
     match rttCanvasPtr d with
     | Some _ => signalComplete ;; mret false
     | None => clockTick ;; signalComplete ;; mret true
     end).
Proof. reflexivity. Qed.

(** C1, what the code does: of [n] operations queued when the closure of
    [Render] runs (none of them a [Render] itself, none added meanwhile),
    the closure executes the first [(n + 1) / 2] and returns with the other
    [n / 2] still queued. *)
Theorem hookedRender_drains_half fuel pre post d b d' :
  (∀ f, f ∈ renderExec d → isRender f = false) →
  exec fuel (OpRender pre post) d = Done b d' →
  renderExec d' = drop ((length (renderExec d) + 1) / 2) (renderExec d).
Proof.
  intros Hq. destruct fuel as [|fuel]; [done|]. rewrite exec_Render_S.
  intros E.
  apply bind_Done_inv in E as (? & d1 & E1 & E).
  apply bind_Done_inv in E as (? & d2 & E2 & E).
  apply bind_Done_inv in E as (? & d3 & E3 & E).
  apply bind_Done_inv in E as (? & d4 & E4 & E).
  apply bind_Done_inv in E as (? & d5 & E5 & E).
  apply bind_Done_inv in E as (? & d6 & E6 & E).
  apply (freePending_keeps sameQueue) in E1. apply runHook_sameQueue in E2.
  injection E4 as <-. apply (queryWait_keeps sameQueue) in E5.
  apply runHook_sameQueue in E6.
  unfold sameQueue in *.
  assert (Hq2 : renderExec d2 = renderExec d) by congruence.
  destruct x1. apply drain_half in E3.
  2:{ intros f Hf. apply exec_sameQueue, Hq. by rewrite <- Hq2. }
  rewrite div2_ceil, Hq2 in E3.
  assert (renderExec d' = renderExec d6) as ->.
  { unfold mbind, M_bind, get, signalComplete, clockTick in E. simpl in E.
    destruct (rttCanvasPtr d6); injection E as _ <-; by destruct d6. }
  rewrite E6, E5. subst d4. rewrite <- E3. by destruct d3.
Qed.

End Drain.

(** With a clear and a depth clear queued, [Render] runs the clear, presents
    the frame, and leaves the depth clear in the queue. *)
Lemma hookedRender_drains_half_witness :
  ∃ d', @exec exampleNative 2 (OpRender HookNil HookNil) exampleQueued = Done true d' ∧
        List.filter isClear (trace d') = [GlClear COLOR_BUFFER_BIT] ∧
        renderExec d' = [clearB].
Proof.
  eexists. split; [vm_compute; reflexivity|]. split; [vm_compute; reflexivity|].
  refine (hookedRender_drains_half (H:=exampleNative) 2 HookNil HookNil exampleQueued
            true _ _ _).
  - intros f Hf.
    apply elem_of_cons in Hf as [->|Hf]; [done|].
    apply elem_of_cons in Hf as [->|Hf]; [done|].
    by apply elem_of_nil in Hf.
  - vm_compute; reflexivity.
Defined.

(** ** [Render] through a render-to-texture canvas *)

Section Presentation.

Context `{Native}.

(** C2, what the code does: the closure that [rttCanvas.Render] sends has
    no [pre] hook and a [post] hook that only generates mipmaps, so neither
    makes the canvas the active one. Run with no canvas active and nothing
    queued behind it, it ticks the clock last and returns [true]: a frame is
    presented. *)
Theorem rttRender_presents_frame fuel c d b d' :
  rttCanvasPtr d = None → renderExec d = [] →
  exec fuel (OpRender HookNil (HookMipmaps c)) d = Done b d' →
  b = true ∧ clock d' = S (clock d) ∧ last (trace d') = Some EvClockTick.
Proof.
  intros Hp Hq. destruct fuel as [|fuel]; [done|]. rewrite exec_Render_S.
  intros E.
  apply bind_Done_inv in E as (? & d1 & E1 & E).
  apply bind_Done_inv in E as (? & d2 & E2 & E).
  apply bind_Done_inv in E as (? & d3 & E3 & E).
  apply bind_Done_inv in E as (? & d4 & E4 & E).
  apply bind_Done_inv in E as (? & d5 & E5 & E).
  apply bind_Done_inv in E as (? & d6 & E6 & E).
  apply (freePending_keeps samePresentation) in E1 as (P1 & C1 & Q1).
  injection E2 as _ <-.
  assert (d3 = d1) as ->.
  { simpl in E3. unfold mbind, M_bind, get in E3. rewrite Q1, Hq in E3.
    simpl in E3. by injection E3 as <-. }
  injection E4 as _ <-.
  apply (queryWait_keeps samePresentation) in E5 as (P5 & C5 & Q5).
  apply (rttMipmaps_keeps samePresentation) in E6 as (P6 & C6 & Q6).
  assert (P : rttCanvasPtr d6 = None).
  { rewrite P6, P5. destruct d1; simpl in *. congruence. }
  assert (C : clock d6 = clock d).
  { rewrite C6, C5. destruct d1; simpl in *. congruence. }
  rewrite get_bind, P in E.
  unfold clockTick, signalComplete, emit, mbind, M_bind, modify in E.
  simpl in E. injection E as <- <-. rewrite <- C. destruct d6; simpl.
  split_and!; try done. by rewrite last_snoc.
Qed.

Lemma rttBegin_run c cv d :
  canvases d !! c = Some cv →
  rttBegin c d =
    Done tt (set_trace (trace d ++ [GlBindFramebuffer (fbo cv)])
               (set_rttCanvasPtr (Some c) d)).
Proof.
  intros Hc. unfold rttBegin.
  by rewrite (bind_Done _ _ _ _ _ (derefCanvas_run c cv d Hc)).
Qed.

Lemma rttEnd_run c cv d :
  canvases d !! c = Some cv →
  rttEnd c d =
    Done tt (set_trace (trace d ++ [GlBindFramebuffer 0]) (set_rttCanvasPtr None d)).
Proof.
  intros Hc. unfold rttEnd.
  by rewrite (bind_Done _ _ _ _ _ (derefCanvas_run c cv d Hc)).
Qed.

Lemma performScissor_run c cv rect d :
  rttCanvasPtr d = Some c → canvases d !! c = Some cv →
  performScissor rect d =
    Done tt (set_trace (trace d ++ [GsScissor (VBounds cv) rect]) d).
Proof.
  intros Hp Hc. unfold performScissor. rewrite get_bind, Hp.
  by rewrite (bind_Done _ _ _ _ _ (derefCanvas_run c cv d Hc)).
Qed.

(** A polling pass with nothing pending touches nothing but the count of
    passes. *)
Lemma queryYield_idle d :
  pending d = [] →
  ∃ d', queryYield d = Done 0 d' ∧ trace d' = trace d ∧ canvases d' = canvases d ∧
        rttCanvasPtr d' = rttCanvasPtr d ∧ renderExec d' = renderExec d.
Proof.
  intros Hp. unfold queryYield. rewrite get_bind.
  destruct (glArbOcclusionQuery d); simpl; [|by eexists].
  unfold mbind, M_bind, modify, get. simpl. rewrite Hp. simpl. rewrite Hp.
  eexists. split; [done|]. by destruct d.
Qed.

(** C3, what the code does: [ClearDepth] on a canvas whose texture count is
    zero does not look at the count. For a rectangle that is not empty it
    queues its closure, and the closure, once run, binds the canvas's
    framebuffer and clears the depth buffer. *)
Theorem rttClearDepth_after_release c cv rect depth fuel d :
  canvases d !! c = Some cv → count cv = 0 → Empty rect = false → pending d = [] →
  let f := OpClearDepth rect depth (HookRttBegin c) (HookRttEnd c) in
  rttClearDepth c rect depth d = Done tt (set_renderExec (renderExec d ++ [f]) d) ∧
  ∃ d', exec fuel f d = Done false d' ∧
        trace d' = trace d ++
          [GlBindFramebuffer (fbo cv); GsBegin; GsDepthWrite;
           GsScissor (VBounds cv) rect; GsClearDepth depth;
           GlClear DEPTH_BUFFER_BIT; GlBindFramebuffer 0].
Proof.
  intros Hc _ He Hp f. split.
  { unfold rttClearDepth, hookedClearDepth. by rewrite He. }
  assert (E : exec fuel f = exec 0 f) by (by destruct fuel). rewrite E. clear E.
  simpl.
  erewrite bind_Done by (by apply rttBegin_run).
  do 2 (erewrite bind_Done by reflexivity).
  erewrite bind_Done by (by eapply performScissor_run).
  do 2 (erewrite bind_Done by reflexivity).
  match goal with |- context [queryYield ≫= _] =>
    match goal with |- ∃ d', (_ ≫= _) ?d0 = _ ∧ _ =>
      destruct (queryYield_idle d0) as (d1 & E & Ht & Hcs & Hptr & _); [done|]
    end end.
  rewrite (bind_Done _ _ _ _ _ E).
  assert (Hc1 : canvases d1 !! c = Some cv) by (rewrite Hcs; exact Hc).
  erewrite bind_Done by (by eapply rttEnd_run).
  eexists. split; [reflexivity|]. simpl. rewrite Ht. simpl.
  by rewrite <- !app_assoc.
Qed.

End Presentation.

(** [exampleCanvasDevice] and [exampleReleasedDevice] are what they are said
    to be. *)
Example exampleCanvasDevice_created :
  @RenderToTexture exampleNative 1 exampleConfig exampleDevice =
    Done (Some 0%nat) exampleCanvasDevice.
Proof. vm_compute. reflexivity. Qed.

Example exampleReleasedDevice_released :
  freeTexture 0 exampleCanvasDevice = Done tt exampleReleasedDevice ∧
  canvases exampleReleasedDevice !! 0%nat = Some exampleReleasedCanvas ∧
  count exampleReleasedCanvas = 0 ∧
  fbos (rsrc exampleReleasedDevice) = [fbo exampleReleasedCanvas].
Proof. vm_compute. done. Qed.

(** A [Render] through canvas 0 of [exampleCanvasDevice]: the first tick of
    the clock, and [true]. *)
Lemma rttRender_presents_frame_witness :
  ∃ d', @exec exampleNative 1 (OpRender HookNil (HookMipmaps 0)) exampleCanvasDevice =
          Done true d' ∧
        clock d' = 1%nat ∧ last (trace d') = Some EvClockTick.
Proof.
  eexists. split; [vm_compute; reflexivity|].
  refine (proj2 (rttRender_presents_frame (H:=exampleNative) 1 0 exampleCanvasDevice
                   true _ _ _ _)); vm_compute; reflexivity.
Defined.

(** Canvas 0 of [exampleReleasedDevice] has lost its last texture and its
    framebuffer is listed for deletion; a depth clear through it is queued
    all the same and, run, binds that framebuffer and clears. *)
Lemma rttClearDepth_after_release_witness :
  let f := OpClearDepth (Rect 0 0 100 100) f64_one (HookRttBegin 0) (HookRttEnd 0) in
  rttClearDepth 0 (Rect 0 0 100 100) f64_one exampleReleasedDevice =
    Done tt (set_renderExec (renderExec exampleReleasedDevice ++ [f])
               exampleReleasedDevice) ∧
  ∃ d', @exec exampleNative 0 f exampleReleasedDevice = Done false d' ∧
        trace d' = trace exampleReleasedDevice ++
          [GlBindFramebuffer (fbo exampleReleasedCanvas); GsBegin; GsDepthWrite;
           GsScissor (VBounds exampleReleasedCanvas) (Rect 0 0 100 100);
           GsClearDepth f64_one; GlClear DEPTH_BUFFER_BIT; GlBindFramebuffer 0].
Proof.
  apply (rttClearDepth_after_release (H:=exampleNative) 0 exampleReleasedCanvas
           (Rect 0 0 100 100) f64_one 0 exampleReleasedDevice);
    vm_compute; reflexivity.
Defined.

(** ** Total runs: building a canvas *)

Section Safe.
Context `{Native} (c : canvasRef).

Lemma rttFrame_refl d : rttFrame d d.
Proof. done. Qed.

Lemma rttFrame_trans d1 d2 d3 : rttFrame d1 d2 → rttFrame d2 d3 → rttFrame d1 d3.
Proof. unfold rttFrame. intros (?&?&?) (?&?&?). repeat split; congruence. Qed.

Lemma safe_ret {A} (a : A) : safe c (mret a).
Proof. intros d Hd. by exists a, d. Qed.

Lemma safe_bind {A B} (m : M A) (k : A → M B) :
  safe c m → (∀ a, safe c (k a)) → safe c (m ≫= k).
Proof.
  intros Hm Hk d Hd. destruct (Hm d Hd) as (a & d1 & E1 & Hd1 & R1).
  destruct (Hk a d1 Hd1) as (b & d2 & E2 & Hd2 & R2).
  exists b, d2. split; [by rewrite (bind_Done _ _ _ _ _ E1)|].
  split; [done|]. by eapply rttFrame_trans.
Qed.

Lemma safe_get_bind {B} (k : device → M B) :
  (∀ d, allocated c d → ∃ b d', k d d = Done b d' ∧ allocated c d' ∧ rttFrame d d') →
  safe c (get ≫= k).
Proof. intros Hk d Hd. apply (Hk d Hd). Qed.

Lemma safe_when b m : safe c m → safe c (when b m).
Proof. intros Hm. destruct b; [done|apply safe_ret]. Qed.

Lemma safe_emit e : isClear e = false → safe c (emit e).
Proof.
  intros He d Hd. eexists tt, _. split; [done|].
  split; [by destruct d|]. repeat split; try by destruct d.
  destruct d; simpl. rewrite List.filter_app. simpl. rewrite He. by rewrite app_nil_r.
Qed.

Lemma safe_forEach_emit {A} (l : list A) (f : A → event) :
  (∀ x, isClear (f x) = false) → safe c (forEach l (λ x, emit (f x))).
Proof.
  intros Hf. induction l as [|x l IH]; simpl; [apply safe_ret|].
  apply safe_bind; [by apply safe_emit|done].
Qed.

Lemma safe_derefCanvas : safe c (derefCanvas c).
Proof.
  intros d Hd. unfold derefCanvas, mbind, M_bind, get.
  destruct (lookup_lt_is_Some_2 _ _ Hd) as [cv E]. simpl. rewrite E.
  by exists cv, d.
Qed.

Lemma safe_updCanvas f : safe c (updCanvas c f).
Proof.
  unfold updCanvas. apply safe_bind; [apply safe_derefCanvas|]. intros cv d Hd.
  eexists tt, _. split; [done|].
  unfold allocated in *. split; [|by destruct d].
  destruct d; simpl in *. by rewrite length_insert.
Qed.

Lemma safe_genName : safe c genName.
Proof. intros d Hd. eexists _, _. split; [done|]. by destruct d. Qed.

Lemma safe_setLocals f : safe c (setLocals c f).
Proof. intros d Hd. eexists _, _. split; [done|]. by destruct d. Qed.

End Safe.

Ltac safe_step :=
  lazymatch goal with
  | |- safe _ (mret _) => apply safe_ret
  | |- safe _ (emit _) => apply safe_emit; reflexivity
  | |- safe _ (forEach _ _) => apply safe_forEach_emit; reflexivity
  | |- safe _ (derefCanvas _) => apply safe_derefCanvas
  | |- safe _ (updCanvas _ _) => apply safe_updCanvas
  | |- safe _ genName => apply safe_genName
  | |- safe _ (setLocals _ _) => apply safe_setLocals
  | |- safe _ (when _ _) => apply safe_when
  | |- safe _ (_ ≫= _) => apply safe_bind; [|intros ?]
  | |- safe _ (if ?b then _ else _) => destruct b
  | |- safe _ (match ?x with _ => _ end) => destruct x
  end.

Ltac safe_auto := repeat first [ assumption | safe_step ].

Section RTT.
Context `{Native}.

Lemma attachRTT_safe c cfg cf df sf : safe c (attachRTT c cfg cf df sf).
Proof.
  unfold attachRTT, newRenderbuffer, newTexture, newNativeTexture. safe_auto.
Qed.

Lemma finishTexture_safe c s native : safe c (finishTexture c s native).
Proof. unfold finishTexture. safe_auto. Qed.

Lemma noop_safe c : safe c (noop c).
Proof. unfold noop. safe_auto. Qed.

Lemma rttClear_empty_safe c bg : safe c (rttClear c (Rect 0 0 0 0) bg).
Proof. pose proof (noop_safe c). unfold rttClear, hookedClear.
  change (Empty (Rect 0 0 0 0)) with true. cbv iota. safe_auto.
Qed.

Lemma rttClearDepth_empty_safe c depth : safe c (rttClearDepth c (Rect 0 0 0 0) depth).
Proof. unfold rttClearDepth, hookedClearDepth.
  change (Empty (Rect 0 0 0 0)) with true. cbv iota. safe_auto.
Qed.

Lemma rttClearStencil_empty_safe c stencil :
  safe c (rttClearStencil c (Rect 0 0 0 0) stencil).
Proof. unfold rttClearStencil, hookedClearStencil.
  change (Empty (Rect 0 0 0 0)) with true. cbv iota. safe_auto.
Qed.


Lemma createRTT_run c cfg cf df sf d :
  allocated c d →
  ∃ d', createRTT c cfg cf df sf d = Done false d' ∧
        allocated c d' ∧
        renderExec d' = renderExec d ∧
        renderComplete d' = S (renderComplete d) ∧
        List.filter isClear (trace d') = List.filter isClear (trace d) ∧
        fbError (default noLocals (locals d' !! c)) =
          FramebufferStatus (glCheckFramebufferStatus cfg).
Proof.
  intros Hd.
  destruct (attachRTT_safe c cfg cf df sf d Hd) as ([] & d1 & E & Hd1 & Hq & Hc & Hf).
  eexists. split.
  { unfold createRTT. rewrite (bind_Done _ _ _ _ _ E). reflexivity. }
  rewrite <- Hq, <- Hc, <- Hf. clear E Hq Hc Hf Hd.
  destruct d1; unfold allocated in *; simpl in *.
  repeat split; try done.
  - rewrite !List.filter_app. simpl. by rewrite !app_nil_r.
  - by rewrite lookup_insert_eq.
Qed.

Lemma awaitComplete_single fuel f d d1 n :
  renderComplete d = 0%nat →
  renderExec d = [f] →
  exec fuel f (set_renderExec [] d) = Done false d1 →
  renderComplete d1 = S n →
  awaitComplete (S fuel) d = Done tt (set_renderComplete n d1).
Proof.
  intros Hc Hq E Hn. simpl. unfold mbind at 1, M_bind at 1. simpl.
  rewrite Hc, Hq. unfold mbind at 1, M_bind at 1. simpl.
  unfold mbind at 1, M_bind at 1. rewrite E. simpl.
  unfold mbind at 1, M_bind at 1. simpl.
  destruct fuel; simpl; unfold mbind, M_bind; simpl; by rewrite Hn.
Qed.


Lemma not_refused d cfg :
  ¬ refused d cfg →
  glArbFramebufferObject d = true ∧
  negb (ColorFormat cfg =? ZeroTexFormat) && isNil (rttTexFormats d !! ColorFormat cfg) = false ∧
  negb (DepthFormat cfg =? ZeroDSFormat) && isNil (rttDSFormats d !! DepthFormat cfg) = false ∧
  negb (StencilFormat cfg =? ZeroDSFormat) && isNil (rttDSFormats d !! StencilFormat cfg) = false.
Proof.
  unfold refused, colorMissing, depthMissing, stencilMissing. intros Hn.
  split; [destruct (glArbFramebufferObject d); tauto|].
  repeat split.
  - destruct (Z.eqb_spec (ColorFormat cfg) ZeroTexFormat); [done|].
    destruct (rttTexFormats d !! ColorFormat cfg); [done|tauto].
  - destruct (Z.eqb_spec (DepthFormat cfg) ZeroDSFormat); [done|].
    destruct (rttDSFormats d !! DepthFormat cfg); [done|tauto].
  - destruct (Z.eqb_spec (StencilFormat cfg) ZeroDSFormat); [done|].
    destruct (rttDSFormats d !! StencilFormat cfg); [done|tauto].
Qed.

Lemma is_refused d cfg (m : M (option nat)) :
  refused d cfg →
  (if negb (glArbFramebufferObject d) then mret None : M (option nat) else
   if negb (ColorFormat cfg =? ZeroTexFormat) && isNil (rttTexFormats d !! ColorFormat cfg)
   then mret None else
   if negb (DepthFormat cfg =? ZeroDSFormat) && isNil (rttDSFormats d !! DepthFormat cfg)
   then mret None else
   if negb (StencilFormat cfg =? ZeroDSFormat) && isNil (rttDSFormats d !! StencilFormat cfg)
   then mret None else m) d = Done None d.
Proof.
  unfold refused, colorMissing, depthMissing, stencilMissing. intros Hr.
  destruct (glArbFramebufferObject d); [|done].
  destruct (Z.eqb_spec (ColorFormat cfg) ZeroTexFormat) as [E1|E1];
    destruct (rttTexFormats d !! ColorFormat cfg) as [cf|]; try done;
    destruct (Z.eqb_spec (DepthFormat cfg) ZeroDSFormat) as [E2|E2];
    destruct (rttDSFormats d !! DepthFormat cfg) as [df|] eqn:Ed; try done;
    destruct (Z.eqb_spec (StencilFormat cfg) ZeroDSFormat) as [E3|E3];
    destruct (rttDSFormats d !! StencilFormat cfg) as [sf|] eqn:Es; try done;
    exfalso; destruct Hr as [?|[[? ?]|[[? ?]|[? ?]]]]; congruence.
Qed.

Lemma RenderToTexture_built fuel cfg d :
  quiescent d → Valid cfg = true → ¬ refused d cfg →
  match FramebufferStatus (glCheckFramebufferStatus cfg) with
  | Some e =>
      if bool_decide (e = FramebufferUnsupported)
      then ∃ d', RenderToTexture (S fuel) cfg d = Done None d'
      else RenderToTexture (S fuel) cfg d = Panic "glc: framebuffer is incomplete"
  | None =>
      ∃ d', RenderToTexture (S fuel) cfg d = Done (Some (length (canvases d))) d' ∧
            renderExec d' = [] ∧
            List.filter isClear (trace d') = List.filter isClear (trace d)
  end.
Proof.
  intros [Hq Hc] Hv Hr. apply not_refused in Hr as (Hf & H1 & H2 & H3).
  unfold RenderToTexture. rewrite Hv. change (negb true) with false. cbv iota.
  rewrite get_bind, Hf. change (negb true) with false. cbv iota zeta.
  rewrite H1, H2, H3.
  set (c := length (canvases d)).
  set (cv := {| cfg := cfg; VBounds := Bounds cfg; fbo := 0; rbColor := 0; rbDepth := 0;
         rbStencil := 0; rbDepthAndStencil := 0; count := 0; readers := 0%nat |}).
  set (d1 := set_canvases (canvases d ++ [cv]) d).
  assert (E1 : newCanvas cfg d = Done c d1) by done.
  rewrite (bind_Done _ _ _ _ _ E1).
  set (f := OpCreateRTT c cfg _ _ _).
  set (d2 := set_renderExec (renderExec d1 ++ [f]) d1).
  assert (E2 : send f d1 = Done tt d2) by done.
  rewrite (bind_Done _ _ _ _ _ E2).
  assert (Ha : allocated c (set_renderExec [] d2)).
  { unfold allocated, c. destruct d; simpl. rewrite length_app. simpl. lia. }
  destruct (createRTT_run c cfg (default 0 (rttTexFormats d !! ColorFormat cfg))
              (default 0 (rttDSFormats d !! DepthFormat cfg))
              (default 0 (rttDSFormats d !! StencilFormat cfg)) _ Ha)
    as (d3 & E3 & Ha3 & Hq3 & Hc3 & Hf3 & He3).
  assert (E4 : awaitComplete (S fuel) d2 = Done tt (set_renderComplete 0 d3)).
  { apply awaitComplete_single with (f := f).
    - by destruct d.
    - destruct d; simpl in *. by rewrite Hq.
    - destruct fuel; exact E3.
    - rewrite Hc3. destruct d; simpl in *. by rewrite Hc. }
  rewrite (bind_Done _ _ _ _ _ E4). rewrite get_bind.
  replace (locals (set_renderComplete 0%nat d3)) with (locals d3) by (by destruct d3).
  cbv zeta. rewrite He3.
  destruct (FramebufferStatus (glCheckFramebufferStatus cfg)) as [e|].
  { destruct (bool_decide (e = FramebufferUnsupported)); [by eexists|done]. }
  assert (Ha4 : allocated c (set_renderComplete 0 d3)) by (by destruct d3).
  set (d4 := set_renderComplete 0 d3) in *.
  destruct (finishTexture_safe c SlotColor (nTexColor (default noLocals (locals d3 !! c)))
              d4 Ha4) as ([] & d5 & E5 & Ha5 & R5).
  rewrite (bind_Done _ _ _ _ _ E5).
  destruct (finishTexture_safe c SlotDepth (nTexDepth (default noLocals (locals d3 !! c)))
              d5 Ha5) as ([] & d6 & E6 & Ha6 & R6).
  rewrite (bind_Done _ _ _ _ _ E6).
  destruct (finishTexture_safe c SlotStencil (nTexStencil (default noLocals (locals d3 !! c)))
              d6 Ha6) as ([] & d7 & E7 & Ha7 & R7).
  rewrite (bind_Done _ _ _ _ _ E7).
  destruct (rttClear_empty_safe c
              {| R := f32_zero; G := f32_zero; B := f32_zero; A := f32_one |} d7 Ha7)
    as ([] & d8 & E8 & Ha8 & R8).
  rewrite (bind_Done _ _ _ _ _ E8).
  destruct (rttClearDepth_empty_safe c f64_one d8 Ha8) as ([] & d9 & E9 & Ha9 & R9).
  rewrite (bind_Done _ _ _ _ _ E9).
  destruct (rttClearStencil_empty_safe c 0 d9 Ha9) as ([] & d10 & E10 & Ha10 & R10).
  rewrite (bind_Done _ _ _ _ _ E10).
  exists d10. split; [done|].
  pose proof (rttFrame_trans _ _ _ R5 (rttFrame_trans _ _ _ R6 (rttFrame_trans _ _ _ R7
    (rttFrame_trans _ _ _ R8 (rttFrame_trans _ _ _ R9 R10))))) as (Rq & _ & Rf).
  rewrite Rq, Rf. subst d4 d2 d1. destruct d3, d; simpl in *. split; congruence.
Qed.

Lemma refused_dec d cfg : refused d cfg ∨ ¬ refused d cfg.
Proof.
  unfold refused, colorMissing, depthMissing, stencilMissing.
  destruct (glArbFramebufferObject d); [|by left; left].
  destruct (decide (ColorFormat cfg = ZeroTexFormat));
    destruct (rttTexFormats d !! ColorFormat cfg);
    destruct (decide (DepthFormat cfg = ZeroDSFormat));
    destruct (rttDSFormats d !! DepthFormat cfg) eqn:?;
    destruct (decide (StencilFormat cfg = ZeroDSFormat));
    destruct (rttDSFormats d !! StencilFormat cfg) eqn:?;
    first [ by (left; tauto) | right; intros [?|[[??]|[[??]|[??]]]]; congruence ].
Qed.

Lemma RenderToTexture_refused fuel cfg d :
  Valid cfg = true → refused d cfg → RenderToTexture fuel cfg d = Done None d.
Proof.
  intros Hv Hr. unfold RenderToTexture. rewrite Hv. change (negb true) with false.
  cbv iota. rewrite get_bind. cbv zeta. by apply is_refused.
Qed.

Lemma RenderToTexture_no_fuel cfg d :
  quiescent d → Valid cfg = true → ¬ refused d cfg →
  RenderToTexture 0 cfg d = OutOfFuel.
Proof.
  intros [Hq Hc] Hv Hr. apply not_refused in Hr as (Hf & H1 & H2 & H3).
  unfold RenderToTexture. rewrite Hv. change (negb true) with false. cbv iota.
  rewrite get_bind, Hf. change (negb true) with false. cbv iota zeta.
  rewrite H1, H2, H3.
  unfold mbind, M_bind, newCanvas, send, get, modify. simpl.
  destruct d; simpl in *. by rewrite Hc.
Qed.

(** C10: for a configuration that fails [cfg.Valid()], [RenderToTexture]
    panics, whatever the device and its capabilities; in particular it does
    not return nil, so a nil return is only seen for configurations that pass
    the check. *)
Theorem RenderToTexture_invalid_panics fuel cfg d :
  Valid cfg = false →
  RenderToTexture fuel cfg d = Panic "RenderToTexture(): Configuration is invalid!" ∧
  ∀ d', RenderToTexture fuel cfg d ≠ Done None d'.
Proof.
  intros Hv. assert (E : RenderToTexture fuel cfg d =
    Panic "RenderToTexture(): Configuration is invalid!").
  { unfold RenderToTexture. by rewrite Hv. }
  split; [done|]. intros d'. by rewrite E.
Qed.


(** C4, what the code does: when [RenderToTexture] returns a canvas, no
    clear has been queued and no native clear has been issued: the three
    initial clears are given the empty rectangle [image.Rect(0, 0, 0, 0)],
    for which [hookedClear] and its siblings return at once. *)
Theorem RenderToTexture_clears_nothing fuel cfg d c d' :
  quiescent d →
  RenderToTexture fuel cfg d = Done (Some c) d' →
  renderExec d' = [] ∧
  List.filter isClear (trace d') = List.filter isClear (trace d).
Proof.
  intros Hq E.
  destruct (Valid cfg) eqn:Hv.
  2:{ unfold RenderToTexture in E. by rewrite Hv in E. }
  destruct (refused_dec d cfg) as [Hr|Hr].
  { by rewrite (RenderToTexture_refused _ _ _ Hv Hr) in E. }
  destruct fuel as [|fuel].
  { by rewrite (RenderToTexture_no_fuel _ _ Hq Hv Hr) in E. }
  pose proof (RenderToTexture_built fuel cfg d Hq Hv Hr) as Hb.
  destruct (FramebufferStatus _) as [e|].
  - case_bool_decide.
    + destruct Hb as [d1 Hb]. by rewrite Hb in E.
    + by rewrite Hb in E.
  - destruct Hb as (d1 & Hb & ? & ?). rewrite Hb in E. by injection E as _ <-.
Qed.

End RTT.


Example RenderToTexture_without_FBO :
  @RenderToTexture exampleNative 1 exampleConfig exampleNoFBO = Done None exampleNoFBO.
Proof. vm_compute. reflexivity. Qed.

(** The configuration with empty bounds. *)
Lemma RenderToTexture_invalid_panics_witness :
  @RenderToTexture exampleNative 1 invalidConfig exampleDevice =
    Panic "RenderToTexture(): Configuration is invalid!".
Proof.
  apply (RenderToTexture_invalid_panics (H:=exampleNative) 1 invalidConfig exampleDevice).
  vm_compute. reflexivity.
Defined.

(** The canvas of [exampleCanvasDevice]: nothing queued, nothing cleared. *)
Lemma RenderToTexture_clears_nothing_witness :
  renderExec exampleCanvasDevice = [] ∧
  List.filter isClear (trace exampleCanvasDevice) = [].
Proof.
  apply (RenderToTexture_clears_nothing (H:=exampleNative) 1 exampleConfig
           exampleDevice 0 exampleCanvasDevice).
  - split; reflexivity.
  - vm_compute. reflexivity.
Defined.

(** ** Occlusion queries: [queryYield] and [queryWait] *)

Section Queries.

Context `{Native}.

Lemma pollFrame_refl d : pollFrame d d.
Proof. by repeat split. Qed.

Lemma pollFrame_trans d1 d2 d3 : pollFrame d1 d2 → pollFrame d2 d3 → pollFrame d1 d3.
Proof.
  intros (?&?&?&?&?) (?&?&?&?&?). repeat split; try congruence. eauto.
Qed.

Lemma pollFrame_emit e d :
  isGosched e = false → pollFrame d (set_trace (trace d ++ [e]) d).
Proof.
  intros He. repeat split; try done. unfold goscheds. destruct d; simpl.
  rewrite List.filter_app. simpl. rewrite He. by rewrite app_nil_r.
Qed.

Lemma pollQueries_run pass queries : ∀ toRemove d,
  (∀ q, q ∈ queries → is_Some (sampleCount d !! qo q)) →
  ∃ d', pollQueries pass queries toRemove d =
          Done (toRemove ++ List.filter (λ q, glQueryAvailable pass (qid q)) queries) d' ∧
        pollFrame d d'.
Proof.
  induction queries as [|q queries IH]; intros toRemove d Hok; simpl.
  { exists d. rewrite app_nil_r. split; [done|apply pollFrame_refl]. }
  erewrite bind_Done by reflexivity.
  set (d1 := set_trace _ d).
  assert (F1 : pollFrame d d1) by (by apply pollFrame_emit).
  destruct (glQueryAvailable pass (qid q)) eqn:Ea.
  - do 2 (erewrite bind_Done by reflexivity). rewrite get_bind.
    match goal with |- context [sampleCount ?d2 !! qo q] => set (d3 := d2) end.
    destruct (Hok q) as [sc Hsc]; [left|].
    assert (sampleCount d3 !! qo q = Some sc) as -> by done.
    erewrite bind_Done by reflexivity.
    match goal with |- ∃ d', pollQueries _ _ _ ?d4 = _ ∧ _ => set (d5 := d4) end.
    assert (F5 : pollFrame d d5).
    { repeat split; try done.
      - unfold goscheds. destruct d; simpl. rewrite !List.filter_app. simpl.
        by rewrite !app_nil_r.
      - intros o Ho. destruct d; simpl in *.
        destruct (decide (qo q = o)) as [->|]; [by rewrite lookup_insert_eq|].
        by rewrite lookup_insert_ne. }
    destruct (IH (toRemove ++ [q]) d5) as (d' & E & F).
    { intros q' Hq'. apply F5, Hok. by right. }
    exists d'. rewrite E, <- app_assoc. split; [done|]. by eapply pollFrame_trans.
  - destruct (IH toRemove d1) as (d' & E & F).
    { intros q' Hq'. apply F1, Hok. by right. }
    exists d'. split; [done|]. by eapply pollFrame_trans.
Qed.


Lemma findIdxFrom_bound query queries : ∀ i idx,
  (idx < i + length queries)%nat →
  (findIdxFrom i idx query queries < i + length queries)%nat.
Proof.
  induction queries as [|q queries IH]; intros i idx Hidx; simpl in *; [lia|].
  replace (i + S (length queries))%nat with (S i + length queries)%nat by lia.
  apply IH. case_bool_decide; lia.
Qed.

Lemma findIdx_bound query queries :
  queries ≠ [] → (findIdx query queries < length queries)%nat.
Proof.
  intros Hne. unfold findIdx.
  apply (findIdxFrom_bound query queries 0 0). destruct queries; [done|simpl; lia].
Qed.

Lemma removeQuery_run query d :
  pending d ≠ [] →
  removeQuery query d =
    Done tt (set_pending (take (findIdx query (pending d)) (pending d) ++
                          drop (S (findIdx query (pending d))) (pending d)) d).
Proof.
  intros Hne. unfold removeQuery. rewrite get_bind. cbv zeta.
  pose proof (findIdx_bound query _ Hne).
  rewrite bool_decide_false by lia. done.
Qed.

Lemma removeQueries_run toRemove : ∀ d,
  (length toRemove ≤ length (pending d))%nat →
  ∃ d', forEach toRemove removeQuery d = Done tt d' ∧
        removeFrame d d' ∧
        length (pending d') = (length (pending d) - length toRemove)%nat.
Proof.
  induction toRemove as [|q toRemove IH]; intros d Hlen; simpl in *.
  { exists d. repeat split; try done. lia. }
  assert (Hne : pending d ≠ []) by (destruct (pending d); [simpl in *; lia|done]).
  pose proof (findIdx_bound q _ Hne) as Hidx.
  rewrite (bind_Done _ _ _ _ _ (removeQuery_run q d Hne)).
  set (d1 := set_pending _ d).
  assert (Hl1 : length (pending d1) = (length (pending d) - 1)%nat).
  { destruct d; simpl in *. rewrite length_app, length_take, length_drop. lia. }
  destruct (IH d1) as (d' & E & (?&?&?&?&Hsub) & Hl); [lia|].
  exists d'. split; [done|]. split; [|lia].
  unfold removeFrame, goscheds in *.
  split_and!; try (by subst d1; destruct d; simpl in *; congruence).
  etrans; [apply Hsub|]. destruct d; simpl.
  rewrite <- delete_take_drop. apply sublist_subseteq, sublist_delete.
Qed.

Lemma filter_length_le {A} (f : A → bool) (l : list A) :
  (length (List.filter f l) ≤ length l)%nat.
Proof. induction l as [|x l IH]; simpl; [done|]. destruct (f x); simpl; lia. Qed.

Lemma filter_all {A} (f : A → bool) (l : list A) :
  (∀ x, x ∈ l → f x = true) → List.filter f l = l.
Proof.
  induction l as [|x l IH]; intros Hf; simpl; [done|].
  rewrite Hf by left. f_equal. apply IH. intros y Hy. apply Hf. by right.
Qed.

(** One polling pass of [queryYield] on a device that has the capability. *)
Lemma queryYield_run d :
  glArbOcclusionQuery d = true → objectsOk d →
  ∃ d', queryYield d = Done (Z.of_nat (length (pending d'))) d' ∧
        polls d' = S (polls d) ∧
        glArbOcclusionQuery d' = true ∧
        goscheds d' = goscheds d ∧
        objectsOk d' ∧
        pending d' ⊆ pending d ∧
        ((∀ q, q ∈ pending d → glQueryAvailable (polls d) (qid q) = true) →
         pending d' = []).
Proof.
  intros Hcap Hok. unfold queryYield. rewrite get_bind, Hcap. cbv [negb].
  erewrite bind_Done by reflexivity.
  set (d1 := set_polls _ d).
  destruct (pollQueries_run (polls d) (pending d) [] d1) as (d2 & E2 & P1 & P2 & P3 & P4 & P5).
  { intros q Hq. destruct d; apply Hok, Hq. }
  rewrite (bind_Done _ _ _ _ _ E2). simpl app.
  destruct (removeQueries_run
              (List.filter (λ q, glQueryAvailable (polls d) (qid q)) (pending d)) d2)
    as (d3 & E3 & (R1 & R2 & R3 & R4 & R5) & Hl).
  { rewrite P1. destruct d; simpl. apply filter_length_le. }
  rewrite (bind_Done _ _ _ _ _ E3). rewrite get_bind.
  exists d3. split; [done|].
  assert (Hsub : pending d3 ⊆ pending d).
  { etrans; [apply R5|]. rewrite P1. by destruct d. }
  split_and!.
  - rewrite R1, P2. by destruct d.
  - rewrite R2, P3. by destruct d.
  - rewrite R3, P4. by destruct d.
  - intros q Hq. rewrite R4. apply P5. destruct d; simpl in *. apply Hok, Hsub, Hq.
  - done.
  - intros Hall. apply nil_length_inv. rewrite Hl, P1.
    rewrite filter_all; [destruct d; simpl; lia|].
    intros q Hq. apply Hall. by destruct d.
Qed.


Lemma yieldsBelow_step i :
  0 ≤ i →
  yieldsBelow (i + 1) =
    yieldsBelow i + (if negb (i =? 0) && (Z.rem i 16 =? 0) then 1 else 0).
Proof.
  intros Hi. unfold yieldsBelow.
  destruct (Z.leb_spec (i + 1) 0); [lia|].
  destruct (Z.eqb_spec i 0) as [->|Hne]; [done|].
  destruct (Z.leb_spec i 0); [lia|]. simpl.
  rewrite Z.rem_mod_nonneg by lia.
  replace (i + 1 - 1) with i by lia.
  destruct (Z.eqb_spec (i `mod` 16) 0) as [E|E]; Z.div_mod_to_equations; lia.
Qed.

Lemma wrap_int_small z : - 2 ^ 63 ≤ z < 2 ^ 63 → wrap_int z = z.
Proof. intros Hz. unfold wrap_int. rewrite Z.mod_small; lia. Qed.

Lemma queryWaitLoop_run n : ∀ fuel i d,
  (n < fuel)%nat →
  glArbOcclusionQuery d = true → objectsOk d →
  0 ≤ i → i + Z.of_nat n < 2 ^ 63 →
  settledWithin n d →
  ∃ m d', (m ≤ n)%nat ∧
    queryWaitLoop fuel i d = Done tt d' ∧
    pending d' = [] ∧
    polls d' = (polls d + S m)%nat ∧
    Z.of_nat (goscheds d') =
      Z.of_nat (goscheds d) + yieldsBelow (i + Z.of_nat m) - yieldsBelow i.
Proof.
  induction n as [|n IH]; intros fuel i d Hfuel Hcap Hok Hi Hbound Hset;
    (destruct fuel as [|fuel]; [lia|]); simpl queryWaitLoop;
    destruct (queryYield_run d Hcap Hok) as (d1 & E1 & Hp1 & Hc1 & Hg1 & Hok1 & Hsub1 & Hall1);
    rewrite (bind_Done _ _ _ _ _ E1).
  - rewrite Hall1.
    2:{ intros q Hq. apply (Hset q Hq). lia. }
    exists 0%nat, d1. simpl. rewrite Hall1 by (intros q Hq; apply (Hset q Hq); lia).
    split_and!; try done; try lia.
    rewrite Hg1. change (Z.of_nat 0) with 0. rewrite Z.add_0_r. lia.
  - destruct (pending d1) as [|q1 rest] eqn:Ep.
    { exists 0%nat, d1. simpl. split_and!; try done; try lia.
      rewrite Hg1. change (Z.of_nat 0) with 0. rewrite Z.add_0_r. lia. }
    replace (0 <? Z.of_nat (length (q1 :: rest))) with true
      by (symmetry; apply Z.ltb_lt; simpl length; lia).
    set (cond := negb (i =? 0) && (Z.rem i 16 =? 0)).
    set (d2 := if cond then set_trace (trace d1 ++ [EvGosched]) d1 else d1).
    assert (E2 : when cond (emit EvGosched) d1 = Done tt d2) by (by unfold d2; destruct cond).
    rewrite (bind_Done _ _ _ _ _ E2).
    rewrite wrap_int_small by lia.
    assert (Hd2 : pending d2 = pending d1 ∧ polls d2 = polls d1 ∧
                  glArbOcclusionQuery d2 = glArbOcclusionQuery d1 ∧
                  sampleCount d2 = sampleCount d1 ∧
                  Z.of_nat (goscheds d2) =
                    Z.of_nat (goscheds d1) + (if cond then 1 else 0)).
    { unfold d2, goscheds. destruct cond; [|split_and!; try done; lia].
      destruct d1; simpl. rewrite List.filter_app, length_app. simpl.
      split_and!; try done; lia. }
    destruct Hd2 as (P2 & Q2 & C2 & S2 & G2).
    destruct (IH fuel (i + 1) d2) as (m & d' & Hm & E & Hp & Hq & Hg).
    + lia.
    + congruence.
    + intros q Hq. rewrite P2 in Hq. rewrite S2. by apply Hok1.
    + lia.
    + lia.
    + intros q Hq pass Hpass. rewrite P2 in Hq. apply (Hset q).
      * apply Hsub1. by rewrite <- Ep.
      * lia.
    + exists (S m), d'. split_and!; try done; try lia.
      rewrite Hg, G2, Hg1. rewrite (yieldsBelow_step i Hi). fold cond.
      replace (i + Z.of_nat (S m)) with (i + 1 + Z.of_nat m) by lia. lia.
Qed.

Lemma yieldsBelow_nat (m : nat) : yieldsBelow (Z.of_nat m) = Z.of_nat ((m - 1) / 16).
Proof.
  unfold yieldsBelow. destruct m as [|m]; [done|].
  destruct (Z.leb_spec (Z.of_nat (S m)) 0); [lia|].
  replace (S m - 1)%nat with m by lia.
  rewrite Nat2Z.inj_div. f_equal. lia.
Qed.

(** C8, as amended: [queryWait] does nothing without the occlusion-query
    capability. With it, when every pending query is reported available from
    the [n]-th pass on, [queryWait] returns after [m + 1] polling passes for
    some [m <= n], the first [m] of which found queries pending, with no
    query left pending; and it has called [runtime.Gosched] in those of its
    [m] iterations whose index is a positive multiple of 16, that is
    [(m - 1) / 16] times: once in every 16 iterations from the seventeenth
    on, and not in the first 16. *)
Theorem queryWait_polls_until_resolved n fuel d :
  (glArbOcclusionQuery d = false → queryWait fuel d = Done tt d) ∧
  (glArbOcclusionQuery d = true → objectsOk d → settledWithin n d →
   (n < fuel)%nat → Z.of_nat n < 2 ^ 63 →
   ∃ m d', (m ≤ n)%nat ∧
     queryWait fuel d = Done tt d' ∧
     pending d' = [] ∧
     polls d' = (polls d + S m)%nat ∧
     goscheds d' = (goscheds d + (m - 1) / 16)%nat).
Proof.
  split.
  - intros Hcap. unfold queryWait. by rewrite get_bind, Hcap.
  - intros Hcap Hok Hset Hfuel Hn.
    destruct (queryWaitLoop_run n fuel 0 d) as (m & d' & Hm & E & Hp & Hq & Hg);
      try done; try lia.
    exists m, d'. split_and!; try done.
    + unfold queryWait. by rewrite get_bind, Hcap.
    + rewrite Z.add_0_l, yieldsBelow_nat in Hg. change (yieldsBelow 0) with 0 in Hg. lia.
Qed.


End Queries.

(** C8, the claim as stated fails: with one query that the driver reports
    available at the seventeenth pass, [queryWait] polls sixteen times with
    the query pending and does not call [runtime.Gosched] once. *)
Lemma queryWait_sixteen_polls_no_yield :
  ∃ d', @queryWait exampleNative 17 exampleQuerying = Done tt d' ∧
        trace d' = replicate 16 (GlGetQueryAvailable 7 false) ++
                   [GlGetQueryAvailable 7 true; GlGetQueryResult 7 1; GlDeleteQueries 7] ∧
        goscheds d' = 0%nat.
Proof.
  eexists. split; [vm_compute; reflexivity|]. split; vm_compute; reflexivity.
Qed.

(** The same wait, by the theorem: at most sixteen iterations, none pending
    at the end. *)
Lemma queryWait_polls_until_resolved_witness :
  ∃ m d', (m ≤ 16)%nat ∧
    @queryWait exampleNative 17 exampleQuerying = Done tt d' ∧
    pending d' = [] ∧
    polls d' = (polls exampleQuerying + S m)%nat ∧
    goscheds d' = (goscheds exampleQuerying + (m - 1) / 16)%nat.
Proof.
  apply (proj2 (queryWait_polls_until_resolved (H:=exampleNative) 16 17 exampleQuerying)).
  - reflexivity.
  - intros q Hq. apply list_elem_of_singleton in Hq as ->. by eexists.
  - intros q Hq pass Hpass. apply bool_decide_eq_true_2. simpl in Hpass. lia.
  - lia.
  - reflexivity.
Defined.

(** ** [util.PreDraw] *)

Section PreDrawFacts.

Import Util.

Context `{Device}.

Lemma loadMeshes_ok ms :
  forallb meshOk ms = true → ∃ ms', loadMeshes ms = (None, ms').
Proof.
  induction ms as [|m ms IH]; simpl; [by eexists|].
  intros [Hm Hms]%andb_prop. destruct (IH Hms) as [ms' E]. rewrite E.
  unfold meshOk, needsLoad in Hm.
  destruct (MeshLoaded m && negb (HasChanged m)); [by eexists|].
  simpl in Hm. destruct (length (Vertices m) =? 0)%nat; [done|by eexists].
Qed.

Lemma loadMeshes_no_vertices ms1 m ms2 :
  forallb meshOk ms1 = true → needsLoad m = true → Vertices m = [] →
  ∃ ms', loadMeshes (ms1 ++ m :: ms2) = (Some ErrNoVertices, ms').
Proof.
  intros H1 Hm Hv. induction ms1 as [|m1 ms1 IH]; simpl.
  - unfold needsLoad in Hm. apply negb_true_iff in Hm. rewrite Hm, Hv. by eexists.
  - simpl in H1. apply andb_prop in H1 as [Hm1 H1]. destruct (IH H1) as [ms' E].
    rewrite E. unfold meshOk, needsLoad in Hm1.
    destruct (MeshLoaded m1 && negb (HasChanged m1)); [by eexists|].
    simpl in Hm1. destruct (length (Vertices m1) =? 0)%nat; [done|by eexists].
Qed.

Lemma loadTextures_ok ts :
  forallb textureOk ts = true → ∃ ts', loadTextures ts = (None, ts').
Proof.
  induction ts as [|t ts IH]; simpl; [by eexists|].
  intros [Ht Hts]%andb_prop. destruct (IH Hts) as [ts' E]. rewrite E.
  unfold textureOk in Ht.
  destruct (TextureLoaded t); [by eexists|].
  simpl in Ht. destruct (isNil (Source t)); [done|by eexists].
Qed.

Lemma loadTextures_nil_source ts1 t ts2 :
  forallb textureOk ts1 = true → TextureLoaded t = false → Source t = None →
  ∃ ts', loadTextures (ts1 ++ t :: ts2) = (Some ErrNilSource, ts').
Proof.
  intros H1 Ht Hs. induction ts1 as [|t1 ts1 IH]; simpl.
  - rewrite Ht, Hs. by eexists.
  - simpl in H1. apply andb_prop in H1 as [Ht1 H1]. destruct (IH H1) as [ts' E].
    rewrite E. unfold textureOk in Ht1.
    destruct (TextureLoaded t1); [by eexists|].
    simpl in Ht1. destruct (isNil (Source t1)); [done|by eexists].
Qed.

(** C6, as amended: for a rectangle that is not empty, every error that
    [PreDraw] returns comes with [draw = false], and the error names the
    first defect in the order of the checks: a nil State gives [ErrNilState];
    else a nil Shader gives [ErrNilShader]; else a shader with a compiler
    error gives [ErrShaderError]; else an object without meshes gives
    [ErrNoMeshes]; else the first mesh that has to be loaded (not loaded yet,
    or changed) and has no vertices gives [ErrNoVertices]; else the first
    texture that is not loaded and has a nil Source gives [ErrNilSource];
    else a compiler error of the shader just loaded gives [ErrShaderError].
    Meshes that are loaded and unchanged and textures that are loaded are
    not examined. *)
Theorem PreDraw_names_first_defect rect o :
  Empty rect = false →
  (∀ draw e o', PreDraw rect o = (draw, Some e, o') → draw = false) ∧
  (ObjState o = None → PreDraw rect o = (false, Some ErrNilState, o)) ∧
  (ObjState o ≠ None → ObjShader o = None →
     PreDraw rect o = (false, Some ErrNilShader, o)) ∧
  (∀ shader, ObjState o ≠ None → ObjShader o = Some shader →
     (Error shader ≠ "" → PreDraw rect o = (false, Some ErrShaderError, o)) ∧
     (Error shader = "" → Meshes o = [] →
        PreDraw rect o = (false, Some ErrNoMeshes, o)) ∧
     (Error shader = "" → ∀ ms1 m ms2,
        Meshes o = ms1 ++ m :: ms2 → forallb meshOk ms1 = true →
        needsLoad m = true → Vertices m = [] →
        ∃ o', PreDraw rect o = (false, Some ErrNoVertices, o')) ∧
     (Error shader = "" → Meshes o ≠ [] → forallb meshOk (Meshes o) = true →
        ∀ ts1 t ts2,
        Textures o = ts1 ++ t :: ts2 → forallb textureOk ts1 = true →
        TextureLoaded t = false → Source t = None →
        ∃ o', PreDraw rect o = (false, Some ErrNilSource, o')) ∧
     (Error shader = "" → Meshes o ≠ [] → forallb meshOk (Meshes o) = true →
        forallb textureOk (Textures o) = true →
        Error (loadedShader shader) ≠ "" →
        ∃ o', PreDraw rect o = (false, Some ErrShaderError, o'))).
Proof.
  intros He. unfold PreDraw. rewrite He. split_and!.
  - intros draw e o'. destruct (ObjState o); [|by intros [= <- _ _]].
    destruct (ObjShader o); [|by intros [= <- _ _]].
    destruct (_ <? _)%nat; [by intros [= <- _ _]|].
    destruct (_ =? _)%nat; [by intros [= <- _ _]|].
    destruct (loadMeshes _) as [[?|] ?]; [by intros [= <- _ _]|].
    destruct (loadTextures _) as [[?|] ?]; [by intros [= <- _ _]|].
    destruct (_ <? _)%nat; [by intros [= <- _ _]|done].
  - by intros ->.
  - intros Hs ->. by destruct (ObjState o).
  - intros shader Hs ->. destruct (ObjState o) as [st|]; [clear Hs|done].
    assert (Hlen : ∀ s : string, s ≠ "" → (0 <? String.length s)%nat = true)
      by (by intros [|??]).
    split_and!.
    + intros Herr. by rewrite Hlen.
    + intros -> ->. done.
    + intros -> ms1 m ms2 -> H1 Hm Hv. simpl.
      replace (length (ms1 ++ m :: ms2) =? 0)%nat with false
        by (rewrite length_app; simpl; symmetry; apply Nat.eqb_neq; lia).
      destruct (loadMeshes_no_vertices ms1 m ms2 H1 Hm Hv) as [ms' ->]. by eexists.
    + intros -> Hne Hok ts1 t ts2 -> H1 Ht Hsrc. simpl.
      replace (length (Meshes o) =? 0)%nat with false
        by (destruct (Meshes o); [done|reflexivity]).
      destruct (loadMeshes_ok _ Hok) as [ms' ->].
      destruct (loadTextures_nil_source ts1 t ts2 H1 Ht Hsrc) as [ts' ->]. by eexists.
    + intros E0 Hne Hok Htok Herr. rewrite E0. simpl.
      replace (length (Meshes o) =? 0)%nat with false
        by (destruct (Meshes o); [done|reflexivity]).
      destruct (loadMeshes_ok _ Hok) as [ms' ->].
      destruct (loadTextures_ok _ Htok) as [ts' ->].
      fold (loadedShader shader). rewrite (Hlen _ Herr). by eexists.
Qed.

End PreDrawFacts.

(** C6, the claim as stated fails: an object drawn before has a mesh with
    zero vertices and a texture with a nil Source, both loaded; [PreDraw]
    reports no error and says to draw it. *)
Lemma PreDraw_draws_loaded_object :
  (∃ m, m ∈ Util.Meshes Util.loadedObject ∧ Util.Vertices m = []) ∧
  (∃ t, t ∈ Util.Textures Util.loadedObject ∧ Util.Source t = None) ∧
  @Util.PreDraw Util.idleDevice (Rect 0 0 100 100) Util.loadedObject =
    (true, None, Util.loadedObject).
Proof.
  split_and!.
  - eexists. split; [left|reflexivity].
  - eexists. split; [left|reflexivity].
  - reflexivity.
Qed.

(** A mesh still to be loaded, without vertices. *)
Lemma PreDraw_names_first_defect_witness :
  ∃ o', @Util.PreDraw Util.idleDevice (Rect 0 0 100 100) Util.emptyMeshObject =
          (false, Some Util.ErrNoVertices, o').
Proof.
  destruct (PreDraw_names_first_defect (H:=Util.idleDevice) (Rect 0 0 100 100)
              Util.emptyMeshObject eq_refl) as (_ & _ & _ & Hshader).
  destruct (Hshader Util.okShader ltac:(discriminate) eq_refl) as (_ & _ & Hmesh & _).
  exact (Hmesh eq_refl [] _ [] eq_refl eq_refl eq_refl eq_refl).
Defined.

(** ** The window: [useProps] *)

Section WindowFacts.

Import Window.

(** C9: when the requested fullscreen value differs from the last one
    applied, a pass of [useProps], forced or not, records the new fullscreen
    value as applied, signals the rebuild and returns: the one thing it adds
    to the calls is the rebuild signal, so no call for the title, size,
    position, cursor position, visibility, minimized state, vsync or cursor
    mode is made, and no other last-applied property, nor the size saved for
    leaving fullscreen, nor the cursor baseline, changes. *)
Theorem useProps_fullscreen_toggle_only_rebuilds p force w :
  Fullscreen p ≠ Fullscreen (last w) →
  let w' := useProps p force w in
  calls w' = calls w ++ [RebuildSignal] ∧
  last w' = SetFullscreen (Fullscreen p) (last w) ∧
  beforeFullscreen w' = beforeFullscreen w ∧
  lastCursorX w' = lastCursorX w ∧ lastCursorY w' = lastCursorY w.
Proof.
  intros Hf. unfold useProps. cbv zeta.
  replace (negb (eqb (Fullscreen (props (set_props p w))) (Fullscreen (last (set_props p w)))))
    with true.
  2:{ simpl. symmetry. apply negb_true_iff, eqb_false_iff. exact Hf. }
  simpl. by destruct (negb (Fullscreen p)).
Qed.

End WindowFacts.

(** Going fullscreen with another title, vsync and cursor mode requested in
    the same pass: the rebuild signal and nothing else. *)
Lemma useProps_fullscreen_toggle_only_rebuilds_witness :
  let w' := Window.useProps Window.fullscreenRequest false Window.exampleWindow in
  Window.calls w' = [Window.RebuildSignal] ∧
  Window.last w' = Window.SetFullscreen true Window.exampleProps ∧
  Window.beforeFullscreen w' = (640, 480) ∧
  Window.lastCursorX w' = 0 ∧ Window.lastCursorY w' = 0.
Proof.
  apply (useProps_fullscreen_toggle_only_rebuilds Window.fullscreenRequest false
           Window.exampleWindow).
  discriminate.
Defined.

(** Without the toggle the same request is applied: title, vsync, cursor
    mode. *)
Example useProps_applies_without_toggle :
  List.filter Window.isNative
    (Window.calls (Window.useProps
       (Window.SetFullscreen false Window.fullscreenRequest) false Window.exampleWindow)) =
  [Window.WinSetTitle "engine"; Window.GlfwSwapInterval 0; Window.WinSetInputMode true].
Proof. vm_compute. reflexivity. Qed.

(** * Further properties of the device thread *)

#[export] Instance steady_frame : Frame steady.
Proof.
  split; try done. split; [done|].
  intros x y z [? ?] [? ?]. unfold steady. split; congruence.
Qed.

#[export] Instance undisturbed_frame : Frame undisturbed.
Proof.
  split; try done. split; [done|].
  intros x y z (?&?&?&?&?) (?&?&?&?&?). unfold undisturbed. split_and!; congruence.
Qed.

#[export] Instance sameRsrc_preorder : PreOrder sameRsrc.
Proof. split; [done|]. intros x y z ? ?. unfold sameRsrc in *. congruence. Qed.

#[export] Instance sameFrameEvents_preorder : PreOrder sameFrameEvents.
Proof. split; [done|]. intros x y z ? ?. unfold sameFrameEvents in *. congruence. Qed.

(** ** One polling pass: [queryYield] *)

Section QueryYield.
Context `{Native}.

Lemma findIdxFrom_spec query queries : ∀ i idx,
  ((query ∉ queries) ∧ findIdxFrom i idx query queries = idx) ∨
  (∃ k, findIdxFrom i idx query queries = (i + k)%nat ∧
        queries !! k = Some query).
Proof.
  induction queries as [|q queries IH]; intros i idx; simpl.
  { left. split; [apply not_elem_of_nil|done]. }
  destruct (IH (S i) (if bool_decide (q = query) then i else idx)) as [[Hn E]|(k & E & Hk)].
  - case_bool_decide as Hq.
    + right. exists 0%nat. subst q. split; [rewrite E; lia|done].
    + left. split; [|done]. by intros [->|?]%elem_of_cons.
  - right. exists (S k). split; [rewrite E; lia|done].
Qed.

Lemma findIdx_lookup query queries :
  query ∈ queries → queries !! findIdx query queries = Some query.
Proof.
  intros Hin. unfold findIdx.
  destruct (findIdxFrom_spec query queries 0 0) as [[Hn _]|(k & E & Hk)]; [done|].
  by rewrite E.
Qed.

Lemma filter_none_negb {A} (f : A → bool) (l : list A) :
  List.filter f l = [] → List.filter (λ x, negb (f x)) l = l.
Proof.
  induction l as [|x l IH]; simpl; [done|].
  destruct (f x); [done|]. intros E. simpl. by rewrite IH.
Qed.

Lemma filter_delete_selected {A} (f : A → bool) (l : list A) i x :
  l !! i = Some x → f x = true →
  List.filter (λ y, negb (f y)) (take i l ++ drop (S i) l) =
    List.filter (λ y, negb (f y)) l.
Proof.
  intros Hi Hx. rewrite <- (take_drop_middle l i x Hi) at 3.
  rewrite !List.filter_app. simpl. by rewrite Hx.
Qed.

Lemma filter_delete_perm {A} (f : A → bool) (l : list A) i x :
  l !! i = Some x → f x = true →
  List.filter f l ≡ₚ x :: List.filter f (take i l ++ drop (S i) l).
Proof.
  intros Hi Hx. rewrite <- (take_drop_middle l i x Hi) at 1.
  rewrite !List.filter_app. simpl. rewrite Hx.
  by rewrite Permutation_middle.
Qed.

Lemma filter_In_elem_of {A} (f : A → bool) (l : list A) x :
  x ∈ List.filter f l → x ∈ l ∧ f x = true.
Proof.
  intros Hx. apply list_elem_of_In, List.filter_In in Hx as [? ?].
  split; [by apply list_elem_of_In|done].
Qed.

(** The second loop of [queryYield]: removing, one by one, the queries that
    were found available leaves the others, in their order. *)
Lemma removeQueries_exact (sel : pendingQuery → bool) toRemove : ∀ d,
  toRemove ≡ₚ List.filter sel (pending d) →
  forEach toRemove removeQuery d =
    Done tt (set_pending (List.filter (λ q, negb (sel q)) (pending d)) d).
Proof.
  induction toRemove as [|q toRemove IH]; intros d Hperm; simpl.
  { symmetry in Hperm. apply Permutation_nil_r in Hperm.
    rewrite filter_none_negb by done. by destruct d. }
  assert (Hq : q ∈ List.filter sel (pending d)) by (rewrite <- Hperm; left).
  apply filter_In_elem_of in Hq as [Hin Hsel].
  assert (Hne : pending d ≠ []) by (intros E; rewrite E in Hin; by apply elem_of_nil in Hin).
  rewrite (bind_Done _ _ _ _ _ (removeQuery_run q d Hne)).
  pose proof (findIdx_lookup q _ Hin) as Hidx.
  rewrite IH.
  - f_equal. destruct d; simpl in *.
    by rewrite (filter_delete_selected sel _ _ _ Hidx Hsel).
  - destruct d; simpl in *.
    rewrite (filter_delete_perm sel _ _ _ Hidx Hsel) in Hperm.
    by apply Permutation_cons_inv in Hperm.
Qed.

Lemma pollQueries_counts pass queries : ∀ toRemove d r d',
  pollQueries pass queries toRemove d = Done r d' →
  sampleCount d' =
    storeResults (List.filter (availableAt pass) queries) (sampleCount d).
Proof.
  induction queries as [|q queries IH]; intros toRemove d r d'; simpl.
  { by intros [= _ <-]. }
  intros E. apply bind_Done_inv in E as ([] & d1 & [= <-] & E).
  unfold availableAt at 1. destruct (glQueryAvailable pass (qid q)).
  - apply bind_Done_inv in E as ([] & d2 & [= <-] & E).
    apply bind_Done_inv in E as ([] & d3 & [= <-] & E).
    rewrite get_bind in E.
    apply bind_Done_inv in E as ([] & d4 & E4 & E).
    apply IH in E. rewrite E. simpl. f_equal.
    destruct (sampleCount _ !! qo q); [|done].
    injection E4 as <-. by destruct d.
  - apply IH in E. rewrite E. by destruct d.
Qed.

(** One polling pass on a device that has the capability. *)
Lemma queryYield_exact d :
  glArbOcclusionQuery d = true → objectsOk d →
  let avail := List.filter (availableAt (polls d)) (pending d) in
  let rest := List.filter (λ q, negb (availableAt (polls d) q)) (pending d) in
  ∃ d', queryYield d = Done (Z.of_nat (length rest)) d' ∧
        pending d' = rest ∧
        sampleCount d' = storeResults avail (sampleCount d) ∧
        polls d' = S (polls d).
Proof.
  intros Hcap Hok avail rest. unfold queryYield. rewrite get_bind, Hcap. cbv [negb].
  erewrite bind_Done by reflexivity.
  set (d1 := set_polls _ d).
  destruct (pollQueries_run (polls d) (pending d) [] d1) as (d2 & E2 & P1 & P2 & P3 & P4 & P5).
  { intros q Hq. destruct d; apply Hok, Hq. }
  pose proof (pollQueries_counts _ _ _ _ _ _ E2) as Hsc.
  rewrite (bind_Done _ _ _ _ _ E2). simpl app.
  assert (E3 := removeQueries_exact (availableAt (polls d))
                  (List.filter (availableAt (polls d)) (pending d)) d2).
  rewrite (bind_Done _ _ _ _ _ (E3 ltac:(rewrite P1; by destruct d))).
  rewrite get_bind.
  assert (Hp : pending d2 = pending d) by (rewrite P1; by destruct d).
  rewrite Hp. fold rest.
  eexists. split; [reflexivity|]. split_and!.
  - by destruct d2.
  - replace (sampleCount (set_pending rest d2)) with (sampleCount d2) by (by destruct d2).
    rewrite Hsc. by destruct d.
  - replace (polls (set_pending rest d2)) with (polls d2) by (by destruct d2).
    rewrite P2. by destruct d.
Qed.

Lemma queryYield_keeps_rsrc : keeps sameRsrc queryYield.
Proof.
  assert (∀ pass queries toRemove, keeps sameRsrc (pollQueries pass queries toRemove)).
  { intros pass queries. induction queries as [|q queries IH]; intros toRemove; simpl;
      keeps_auto. }
  unfold queryYield, removeQuery. keeps_auto.
Qed.

(** X1: without the occlusion-query capability [queryYield] returns 0 and
    touches nothing. With it, one pass returns the number of queries still
    pending; the pending list is then the queries that the driver did not
    report available, in their order; the sample counts hold the results of
    the available ones, stored in the order of the list; and the queue, the
    completion signals, the clock, the active canvas and the lists of the
    resource manager are as before. *)
Theorem queryYield_removes_available d :
  (glArbOcclusionQuery d = false → queryYield d = Done 0 d) ∧
  (glArbOcclusionQuery d = true → objectsOk d →
   ∃ d', queryYield d = Done (Z.of_nat (length (pending d'))) d' ∧
         pending d' =
           List.filter (λ q, negb (availableAt (polls d) q)) (pending d) ∧
         sampleCount d' =
           storeResults (List.filter (availableAt (polls d)) (pending d))
             (sampleCount d) ∧
         polls d' = S (polls d) ∧ undisturbed d d' ∧ rsrc d' = rsrc d).
Proof.
  split.
  - intros Hcap. unfold queryYield. by rewrite get_bind, Hcap.
  - intros Hcap Hok. destruct (queryYield_exact d Hcap Hok) as (d' & E & Hp & Hs & Hn).
    exists d'. split_and!; try done.
    + by rewrite Hp.
    + by apply (queryYield_keeps undisturbed) in E.
    + by apply queryYield_keeps_rsrc in E.
Qed.

End QueryYield.

(** At its seventeenth pass the example driver reports the query of
    [exampleQuerying] available: the pass removes it and stores its
    result. *)
Lemma queryYield_removes_available_witness :
  ∃ d', @queryYield exampleNative exampleSettled =
          Done (Z.of_nat (length (pending d'))) d' ∧
        pending d' =
          List.filter (λ q, negb (@availableAt exampleNative (polls exampleSettled) q))
            (pending exampleSettled) ∧
        sampleCount d' =
          @storeResults exampleNative
            (List.filter (@availableAt exampleNative (polls exampleSettled))
               (pending exampleSettled))
            (sampleCount exampleSettled) ∧
        polls d' = S (polls exampleSettled) ∧ undisturbed exampleSettled d' ∧
        rsrc d' = rsrc exampleSettled.
Proof.
  apply (proj2 (queryYield_removes_available (H:=exampleNative) exampleSettled)).
  - reflexivity.
  - intros q Hq. apply list_elem_of_singleton in Hq as ->. by eexists.
Defined.

Example queryYield_at_seventeenth_pass :
  ∃ d', @queryYield exampleNative exampleSettled = Done 0 d' ∧ pending d' = [] ∧
        sampleCount d' = {[ 0%nat := 1 ]}.
Proof. eexists. split_and!; vm_compute; reflexivity. Qed.

(** ** The verdict of the closure of [Render] *)

Section Verdict.
Context `{Native}.

Lemma runHook_keeps_steady h : keeps steady (runHook h).
Proof.
  destruct h; simpl; unfold rttBegin, rttEnd, rttMipmaps, genMipmap, derefCanvas;
    keeps_auto.
Qed.

Lemma performScissor_keeps (R : device → device → Prop) `{!Frame R} rect :
  keeps R (performScissor rect).
Proof. unfold performScissor, derefCanvas. keeps_auto. Qed.

Lemma createRTT_keeps_steady c cfg cf df sf : keeps steady (createRTT c cfg cf df sf).
Proof.
  unfold createRTT, attachRTT, newRenderbuffer, newTexture, newNativeTexture, genName,
    updCanvas, derefCanvas, setLocals, signalComplete.
  keeps_auto.
Qed.

Lemma exec_keeps_steady fuel f : isRender f = false → keeps steady (exec fuel f).
Proof.
  pose proof (freePending_keeps steady). pose proof (queryYield_keeps steady).
  pose proof (queryWait_keeps steady). pose proof runHook_keeps_steady.
  pose proof (performScissor_keeps steady). pose proof createRTT_keeps_steady.
  intros Hf. destruct f; try done; destruct fuel; simpl; unfold signalComplete;
    keeps_auto.
Qed.

Lemma drain_keeps_clock run fuel : ∀ i d d',
  (∀ f, f ∈ renderExec d → keeps steady (run f)) →
  drain run fuel i d = Done tt d' →
  clock d' = clock d.
Proof.
  induction fuel as [|fuel IH]; intros i d d' Hrun; simpl; [done|].
  unfold mbind at 1, M_bind at 1; simpl.
  destruct (i <? Z.of_nat (length (renderExec d))); [|by intros [= <-]].
  destruct (renderExec d) as [|f rest] eqn:Eq; [done|].
  intros E. apply bind_Done_inv in E as (? & d1 & [= _ <-] & E).
  apply bind_Done_inv in E as (b & d2 & Ef & E).
  apply (Hrun f) in Ef as [Hq Hc]; [|left].
  apply IH in E.
  - rewrite E, Hc. by destruct d.
  - rewrite Hq. intros g Hg. apply Hrun. right. by destruct d.
Qed.

(** The end of the closure of [Render]: the test of [r.rttCanvas]. *)
Lemma Render_tail d b d' :
  (d0 ← get;
   match rttCanvasPtr d0 with
   | Some _ => signalComplete ;; mret false
   | None => clockTick ;; signalComplete ;; mret true
   end) d = Done b d' →
  rttCanvasPtr d' = rttCanvasPtr d ∧
  renderExec d' = renderExec d ∧
  b = isNil (rttCanvasPtr d) ∧
  clock d' = (if b then S (clock d) else clock d) ∧
  (b = true → last (trace d') = Some EvClockTick).
Proof.
  rewrite get_bind.
  destruct (rttCanvasPtr d) eqn:Hp; intros [= <- <-]; destruct d; simpl in *;
    split_and!; try done.
  intros _. by rewrite last_snoc.
Qed.

(** X2: the closure that [hookedRender] sends, run with no other [Render]
    queued behind it, returns [true] exactly when [r.rttCanvas] is nil once
    it has run; the frame clock is ticked once when it returns [true], and
    the tick is then the last thing it does, and not at all when it returns
    [false]. *)
Theorem hookedRender_verdict fuel pre post d b d' :
  (∀ f, f ∈ renderExec d → isRender f = false) →
  exec fuel (OpRender pre post) d = Done b d' →
  (b = true ↔ rttCanvasPtr d' = None) ∧
  clock d' = (if b then S (clock d) else clock d) ∧
  (b = true → last (trace d') = Some EvClockTick).
Proof.
  intros Hq. destruct fuel as [|fuel]; [done|]. rewrite exec_Render_S.
  intros E.
  apply bind_Done_inv in E as (? & d1 & E1 & E).
  apply bind_Done_inv in E as (? & d2 & E2 & E).
  apply bind_Done_inv in E as ([] & d3 & E3 & E).
  apply bind_Done_inv in E as (? & d4 & E4 & E).
  apply bind_Done_inv in E as (? & d5 & E5 & E).
  apply bind_Done_inv in E as (? & d6 & E6 & E).
  apply (freePending_keeps steady) in E1 as [Q1 C1].
  apply runHook_keeps_steady in E2 as [Q2 C2].
  apply drain_keeps_clock in E3.
  2:{ intros f Hf. apply exec_keeps_steady, Hq. by rewrite <- Q1, <- Q2. }
  injection E4 as _ <-.
  apply (queryWait_keeps steady) in E5 as [Q5 C5].
  apply runHook_keeps_steady in E6 as [Q6 C6].
  apply Render_tail in E as (P & _ & Hb & C & L).
  assert (Hc : clock d6 = clock d).
  { rewrite C6, C5. replace (clock (set_trace (trace d3 ++ [GlFlush]) d3)) with (clock d3)
      by (by destruct d3). congruence. }
  rewrite Hc in C. split_and!; try done.
  rewrite P, Hb. by destruct (rttCanvasPtr d6).
Qed.

End Verdict.

(** The closure of [Render] on [exampleQueued]: [true], no canvas active,
    one tick. *)
Lemma hookedRender_verdict_witness :
  (true = true ↔ rttCanvasPtr examplePresented = None) ∧
  clock examplePresented = S (clock exampleQueued) ∧
  (true = true → last (trace examplePresented) = Some EvClockTick).
Proof.
  apply (hookedRender_verdict (H:=exampleNative) 2 HookNil HookNil exampleQueued
           true examplePresented).
  - intros f Hf.
    apply elem_of_cons in Hf as [->|Hf]; [done|].
    apply elem_of_cons in Hf as [->|Hf]; [done|].
    by apply elem_of_nil in Hf.
  - vm_compute; reflexivity.
Defined.

(** ** The closures of the methods leave no canvas active *)

Section Dead.
Context `{Native}.

Lemma rttEnd_nil c d a d' : rttEnd c d = Done a d' → rttCanvasPtr d' = None.
Proof.
  unfold rttEnd. intros E.
  apply bind_Done_inv in E as (? & d1 & E1 & E).
  apply bind_Done_inv in E as (? & d2 & [= _ <-] & [= _ <-]). by destruct d1.
Qed.

Lemma signalComplete_ptr d a d' :
  signalComplete d = Done a d' → rttCanvasPtr d' = rttCanvasPtr d.
Proof. intros [= _ <-]. by destruct d. Qed.

Lemma createRTT_keeps_presentation c cfg cf df sf :
  keeps samePresentation (createRTT c cfg cf df sf).
Proof.
  unfold createRTT, attachRTT, newRenderbuffer, newTexture, newNativeTexture, genName,
    updCanvas, derefCanvas, setLocals, signalComplete.
  keeps_auto.
Qed.

(** A closure sent by a method other than [Render] leaves no canvas
    active. *)
Lemma exec_method_nil fuel f d b d' :
  isRender f = false → sentByMethods f = true → rttCanvasPtr d = None →
  exec fuel f d = Done b d' → rttCanvasPtr d' = None.
Proof.
  pose proof (freePending_keeps samePresentation).
  pose proof (queryYield_keeps samePresentation).
  pose proof (queryWait_keeps samePresentation).
  pose proof (performScissor_keeps samePresentation).
  pose proof createRTT_keeps_presentation.
  intros Hr Hs Hp E.
  assert (Hkeeps : keeps samePresentation (exec fuel f) → rttCanvasPtr d' = None).
  { intros K. apply K in E as (-> & _). exact Hp. }
  destruct f as [rect bg pre post|rect depth pre post|rect stencil pre post|pre post|
                 |pre post|]; try done;
    try (destruct pre, post; try done);
    try (apply Hkeeps; destruct fuel; simpl; unfold signalComplete; keeps_auto; fail).
  all: clear Hkeeps; destruct fuel; simpl in E;
    repeat (apply bind_Done_inv in E as (? & ? & ? & E));
    injection E as _ <-;
    repeat match goal with
    | X : rttEnd _ _ = Done _ _ |- _ => apply rttEnd_nil in X
    | X : signalComplete _ = Done _ _ |- _ => apply signalComplete_ptr in X
    end; congruence.
Qed.

Lemma drain_methods run fuel : ∀ i d d',
  methodsOnly d →
  (∀ f d b d', methodsOnly d → sentByMethods f = true → run f d = Done b d' →
     methodsOnly d') →
  drain run fuel i d = Done tt d' → methodsOnly d'.
Proof.
  induction fuel as [|fuel IH]; intros i d d' Hd Hrun; simpl; [done|].
  unfold mbind at 1, M_bind at 1; simpl.
  destruct (i <? Z.of_nat (length (renderExec d))); [|by intros [= <-]].
  destruct (renderExec d) as [|f rest] eqn:Eq; [done|].
  intros E. apply bind_Done_inv in E as (? & d1 & [= _ <-] & E).
  apply bind_Done_inv in E as (b & d2 & Ef & E).
  destruct Hd as [Hp Hq]. rewrite Eq in Hq. apply Forall_cons in Hq as [Hf Hrest].
  apply Hrun in Ef; [|by split; destruct d|done].
  by apply IH in E.
Qed.

Lemma exec_methods fuel : ∀ f d b d',
  methodsOnly d → sentByMethods f = true →
  exec fuel f d = Done b d' →
  methodsOnly d' ∧ (isRender f = true → b = true).
Proof.
  induction fuel as [|fuel IH]; intros f d b d' [Hp Hq] Hs E;
    destruct (isRender f) eqn:Hr.
  - by destruct f.
  - split; [|done]. split; [by eapply exec_method_nil|].
    apply exec_sameQueue in E; [|done]. by rewrite E.
  - destruct f as [| | | | |pre post|]; try done. rewrite exec_Render_S in E.
    assert (pre = HookNil) as -> by (by destruct pre).
    apply bind_Done_inv in E as (? & d1 & E1 & E).
    apply bind_Done_inv in E as (? & d2 & [= _ <-] & E).
    apply bind_Done_inv in E as ([] & d3 & E3 & E).
    apply bind_Done_inv in E as (? & d4 & [= _ <-] & E).
    apply bind_Done_inv in E as (? & d5 & E5 & E).
    apply bind_Done_inv in E as (? & d6 & E6 & E).
    apply (freePending_keeps samePresentation) in E1 as (P1 & _ & Q1).
    apply drain_methods in E3 as [P3 Q3].
    2:{ split; [by rewrite P1|by rewrite Q1]. }
    2:{ intros g dg bg dg' Hg Hsg Eg. by apply IH in Eg as [? _]. }
    apply (queryWait_keeps samePresentation) in E5 as (P5 & _ & Q5).
    assert (P6 : rttCanvasPtr d6 = rttCanvasPtr d5 ∧ renderExec d6 = renderExec d5).
    { destruct post; try done.
      - by injection E6 as _ <-.
      - by apply (rttMipmaps_keeps samePresentation) in E6 as (? & _ & ?). }
    destruct P6 as [P6 Q6].
    apply Render_tail in E as (P & Q & Hb & _).
    assert (rttCanvasPtr d6 = None) as Hnil.
    { rewrite P6, P5. by destruct d3. }
    split; [split|].
    + by rewrite P.
    + rewrite Q, Q6, Q5. by destruct d3.
    + intros _. by rewrite Hb, Hnil.
  - split; [|done]. split; [by eapply exec_method_nil|].
    apply exec_sameQueue in E; [|done]. by rewrite E.
Qed.

(** X3: as long as no canvas is active and the queue holds only closures
    sent by the methods of [device] and [rttCanvas], by [yield] and by
    [RenderToTexture], the closure of a [Render] (of the device or of a
    canvas) returns [true] whenever it returns, and leaves the device in
    such a state again: every canvas closure resets [r.rttCanvas] in its
    [post], so the branch of [hookedRender] for an active canvas is never
    taken. *)
Theorem Render_never_takes_texture_branch fuel pre post d b d' :
  methodsOnly d → sentByMethods (OpRender pre post) = true →
  exec fuel (OpRender pre post) d = Done b d' →
  b = true ∧ methodsOnly d'.
Proof.
  intros Hd Hs E. apply exec_methods in E as [? Hb]; [|done..].
  split; [by apply Hb|done].
Qed.

End Dead.

(** [exampleQueued] holds two clears of the device. *)
Lemma Render_never_takes_texture_branch_witness :
  true = true ∧ methodsOnly examplePresented.
Proof.
  apply (Render_never_takes_texture_branch (H:=exampleNative) 2 HookNil HookNil
           exampleQueued true examplePresented).
  - split; [reflexivity|]. repeat constructor.
  - reflexivity.
  - vm_compute; reflexivity.
Defined.

(** ** Housekeeping: the closure of [yield] *)

Section Frames.
Context `{Native}.

(** One polling pass, whatever the capability. *)
Lemma queryYield_total d :
  (glArbOcclusionQuery d = true → objectsOk d) →
  ∃ n d', queryYield d = Done n d' ∧
          pending d' = stillPending d ∧ undisturbed d d' ∧ rsrc d' = rsrc d.
Proof.
  intros Hok. unfold stillPending. destruct (glArbOcclusionQuery d) eqn:Hcap.
  - destruct (queryYield_exact d Hcap (Hok eq_refl)) as (d' & E & Hp & _).
    eexists _, d'. split_and!; try done.
    + by apply (queryYield_keeps undisturbed) in E.
    + by apply queryYield_keeps_rsrc in E.
  - exists 0, d. unfold queryYield. rewrite get_bind, Hcap. by split_and!.
Qed.

(** X4: the closure that [yield] sends every 200 ms returns [false], with
    every list of the resource manager empty and the pending queries reduced
    by one polling pass; it leaves the queue, the completion signals, the
    frame clock, the active canvas and the canvases as they were: it
    presents no frame and wakes no waiting caller. *)
Theorem yield_closure_is_housekeeping fuel d :
  (glArbOcclusionQuery d = true → objectsOk d) →
  ∃ d', exec fuel OpYield d = Done false d' ∧
        rsrc d' = noRsrc ∧ pending d' = stillPending d ∧ undisturbed d d'.
Proof.
  intros Hok.
  assert (E : exec fuel OpYield = (freePending ;; _ ← queryYield; mret false))
    by (by destruct fuel).
  rewrite E. rewrite (bind_Done _ _ _ _ _ (freePending_run d)).
  set (d1 := set_rsrc noRsrc _).
  destruct (queryYield_total d1) as (n & d' & E' & Hp & Hu & Hr).
  { intros Hcap q Hq. destruct d; apply (Hok Hcap q Hq). }
  rewrite (bind_Done _ _ _ _ _ E'). exists d'. by split_and!.
Qed.

End Frames.

(** With framebuffer 7 waiting to be deleted. *)
Lemma yield_closure_is_housekeeping_witness :
  ∃ d', @exec exampleNative 0 OpYield examplePendingFBO = Done false d' ∧
        rsrc d' = noRsrc ∧ pending d' = @stillPending exampleNative examplePendingFBO ∧
        undisturbed examplePendingFBO d'.
Proof.
  apply (yield_closure_is_housekeeping (H:=exampleNative) 0 examplePendingFBO).
  intros _ q Hq. by apply elem_of_nil in Hq.
Defined.

(** ** A frame: [Clear], [Render] and the device thread *)

Section FrameEvents.
Context `{Native}.

Lemma keeps_emit_quiet e : frameEvent e = false → keeps sameFrameEvents (emit e).
Proof.
  intros He d a d' [= _ <-]. unfold sameFrameEvents. destruct d; simpl.
  rewrite List.filter_app. simpl. rewrite He. by rewrite app_nil_r.
Qed.

End FrameEvents.

Ltac keeps_quiet :=
  repeat first
    [ assumption
    | lazymatch goal with
      | |- keeps sameFrameEvents (emit _) => apply keeps_emit_quiet; reflexivity
      end
    | keeps_step ];
  try done.

Section Frame.
Context `{Native}.

Lemma freePending_quiet : keeps sameFrameEvents freePending.
Proof.
  unfold freePending, freeTextures, freeFBOs, freeRenderbuffers, modifyRsrc.
  keeps_quiet.
Qed.

Lemma queryYield_quiet : keeps sameFrameEvents queryYield.
Proof.
  assert (∀ pass queries toRemove,
            keeps sameFrameEvents (pollQueries pass queries toRemove)).
  { intros pass queries. induction queries as [|q queries IH]; intros toRemove; simpl;
      keeps_quiet. }
  unfold queryYield, removeQuery. keeps_quiet.
Qed.

Lemma queryWait_quiet fuel : keeps sameFrameEvents (queryWait fuel).
Proof.
  pose proof queryYield_quiet.
  assert (∀ i, keeps sameFrameEvents (queryWaitLoop fuel i)).
  { induction fuel as [|fuel IH]; intros i; simpl; keeps_quiet. }
  unfold queryWait. keeps_quiet.
Qed.

(** A polling pass with nothing pending. *)
Lemma queryYield_nothing d :
  pending d = [] →
  ∃ d', queryYield d = Done 0 d' ∧ pending d' = [] ∧ trace d' = trace d ∧
        undisturbed d d' ∧ glArbOcclusionQuery d' = glArbOcclusionQuery d ∧
        rsrc d' = rsrc d.
Proof.
  intros Hp. unfold queryYield. rewrite get_bind.
  destruct (glArbOcclusionQuery d) eqn:Hc; simpl.
  2:{ exists d. by split_and!. }
  unfold mbind, M_bind, modify, get. simpl. rewrite Hp. simpl. rewrite Hp.
  eexists. split; [done|]. by destruct d.
Qed.

Lemma queryWait_nothing fuel d :
  pending d = [] →
  ∃ d', queryWait (S fuel) d = Done tt d' ∧ pending d' = [] ∧ trace d' = trace d ∧
        undisturbed d d' ∧ rsrc d' = rsrc d.
Proof.
  intros Hp. unfold queryWait. rewrite get_bind.
  destruct (glArbOcclusionQuery d); simpl; [|exists d; by split_and!].
  destruct (queryYield_nothing d Hp) as (d' & E & ? & ? & ? & _ & ?).
  rewrite (bind_Done _ _ _ _ _ E). exists d'. by split_and!.
Qed.

Lemma performScissor_window rect d :
  rttCanvasPtr d = None →
  performScissor rect d =
    Done tt (set_trace (trace d ++ [GsScissor (devBounds d) rect]) d).
Proof. intros Hp. unfold performScissor. by rewrite get_bind, Hp. Qed.

(** A closure of [Clear], [ClearDepth] or [ClearStencil] of the device, run
    with no query pending. *)
Lemma exec_clear_run fuel f mask d :
  clearMask f = Some mask → rttCanvasPtr d = None → pending d = [] →
  ∃ d', exec fuel f d = Done false d' ∧ undisturbed d d' ∧ pending d' = [] ∧
        List.filter frameEvent (trace d') =
          List.filter frameEvent (trace d) ++ [GlClear mask].
Proof.
  intros Hm Hp Hq.
  destruct f as [rect bg pre post|rect depth pre post|rect stencil pre post| | | |];
    try done; destruct pre, post; try done; injection Hm as <-;
    match goal with |- ∃ d', exec fuel ?g d = _ ∧ _ =>
      replace (exec fuel g) with (exec 0 g) by (by destruct fuel) end;
    simpl;
    do 3 (erewrite bind_Done by reflexivity);
    (erewrite bind_Done by (by apply performScissor_window));
    do 2 (erewrite bind_Done by reflexivity);
    match goal with |- ∃ d', (queryYield ≫= _) ?d0 = _ ∧ _ =>
      destruct (queryYield_nothing d0) as (d1 & E1 & Hq1 & Ht1 & Hu1 & _); [done|]
    end;
    rewrite (bind_Done _ _ _ _ _ E1);
    exists d1; (split_and!; [done| |done|]);
    [ etrans; [|exact Hu1]; by destruct d
    | rewrite Ht1; destruct d; simpl; rewrite !List.filter_app; simpl;
      by rewrite !app_nil_r
    | etrans; [|exact Hu1]; by destruct d
    | rewrite Ht1; destruct d; simpl; rewrite !List.filter_app; simpl;
      by rewrite !app_nil_r
    | etrans; [|exact Hu1]; by destruct d
    | rewrite Ht1; destruct d; simpl; rewrite !List.filter_app; simpl;
      by rewrite !app_nil_r ].
Qed.

Lemma frameEvent_map_quiet {A} (f : A → event) (l : list A) :
  (∀ x, frameEvent (f x) = false) → List.filter frameEvent (map f l) = [].
Proof. intros Hf. induction l as [|x l IH]; simpl; [done|]. by rewrite Hf. Qed.

Lemma freePendingTrace_quiet r : List.filter frameEvent (freePendingTrace r) = [].
Proof.
  unfold freePendingTrace. rewrite !List.filter_app.
  rewrite !frameEvent_map_quiet by done.
  by destruct (textures r), (fbos r), (renderbuffers r).
Qed.

(** The closure of the device's [Render], run with nothing queued behind
    it and no query pending. *)
Lemma exec_Render_idle fuel d :
  renderExec d = [] → pending d = [] → rttCanvasPtr d = None →
  ∃ d', exec (S fuel) (OpRender HookNil HookNil) d = Done true d' ∧
        renderExec d' = [] ∧ renderComplete d' = S (renderComplete d) ∧
        clock d' = S (clock d) ∧ pending d' = [] ∧ rttCanvasPtr d' = None ∧
        rsrc d' = noRsrc ∧
        List.filter frameEvent (trace d') =
          List.filter frameEvent (trace d) ++ [EvClockTick].
Proof.
  intros Hq Hp Hc. rewrite exec_Render_S.
  rewrite (bind_Done _ _ _ _ _ (freePending_run d)).
  erewrite bind_Done by reflexivity.
  erewrite bind_Done.
  2:{ simpl. rewrite get_bind. replace (renderExec _) with (@nil op) by (by destruct d).
      reflexivity. }
  erewrite bind_Done by reflexivity.
  match goal with |- ∃ d', (queryWait _ ≫= _) ?d0 = _ ∧ _ =>
    destruct (queryWait_nothing fuel d0) as (d1 & E1 & Hp1 & Ht1 & (Q1&C1&K1&P1&_) & R1);
      [by destruct d|]
  end.
  rewrite (bind_Done _ _ _ _ _ E1).
  erewrite bind_Done by reflexivity.
  rewrite get_bind.
  replace (rttCanvasPtr d1) with (@None nat) by (rewrite P1; by destruct d).
  eexists. split; [reflexivity|].
  unfold clockTick, signalComplete, emit, modify, mbind, M_bind. simpl.
  rewrite Ht1, Q1, C1, K1, R1. destruct d; simpl in *.
  split_and!; try done; try congruence.
  rewrite !List.filter_app, freePendingTrace_quiet. simpl. by rewrite !app_nil_r.
Qed.

Lemma awaitComplete_S fuel f rest d :
  renderComplete d = 0%nat → renderExec d = f :: rest →
  awaitComplete (S fuel) d =
    (exec fuel f ≫= λ renderedFrame : bool,
       when renderedFrame (emit EvSwapBuffers) ;; awaitComplete fuel)
      (set_renderExec rest d).
Proof.
  intros Hc Hq. simpl. rewrite get_bind, Hc, Hq. reflexivity.
Qed.

Lemma awaitComplete_signalled fuel n d :
  renderComplete d = S n → awaitComplete fuel d = Done tt (set_renderComplete n d).
Proof. intros Hc. destruct fuel; simpl; by rewrite get_bind, Hc. Qed.

(** The device thread serving a queue of clears followed by the closure of
    [Render], for the caller that waits in [Render]. *)
Lemma awaitComplete_frame q masks :
  Forall2 (λ f mask, clearMask f = Some mask) q masks →
  ∀ fuel d,
  renderExec d = q ++ [OpRender HookNil HookNil] →
  renderComplete d = 0%nat → rttCanvasPtr d = None → pending d = [] →
  (length q + 2 ≤ fuel)%nat →
  ∃ d', awaitComplete fuel d = Done tt d' ∧
        renderExec d' = [] ∧ renderComplete d' = 0%nat ∧
        clock d' = S (clock d) ∧ pending d' = [] ∧ rttCanvasPtr d' = None ∧
        List.filter frameEvent (trace d') =
          List.filter frameEvent (trace d) ++ map GlClear masks ++
          [EvClockTick; EvSwapBuffers].
Proof.
  induction 1 as [|f mask q masks Hf Hq IH]; intros fuel d Eq Hc Hp Hn Hfuel.
  - destruct fuel as [|[|fuel]]; [simpl in Hfuel; lia..|].
    rewrite (awaitComplete_S _ _ _ _ Hc Eq).
    destruct (exec_Render_idle fuel (set_renderExec [] d))
      as (d1 & E1 & Q1 & C1 & K1 & P1 & N1 & _ & T1); [by destruct d..|].
    rewrite (bind_Done _ _ _ _ _ E1). simpl when.
    erewrite bind_Done by reflexivity.
    rewrite (awaitComplete_signalled _ 0).
    2:{ rewrite <- Hc. destruct d1; simpl in *. rewrite C1. by destruct d. }
    eexists. split; [reflexivity|].
    destruct d1; simpl in *. split_and!; try done.
    rewrite List.filter_app, T1. simpl. destruct d; simpl. by rewrite <- app_assoc.
  - destruct fuel as [|fuel]; [simpl in Hfuel; lia|]. simpl in Eq.
    rewrite (awaitComplete_S _ _ _ _ Hc Eq).
    destruct (exec_clear_run fuel f mask (set_renderExec (q ++ [OpRender HookNil HookNil]) d))
      as (d1 & E1 & (Q1&C1&K1&P1&_) & N1 & T1); [done|by destruct d..|].
    rewrite (bind_Done _ _ _ _ _ E1). simpl when.
    erewrite bind_Done by reflexivity.
    destruct (IH fuel d1) as (d' & E' & Q' & C' & K' & P' & N' & T').
    + rewrite Q1. by destruct d.
    + rewrite C1. by destruct d.
    + rewrite P1. by destruct d.
    + done.
    + simpl in Hfuel. lia.
    + exists d'. split_and!; try done.
      * rewrite K', K1. by destruct d.
      * rewrite T', T1. destruct d; simpl. by rewrite <- !app_assoc.
Qed.

(** X5: [Render] of the device, called with clears of the device queued
    and the device thread otherwise idle (no completion signal waiting, no
    canvas active, no query pending), returns; by then the device thread has
    executed every queued clear once, in the order of the queue, then ticked
    the frame clock once and swapped the buffers once; the queue is empty
    and the completion signal is consumed. *)
Theorem Render_presents_queued_clears fuel d masks :
  Forall2 (λ f mask, clearMask f = Some mask) (renderExec d) masks →
  renderComplete d = 0%nat → rttCanvasPtr d = None → pending d = [] →
  (length (renderExec d) + 2 ≤ fuel)%nat →
  ∃ d', Render fuel d = Done tt d' ∧
        renderExec d' = [] ∧ renderComplete d' = 0%nat ∧
        clock d' = S (clock d) ∧
        List.filter frameEvent (trace d') =
          List.filter frameEvent (trace d) ++ map GlClear masks ++
          [EvClockTick; EvSwapBuffers].
Proof.
  intros Hq Hc Hp Hn Hfuel. unfold Render, hookedRender.
  erewrite bind_Done by reflexivity.
  destruct (awaitComplete_frame _ _ Hq fuel
              (set_renderExec (renderExec d ++ [OpRender HookNil HookNil]) d))
    as (d' & E & ? & ? & ? & _ & _ & ?); [by destruct d..|done|].
  exists d'. split_and!; try done; by destruct d.
Qed.

End Frame.

(** The two clears of [exampleQueued], then the frame. *)
Lemma Render_presents_queued_clears_witness :
  ∃ d', @Render exampleNative 4 exampleQueued = Done tt d' ∧
        renderExec d' = [] ∧ renderComplete d' = 0%nat ∧
        clock d' = S (clock exampleQueued) ∧
        List.filter frameEvent (trace d') =
          List.filter frameEvent (trace exampleQueued) ++
          map GlClear [COLOR_BUFFER_BIT; DEPTH_BUFFER_BIT] ++
          [EvClockTick; EvSwapBuffers].
Proof.
  apply (Render_presents_queued_clears (H:=exampleNative) 4 exampleQueued
           [COLOR_BUFFER_BIT; DEPTH_BUFFER_BIT]).
  - repeat constructor.
  - reflexivity.
  - reflexivity.
  - reflexivity.
  - simpl. lia.
Defined.

(** ** [QueryWait] of the device *)

Section Wait.
Context `{Native}.

Lemma queryWait_total n fuel d :
  (glArbOcclusionQuery d = true → objectsOk d ∧ settledWithin n d) →
  (n < fuel)%nat → Z.of_nat n < 2 ^ 63 →
  ∃ d', queryWait fuel d = Done tt d' ∧
        (glArbOcclusionQuery d = true → pending d' = []).
Proof.
  intros Hcap Hfuel Hn. unfold queryWait. rewrite get_bind.
  destruct (glArbOcclusionQuery d) eqn:Hc; simpl; [|by exists d].
  destruct (Hcap eq_refl) as [Hok Hset].
  destruct (queryWaitLoop_run n fuel 0 d) as (m & d' & _ & E & Hp & _); try done; try lia.
  by exists d'.
Qed.

Lemma exec_QueryWait fuel pre post :
  exec fuel (OpQueryWait pre post) =
    (runHook pre ;; emit GlFlush ;; queryWait fuel ;; runHook post ;;
     signalComplete ;; mret false).
Proof. by destruct fuel. Qed.

(** X6: [QueryWait] of the device, called with the device thread idle,
    returns; with the occlusion-query capability, and the pending queries
    reported available within [n] polling passes, no query is pending when
    it returns. The queue is empty again and the completion signal is
    consumed; no frame is presented: the clock is not ticked, nothing is
    cleared or swapped. *)
Theorem QueryWait_returns_resolved n fuel d :
  quiescent d →
  (glArbOcclusionQuery d = true → objectsOk d ∧ settledWithin n d) →
  (n + 1 < fuel)%nat → Z.of_nat n < 2 ^ 63 →
  ∃ d', QueryWait fuel d = Done tt d' ∧
        quiescent d' ∧
        (glArbOcclusionQuery d = true → pending d' = []) ∧
        clock d' = clock d ∧ rttCanvasPtr d' = rttCanvasPtr d ∧
        List.filter frameEvent (trace d') = List.filter frameEvent (trace d).
Proof.
  intros [Hq Hc] Hcap Hfuel Hn. unfold QueryWait, hookedQueryWait.
  erewrite bind_Done by reflexivity.
  destruct fuel as [|fuel]; [lia|].
  set (d0 := set_trace (trace d ++ [GlFlush]) d).
  destruct (queryWait_total n fuel d0) as (d1 & E1 & Hp1); [by destruct d|lia|done|].
  pose proof (queryWait_keeps undisturbed _ _ _ _ E1) as (Q1 & C1 & K1 & P1 & _).
  pose proof (queryWait_quiet _ _ _ _ E1) as T1.
  erewrite awaitComplete_single with (n := 0%nat) (f := OpQueryWait HookNil HookNil)
    (d1 := set_renderComplete (S (renderComplete d1)) d1).
  - eexists. split; [reflexivity|]. unfold sameFrameEvents in T1.
    destruct d1; simpl in *. split_and!.
    + split; simpl; [|done]. by rewrite Q1.
    + intros Hx. apply Hp1. by destruct d.
    + rewrite K1. by destruct d.
    + rewrite P1. by destruct d.
    + rewrite T1. destruct d; simpl. rewrite List.filter_app. simpl.
      by rewrite app_nil_r.
  - by destruct d.
  - destruct d; simpl in *. by rewrite Hq.
  - rewrite exec_QueryWait. erewrite bind_Done by reflexivity.
    erewrite bind_Done by reflexivity.
    replace (set_trace _ _) with d0.
    2:{ unfold d0. clear - Hq. destruct d; simpl in *. by subst. }
    rewrite (bind_Done _ _ _ _ _ E1). reflexivity.
  - destruct d1; simpl in *. rewrite C1. unfold d0. destruct d; simpl in *.
    by rewrite Hc.
Qed.

(** X7: [Clear] followed by [Render], with the device thread idle: the
    frame that is presented holds one clear of the colour buffer when the
    rectangle is not empty and no clear at all when it is empty. *)
Theorem Clear_then_Render_frame fuel rect bg d :
  quiescent d → rttCanvasPtr d = None → pending d = [] → (3 ≤ fuel)%nat →
  ∃ d', (Clear rect bg ;; Render fuel) d = Done tt d' ∧
        quiescent d' ∧ clock d' = S (clock d) ∧
        List.filter frameEvent (trace d') =
          List.filter frameEvent (trace d) ++
          (if Empty rect then [] else [GlClear COLOR_BUFFER_BIT]) ++
          [EvClockTick; EvSwapBuffers].
Proof.
  intros [Hq Hc] Hp Hn Hfuel. unfold Clear, hookedClear, Render, hookedRender.
  destruct (Empty rect).
  - erewrite bind_Done by reflexivity. erewrite bind_Done by reflexivity.
    destruct (awaitComplete_frame [] [] ltac:(constructor) fuel
                (set_renderExec (renderExec d ++ [OpRender HookNil HookNil]) d))
      as (d' & E & ? & ? & ? & _ & _ & ?);
      [destruct d; simpl in *; by subst|by destruct d..|simpl; lia|].
    exists d'. split_and!; try done; by destruct d.
  - erewrite bind_Done by reflexivity. erewrite bind_Done by reflexivity.
    destruct (awaitComplete_frame [OpClear rect bg HookNil HookNil] [COLOR_BUFFER_BIT]
                ltac:(by repeat constructor) fuel
                (set_renderExec
                   ((renderExec d ++ [OpClear rect bg HookNil HookNil]) ++
                    [OpRender HookNil HookNil])
                   (set_renderExec (renderExec d ++ [OpClear rect bg HookNil HookNil]) d)))
      as (d' & E & ? & ? & ? & _ & _ & ?);
      [destruct d; simpl in *; by subst|by destruct d..|simpl; lia|].
    exists d'. split_and!; try done; by destruct d.
Qed.

End Wait.

(** The query of [exampleQuerying] is available from the seventeenth pass
    on. *)
Lemma QueryWait_returns_resolved_witness :
  ∃ d', @QueryWait exampleNative 18 exampleQuerying = Done tt d' ∧
        quiescent d' ∧
        (glArbOcclusionQuery exampleQuerying = true → pending d' = []) ∧
        clock d' = clock exampleQuerying ∧
        rttCanvasPtr d' = rttCanvasPtr exampleQuerying ∧
        List.filter frameEvent (trace d') =
          List.filter frameEvent (trace exampleQuerying).
Proof.
  apply (QueryWait_returns_resolved (H:=exampleNative) 16 18 exampleQuerying).
  - split; reflexivity.
  - intros _. split.
    + intros q Hq. apply list_elem_of_singleton in Hq as ->. by eexists.
    + intros q Hq pass Hpass. apply bool_decide_eq_true_2. simpl in Hpass. lia.
  - lia.
  - reflexivity.
Defined.

(** A clear of the empty rectangle, then a frame. *)
Lemma Clear_then_Render_frame_witness :
  ∃ d', (Clear (Rect 0 0 0 0) red ;; @Render exampleNative 3) exampleDevice = Done tt d' ∧
        quiescent d' ∧ clock d' = S (clock exampleDevice) ∧
        List.filter frameEvent (trace d') =
          List.filter frameEvent (trace exampleDevice) ++
          (if Empty (Rect 0 0 0 0) then [] else [GlClear COLOR_BUFFER_BIT]) ++
          [EvClockTick; EvSwapBuffers].
Proof.
  apply (Clear_then_Render_frame (H:=exampleNative) 3 (Rect 0 0 0 0) red exampleDevice).
  - split; reflexivity.
  - reflexivity.
  - reflexivity.
  - lia.
Defined.

(** * Further properties of the render-to-texture canvas *)

(** ** Releasing a canvas: [freeTexture] and [noop] *)

Section Release.
Context `{Native}.

Lemma queues_refl d : queues [] [] [] d d.
Proof. unfold queues. rewrite !app_nil_r. by split_and!. Qed.

Lemma queues_trans ts fs rs ts' fs' rs' d1 d2 d3 :
  queues ts fs rs d1 d2 → queues ts' fs' rs' d2 d3 →
  queues (ts ++ ts') (fs ++ fs') (rs ++ rs') d1 d3.
Proof.
  intros (T1&F1&R1&M1&S1&U1&D1) (T2&F2&R2&M2&S2&U2&D2). unfold queues.
  rewrite T2, T1, F2, F1, R2, R1, M2, M1, S2, S1, D2, D1, !app_assoc.
  split_and!; try done. by etrans.
Qed.

Lemma finalizeAttached_queues t d :
  (∀ x, t = Some x → is_Some (NativeTexture x)) →
  ∃ d', finalizeAttached t d = Done tt d' ∧ queues (nativeOf t) [] [] d d'.
Proof.
  intros Hn. destruct t as [x|]; simpl.
  2:{ exists d. split; [done|apply queues_refl]. }
  destruct (Hn x eq_refl) as [n Hx]. unfold nativeOf. simpl. rewrite Hx.
  eexists. split; [reflexivity|]. unfold queues, undisturbed.
  destruct d as [? ? [] ?]; simpl. rewrite !app_nil_r, !List.filter_app. simpl.
  rewrite !app_nil_r. by split_and!.
Qed.

Lemma freeRb_queues id d :
  ∃ d', freeRb id d = Done tt d' ∧
        queues [] [] (if id =? 0 then [] else [id]) d d'.
Proof.
  unfold freeRb. destruct (id =? 0).
  { exists d. split; [done|apply queues_refl]. }
  eexists. split; [reflexivity|]. unfold queues, undisturbed.
  destruct d as [? ? [] ?]; simpl. rewrite !app_nil_r, !List.filter_app. simpl.
  rewrite !app_nil_r. by split_and!.
Qed.

Lemma freeFramebuffer_queues cv d :
  ∃ d', when (negb (fbo cv =? 0))
          (emit EvLock ;;
           modifyRsrc (λ r, set_fbos (fbos r ++ [fbo cv]) r) ;;
           emit EvUnlock) d = Done tt d' ∧
        queues [] (canvasFramebuffer cv) [] d d'.
Proof.
  unfold canvasFramebuffer. destruct (fbo cv =? 0); simpl.
  { exists d. split; [done|apply queues_refl]. }
  eexists. split; [reflexivity|]. unfold queues, undisturbed.
  destruct d as [? ? [] ?]; simpl. rewrite !app_nil_r, !List.filter_app. simpl.
  rewrite !app_nil_r. by split_and!.
Qed.

(** The release of everything the canvas owns, once its last texture is
    gone. *)
Lemma releaseAll_queues cv d :
  texturesLoaded (cfg cv) →
  ∃ d', (finalizeAttached (Color (cfg cv)) ;;
         finalizeAttached (Depth (cfg cv)) ;;
         finalizeAttached (Stencil (cfg cv)) ;;
         when (negb (fbo cv =? 0))
           (emit EvLock ;;
            modifyRsrc (λ r, set_fbos (fbos r ++ [fbo cv]) r) ;;
            emit EvUnlock) ;;
         freeRb (rbColor cv) ;;
         freeRb (rbDepth cv) ;;
         freeRb (rbStencil cv) ;;
         freeRb (rbDepthAndStencil cv)) d = Done tt d' ∧
        queues (nativeOf (Color (cfg cv)) ++ nativeOf (Depth (cfg cv)) ++
                nativeOf (Stencil (cfg cv)))
          (canvasFramebuffer cv) (canvasRenderbuffers cv) d d'.
Proof.
  intros Hn.
  destruct (finalizeAttached_queues (Color (cfg cv)) d) as (d1 & E1 & Q1).
  { apply Hn. set_solver. }
  destruct (finalizeAttached_queues (Depth (cfg cv)) d1) as (d2 & E2 & Q2).
  { apply Hn. set_solver. }
  destruct (finalizeAttached_queues (Stencil (cfg cv)) d2) as (d3 & E3 & Q3).
  { apply Hn. set_solver. }
  destruct (freeFramebuffer_queues cv d3) as (d4 & E4 & Q4).
  destruct (freeRb_queues (rbColor cv) d4) as (d5 & E5 & Q5).
  destruct (freeRb_queues (rbDepth cv) d5) as (d6 & E6 & Q6).
  destruct (freeRb_queues (rbStencil cv) d6) as (d7 & E7 & Q7).
  destruct (freeRb_queues (rbDepthAndStencil cv) d7) as (d8 & E8 & Q8).
  exists d8. split.
  - rewrite (bind_Done _ _ _ _ _ E1), (bind_Done _ _ _ _ _ E2),
      (bind_Done _ _ _ _ _ E3), (bind_Done _ _ _ _ _ E4),
      (bind_Done _ _ _ _ _ E5), (bind_Done _ _ _ _ _ E6),
      (bind_Done _ _ _ _ _ E7). exact E8.
  - pose proof (queues_trans _ _ _ _ _ _ _ _ _ Q1
      (queues_trans _ _ _ _ _ _ _ _ _ Q2
      (queues_trans _ _ _ _ _ _ _ _ _ Q3
      (queues_trans _ _ _ _ _ _ _ _ _ Q4
      (queues_trans _ _ _ _ _ _ _ _ _ Q5
      (queues_trans _ _ _ _ _ _ _ _ _ Q6
      (queues_trans _ _ _ _ _ _ _ _ _ Q7 Q8))))))) as Q.
    simpl in Q. rewrite !app_nil_r in Q.
    replace (canvasRenderbuffers cv) with
      ((if rbColor cv =? 0 then [] else [rbColor cv]) ++
       (if rbDepth cv =? 0 then [] else [rbDepth cv]) ++
       (if rbStencil cv =? 0 then [] else [rbStencil cv]) ++
       (if rbDepthAndStencil cv =? 0 then [] else [rbDepthAndStencil cv])).
    + exact Q.
    + unfold canvasRenderbuffers. simpl.
      by destruct (rbColor cv =? 0), (rbDepth cv =? 0), (rbStencil cv =? 0),
        (rbDepthAndStencil cv =? 0).
Qed.

Lemma updCanvas_run c cv f d :
  canvases d !! c = Some cv →
  updCanvas c f d = Done tt (set_canvases (<[c := f cv]> (canvases d)) d).
Proof.
  intros Hc. unfold updCanvas.
  by rewrite (bind_Done _ _ _ _ _ (derefCanvas_run c cv d Hc)).
Qed.

Lemma lookup_updated c cv (cv' : rttCanvas) d :
  canvases d !! c = Some cv →
  canvases (set_canvases (<[c := cv']> (canvases d)) d) !! c = Some cv'.
Proof.
  intros Hc. destruct d; simpl in *. apply list_lookup_insert_eq.
  by eapply lookup_lt_Some.
Qed.


Lemma freePendingTrace_deletions r :
  List.filter isDeletion (freePendingTrace r) =
    map EvMeshFree (meshes r) ++ map EvShaderFree (shaders r) ++
    batch GlDeleteTextures (textures r) ++
    batch GlDeleteFramebuffers (fbos r) ++
    batch GlDeleteRenderbuffers (renderbuffers r).
Proof.
  unfold freePendingTrace. destruct r as [ms ss ts fs rs].
  cbv beta iota delta [meshes shaders textures fbos renderbuffers].
  cbn [app List.filter isDeletion].
  rewrite (filter_map_sel isDeletion EvMeshFree) by done.
  rewrite (filter_map_sel isDeletion EvShaderFree) by done.
  do 2 f_equal. by destruct ts, fs, rs.
Qed.

(** X9: [freeTexture] for the last texture of a canvas brings the count
    to zero and issues no native deletion itself; the next reclamation pass
    then deletes, after what was pending before and each kind in one batched
    call, the native textures of the configuration, the framebuffer of the
    canvas and its renderbuffers (the names other than 0, in the order
    colour, depth, stencil, depth-and-stencil), and leaves every list of the
    resource manager empty. *)
Theorem last_texture_releases_canvas c cv d :
  canvases d !! c = Some cv → readers cv = 0%nat → count cv = 1 →
  texturesLoaded (cfg cv) →
  ∃ d1 d2,
    freeTexture c d = Done tt d1 ∧
    canvases d1 = <[c := set_count 0 cv]> (canvases d) ∧
    List.filter isDeletion (trace d1) = List.filter isDeletion (trace d) ∧
    freePending d1 = Done tt d2 ∧
    rsrc d2 = noRsrc ∧
    List.filter isDeletion (trace d2) =
      List.filter isDeletion (trace d) ++
      map EvMeshFree (meshes (rsrc d)) ++ map EvShaderFree (shaders (rsrc d)) ++
      batch GlDeleteTextures
        (textures (rsrc d) ++ nativeOf (Color (cfg cv)) ++
         nativeOf (Depth (cfg cv)) ++ nativeOf (Stencil (cfg cv))) ++
      batch GlDeleteFramebuffers (fbos (rsrc d) ++ canvasFramebuffer cv) ++
      batch GlDeleteRenderbuffers (renderbuffers (rsrc d) ++ canvasRenderbuffers cv).
Proof.
  intros Hc Hr H1 Hn.
  set (d0 := set_canvases (<[c := set_count 0 cv]> (canvases d)) d).
  destruct (releaseAll_queues cv d0 Hn) as (d1 & E1 & T1 & F1 & R1 & M1 & S1 & U1 & D1).
  exists d1, (set_rsrc noRsrc (set_trace (trace d1 ++ freePendingTrace (rsrc d1)) d1)).
  split_and!.
  - unfold freeTexture.
    rewrite (bind_Done _ _ _ _ _ (derefCanvas_run c cv d Hc)). rewrite Hr, H1. simpl.
    rewrite (bind_Done _ _ _ _ _ (updCanvas_run c cv _ d Hc)). exact E1.
  - destruct U1 as (_ & _ & _ & _ & ->). by destruct d.
  - rewrite D1. by destruct d.
  - apply freePending_run.
  - by destruct d1.
  - replace (trace (set_rsrc _ _)) with (trace d1 ++ freePendingTrace (rsrc d1))
      by (by destruct d1).
    rewrite List.filter_app, freePendingTrace_deletions, D1, T1, F1, R1, M1, S1.
    by destruct d.
Qed.

(** X10: [Clear] on a canvas whose texture count is zero queues nothing
    and issues no native call, whatever the rectangle; but [noop] returns
    [true] without releasing the read lock it took, so the one change is one
    more read lock held on the count, and a [freeTexture] that comes after
    waits for the write lock for ever. *)
Theorem rttClear_after_release_leaks_read_lock c cv rect bg d :
  canvases d !! c = Some cv → count cv = 0 →
  let d' := set_canvases (<[c := set_readers (S (readers cv)) cv]> (canvases d)) d in
  rttClear c rect bg d = Done tt d' ∧ freeTexture c d' = Blocked.
Proof.
  intros Hc H0 d'.
  assert (Hc' : canvases d' !! c = Some (set_readers (S (readers cv)) cv))
    by (by apply (lookup_updated c cv)).
  split.
  - unfold rttClear, noop.
    unfold mbind at 1, M_bind at 1.
    rewrite (bind_Done _ _ _ _ _ (updCanvas_run c cv _ d Hc)). fold d'.
    rewrite (bind_Done _ _ _ _ _ (derefCanvas_run c _ d' Hc')).
    replace (count (set_readers _ cv)) with (count cv) by (by destruct cv).
    by rewrite H0.
  - unfold freeTexture.
    rewrite (bind_Done _ _ _ _ _ (derefCanvas_run c _ d' Hc')).
    by destruct cv.
Qed.

End Release.


Lemma exampleCanvas_loaded : texturesLoaded (cfg exampleCanvas).
Proof.
  intros t Ht x ->.
  repeat (apply elem_of_cons in Ht as [Ht|Ht];
          [vm_compute in Ht; try discriminate; injection Ht as ->; by eexists|]).
  by apply elem_of_nil in Ht.
Qed.

(** The one texture of the canvas of [exampleCanvasDevice] is finalized:
    the next pass deletes texture 3, framebuffer 1 and the depth renderbuffer
    2. *)
Lemma last_texture_releases_canvas_witness :
  ∃ d1 d2,
    freeTexture 0 exampleCanvasDevice = Done tt d1 ∧
    canvases d1 = <[0%nat := set_count 0 exampleCanvas]> (canvases exampleCanvasDevice) ∧
    List.filter isDeletion (trace d1) =
      List.filter isDeletion (trace exampleCanvasDevice) ∧
    freePending d1 = Done tt d2 ∧
    rsrc d2 = noRsrc ∧
    List.filter isDeletion (trace d2) =
      List.filter isDeletion (trace exampleCanvasDevice) ++
      map EvMeshFree (meshes (rsrc exampleCanvasDevice)) ++
      map EvShaderFree (shaders (rsrc exampleCanvasDevice)) ++
      batch GlDeleteTextures
        (textures (rsrc exampleCanvasDevice) ++ nativeOf (Color (cfg exampleCanvas)) ++
         nativeOf (Depth (cfg exampleCanvas)) ++ nativeOf (Stencil (cfg exampleCanvas))) ++
      batch GlDeleteFramebuffers
        (fbos (rsrc exampleCanvasDevice) ++ canvasFramebuffer exampleCanvas) ++
      batch GlDeleteRenderbuffers
        (renderbuffers (rsrc exampleCanvasDevice) ++ canvasRenderbuffers exampleCanvas).
Proof.
  apply (last_texture_releases_canvas 0 exampleCanvas exampleCanvasDevice
           eq_refl eq_refl eq_refl exampleCanvas_loaded).
Defined.

Example last_texture_deletions :
  ∃ d1 d2, freeTexture 0 exampleCanvasDevice = Done tt d1 ∧
           freePending d1 = Done tt d2 ∧
           List.filter isDeletion (trace d2) =
             [GlDeleteTextures [3]; GlDeleteFramebuffers [1]; GlDeleteRenderbuffers [2]].
Proof. eexists _, _. split_and!; vm_compute; reflexivity. Qed.

(** A clear of a rectangle that is not empty, through the released canvas
    of [exampleReleasedDevice]. *)
Lemma rttClear_after_release_leaks_read_lock_witness :
  let d' :=
    set_canvases
      (<[0%nat := set_readers (S (readers exampleReleasedCanvas)) exampleReleasedCanvas]>
         (canvases exampleReleasedDevice)) exampleReleasedDevice in
  @rttClear 0 (Rect 0 0 100 100) red exampleReleasedDevice = Done tt d' ∧
  freeTexture 0 d' = Blocked.
Proof.
  apply (rttClear_after_release_leaks_read_lock 0 exampleReleasedCanvas
           (Rect 0 0 100 100) red exampleReleasedDevice eq_refl eq_refl).
Defined.

(** ** Building a canvas: the creation closure of [RenderToTexture] *)

Section Tracks.
Context `{Native} {V : Type} (view : device → V).

Lemma tracks_ret {A} (a : A) : tracks view id (mret a).
Proof. by intros d a' d' [= _ <-]. Qed.

Lemma tracks_bind {A B} g1 g2 (m : M A) (k : A → M B) :
  tracks view g1 m → (∀ a, tracks view g2 (k a)) → tracks view (g2 ∘ g1) (m ≫= k).
Proof.
  intros Hm Hk d b d' E. apply bind_Done_inv in E as (a & d1 & E1 & E2).
  simpl. rewrite <- (Hm _ _ _ E1). by eapply Hk.
Qed.

Lemma tracks_when (b : bool) g (m : M unit) :
  tracks view g m → tracks view (if b then g else id) (when b m).
Proof. intros Hm. destruct b; [done|apply tracks_ret]. Qed.

Lemma tracks_if {A} (b : bool) g1 g2 (m1 m2 : M A) :
  tracks view g1 m1 → tracks view g2 m2 →
  tracks view (if b then g1 else g2) (if b then m1 else m2).
Proof. by destruct b. Qed.

End Tracks.

Section Attachments.
Context `{Native}.

Lemma attaches_ret {A} (a : A) : attaches [] (mret a).
Proof. intros d a' d' [= _ <-]. by rewrite app_nil_r. Qed.

Lemma attaches_bind {A B} l1 l2 (m : M A) (k : A → M B) :
  attaches l1 m → (∀ a, attaches l2 (k a)) → attaches (l1 ++ l2) (m ≫= k).
Proof.
  intros Hm Hk d b d' E. apply bind_Done_inv in E as (a & d1 & E1 & E2).
  rewrite (Hk _ _ _ _ E2), (Hm _ _ _ E1). by rewrite app_assoc.
Qed.

Lemma attaches_quiet {A} (m : M A) :
  (∀ d a d', m d = Done a d' → trace d' = trace d) → attaches [] m.
Proof. intros Hm d a d' E. rewrite (Hm _ _ _ E). by rewrite app_nil_r. Qed.

Lemma attaches_emit_none e : attachmentOf e = None → attaches [] (emit e).
Proof.
  intros He d a d' [= _ <-]. destruct d; simpl.
  unfold attachmentsOf. rewrite omap_app. simpl. by rewrite He.
Qed.

Lemma attaches_emit_some e k : attachmentOf e = Some k → attaches [k] (emit e).
Proof.
  intros He d a d' [= _ <-]. destruct d; simpl.
  unfold attachmentsOf. rewrite omap_app. simpl. by rewrite He.
Qed.

Lemma attaches_when (b : bool) l (m : M unit) :
  attaches l m → attaches (if b then l else []) (when b m).
Proof. intros Hm. destruct b; [done|apply attaches_ret]. Qed.

Lemma attaches_if {A} (b : bool) l1 l2 (m1 m2 : M A) :
  attaches l1 m1 → attaches l2 m2 →
  attaches (if b then l1 else l2) (if b then m1 else m2).
Proof. by destruct b. Qed.

Lemma genName_trace d a d' : genName d = Done a d' → trace d' = trace d.
Proof. intros [= _ <-]. by destruct d. Qed.

Lemma updCanvas_trace c f d a d' : updCanvas c f d = Done a d' → trace d' = trace d.
Proof.
  unfold updCanvas. intros E. apply bind_Done_inv in E as (cv & d1 & E1 & E2).
  unfold derefCanvas in E1. rewrite get_bind in E1.
  destruct (canvases d !! c); [|done]. injection E1 as _ <-.
  injection E2 as _ <-. by destruct d.
Qed.

Lemma setLocals_trace c f d a d' : setLocals c f d = Done a d' → trace d' = trace d.
Proof. intros [= _ <-]. by destruct d. Qed.

Lemma signalComplete_trace d a d' :
  signalComplete d = Done a d' → trace d' = trace d.
Proof. intros [= _ <-]. by destruct d. Qed.

End Attachments.

Ltac attaches_step :=
  lazymatch goal with
  | |- attaches _ (mret _) => apply attaches_ret
  | |- attaches _ (emit _) =>
      first [ apply attaches_emit_none; reflexivity
            | eapply attaches_emit_some; reflexivity ]
  | |- attaches _ genName => apply attaches_quiet, genName_trace
  | |- attaches _ (updCanvas _ _) => apply attaches_quiet, updCanvas_trace
  | |- attaches _ (setLocals _ _) => apply attaches_quiet, setLocals_trace
  | |- attaches _ signalComplete => apply attaches_quiet, signalComplete_trace
  | |- attaches _ (when _ _) => eapply attaches_when
  | |- attaches _ (if _ then _ else _) => eapply attaches_if
  | |- attaches _ (_ ≫= _) => eapply attaches_bind; [|intros ?]
  end.

Section Closure.
Context `{Native}.

Lemma forEach_attaches (points : list attachment) rb :
  attaches (map (λ a, (a, false)) points)
    (forEach points (λ a, emit (GlFramebufferRenderbuffer a rb))).
Proof.
  induction points as [|a points IH]; simpl; [apply attaches_ret|].
  apply (attaches_bind [_]); [by apply attaches_emit_some|done].
Qed.

Lemma newRenderbuffer_attaches c store samples format width height points :
  attaches (map (λ a, (a, false)) points)
    (newRenderbuffer c store samples format width height points).
Proof.
  unfold newRenderbuffer.
  eapply (attaches_bind []); [attaches_step|intros rb].
  eapply (attaches_bind []); [attaches_step|intros ?].
  eapply (attaches_bind []); [attaches_step|intros ?].
  eapply (attaches_bind []); [attaches_step|intros ?].
  eapply (attaches_bind []); [attaches_step|intros ?].
  apply forEach_attaches.
Qed.

Lemma newTexture_attaches format width height a :
  attaches [(a, true)] (newTexture format width height a).
Proof.
  unfold newTexture, newNativeTexture.
  eapply (attaches_bind []).
  { eapply (attaches_bind []); [attaches_step|intros ?].
    eapply (attaches_bind []); [attaches_step|intros ?]. attaches_step. }
  intros n.
  eapply (attaches_bind []); [attaches_step|intros ?].
  eapply (attaches_bind []); [attaches_step|intros ?].
  eapply (attaches_bind [_]); [attaches_step|intros ?]. attaches_step.
Qed.

Lemma createRTT_attaches c cfg cf df sf :
  attaches (madeAttachments cfg) (createRTT c cfg cf df sf).
Proof.
  pose proof newRenderbuffer_attaches as Hrb.
  pose proof newTexture_attaches as Htex.
  assert (∃ l, attaches l (createRTT c cfg cf df sf) ∧ l = madeAttachments cfg)
    as (l & Hl & ->); [|done].
  eexists. split.
  - unfold createRTT, attachRTT.
    repeat first [ apply Hrb | apply Htex | attaches_step ].
  - unfold madeAttachments, dsCombined. simpl. by rewrite ?app_nil_r.
Qed.

Lemma madeAttachments_facts cfg l :
  l = madeAttachments cfg →
  NoDup (l.*1) ∧
  (∀ a, (a, true) ∈ l → textureFor a cfg ≠ None) ∧
  (∀ a, (a, false) ∈ l → textureFor a cfg = None) ∧
  ((COLOR_ATTACHMENT0 ∈ l.*1) ↔ ColorFormat cfg ≠ ZeroTexFormat) ∧
  ((STENCIL_ATTACHMENT, true) ∉ l) ∧
  (dsCombined cfg = true → (DEPTH_ATTACHMENT, true) ∉ l).
Proof.
  intros ->. unfold madeAttachments, dsCombined, ZeroTexFormat, ZeroDSFormat.
  destruct (Color cfg) as [tc|] eqn:HC, (Depth cfg) as [td|] eqn:HD,
    (Stencil cfg) as [ts|] eqn:HS,
    (Z.eqb_spec (ColorFormat cfg) 0), (Z.eqb_spec (DepthFormat cfg) 0),
    (Z.eqb_spec (StencilFormat cfg) 0),
    (DepthFormat cfg =? StencilFormat cfg), (IsCombined (DepthFormat cfg));
    cbn -[elem_of textureFor];
    (split_and!;
     [ by apply (bool_decide_unpack _)
     | intros a Ha;
       repeat (apply elem_of_cons in Ha as [Ha|Ha]; [simplify_eq; simpl; congruence|]);
       by apply elem_of_nil in Ha
     | intros a Ha;
       repeat (apply elem_of_cons in Ha as [Ha|Ha]; [simplify_eq; simpl; congruence|]);
       by apply elem_of_nil in Ha
     | split; [intros Ha%(bool_decide_pack _); done|]; intros ?; try done;
       by apply (bool_decide_unpack _)
     | by apply (bool_decide_unpack _)
     | intros ?; try done; by apply (bool_decide_unpack _) ]).
Qed.

(** X11: the creation closure of [RenderToTexture] attaches at most one
    object to each attachment point of the framebuffer: a texture only where
    the configuration names a texture, a renderbuffer only where it names
    none, something at the colour point exactly when the colour format is
    not the zero format.  The stencil point gets nothing when the
    configuration names a stencil texture, and the depth point gets nothing
    when it names a depth texture and the depth and stencil formats are one
    combined format. *)
Theorem createRTT_attachments c cfg cf df sf d b d' :
  createRTT c cfg cf df sf d = Done b d' →
  ∃ l, attachmentsOf (trace d') = attachmentsOf (trace d) ++ l ∧
       NoDup (l.*1) ∧
       (∀ a, (a, true) ∈ l → textureFor a cfg ≠ None) ∧
       (∀ a, (a, false) ∈ l → textureFor a cfg = None) ∧
       ((COLOR_ATTACHMENT0 ∈ l.*1) ↔ ColorFormat cfg ≠ ZeroTexFormat) ∧
       (Stencil cfg ≠ None → STENCIL_ATTACHMENT ∉ l.*1) ∧
       (dsCombined cfg = true → Depth cfg ≠ None → DEPTH_ATTACHMENT ∉ l.*1).
Proof.
  intros E. exists (madeAttachments cfg).
  destruct (madeAttachments_facts cfg _ eq_refl) as (Hnd & Htex & Hrb & Hcol & Hst & Hds).
  split; [exact (createRTT_attaches c cfg cf df sf d b d' E)|].
  split_and!; try done.
  - intros Hs [[a []] [Ha Hin]]%list_elem_of_fmap; simpl in Ha; subst a.
    + done.
    + by apply Hrb in Hin.
  - intros Hc Hd [[a []] [Ha Hin]]%list_elem_of_fmap; simpl in Ha; subst a.
    + by apply Hds in Hin.
    + by apply Hrb in Hin.
Qed.

End Closure.

(** The creation closure for [exampleStencilConfig]. *)
Lemma createRTT_attachments_witness :
  ∃ l, attachmentsOf (trace exampleAttached) =
         attachmentsOf (trace exampleCanvasDevice) ++ l ∧
       NoDup (l.*1) ∧
       (∀ a, (a, true) ∈ l → textureFor a exampleStencilConfig ≠ None) ∧
       (∀ a, (a, false) ∈ l → textureFor a exampleStencilConfig = None) ∧
       ((COLOR_ATTACHMENT0 ∈ l.*1) ↔ ColorFormat exampleStencilConfig ≠ ZeroTexFormat) ∧
       (Stencil exampleStencilConfig ≠ None → STENCIL_ATTACHMENT ∉ l.*1) ∧
       (dsCombined (H:=exampleNative) exampleStencilConfig = true →
        Depth exampleStencilConfig ≠ None → DEPTH_ATTACHMENT ∉ l.*1).
Proof.
  apply (createRTT_attachments (H:=exampleNative) 0 exampleStencilConfig
           0x1908 0x88F0 0x88F0 exampleCanvasDevice false exampleAttached).
  vm_compute; reflexivity.
Defined.

(** ... it attaches the colour renderbuffer, and nothing for the depth and
    the stencil texture. *)
Example combined_format_ignores_textures :
  attachmentsOf (trace exampleAttached) =
    attachmentsOf (trace exampleCanvasDevice) ++ [(COLOR_ATTACHMENT0, false)].
Proof. reflexivity. Qed.

(** ** The canvas that [RenderToTexture] returns *)

#[export] Instance sameCore_preorder c : PreOrder (sameCore c).
Proof. split; [done|]. intros x y z ? ?. unfold sameCore in *. congruence. Qed.

#[export] Instance sameLocals_preorder : PreOrder sameLocals.
Proof. split; [done|]. intros x y z ? ?. unfold sameLocals in *. congruence. Qed.

#[export] Instance samePending_preorder : PreOrder samePending.
Proof. split; [done|]. intros x y z ? ?. unfold samePending in *. congruence. Qed.

Section Core.
Context `{Native}.

Lemma updCanvas_keeps_core c f :
  (∀ cv, canvasCore (f cv) = canvasCore cv) → keeps (sameCore c) (updCanvas c f).
Proof.
  intros Hf d a d' E. unfold updCanvas in E.
  apply bind_Done_inv in E as (cv & d1 & E1 & E2).
  unfold derefCanvas in E1. rewrite get_bind in E1.
  destruct (canvases d !! c) as [cv0|] eqn:Hc; [|done]. injection E1 as -> <-.
  injection E2 as _ <-. unfold sameCore. destruct d; simpl in *.
  rewrite list_lookup_insert_eq by (by eapply lookup_lt_Some). rewrite Hc. simpl.
  by rewrite Hf.
Qed.

End Core.

Ltac keeps_core :=
  repeat first
    [ assumption
    | lazymatch goal with
      | |- keeps (sameCore _) (updCanvas _ _) =>
          apply updCanvas_keeps_core; intros []; reflexivity
      end
    | keeps_step ];
  try done.

Section CoreKept.
Context `{Native}.

Lemma createRTT_keeps_core c cfg cf df sf : keeps (sameCore c) (createRTT c cfg cf df sf).
Proof.
  unfold createRTT, attachRTT, newRenderbuffer, newTexture, newNativeTexture, genName,
    setLocals, signalComplete.
  keeps_core.
Qed.

Lemma newRenderbuffer_keeps_locals c store samples format width height points :
  keeps sameLocals (newRenderbuffer c store samples format width height points).
Proof.
  unfold newRenderbuffer, genName, updCanvas, derefCanvas. keeps_auto.
Qed.

Lemma newTexture_keeps_locals format width height a :
  keeps sameLocals (newTexture format width height a).
Proof. unfold newTexture, newNativeTexture, genName. keeps_auto. Qed.

End CoreKept.

Section Natives.
Context `{Native} (c : canvasRef).

Lemma tracks_sameLocals {A} (m : M A) :
  keeps sameLocals m → tracks (nativesSet c) id m.
Proof.
  intros Hm d a d' E. apply Hm in E. unfold nativesSet, localsOf. by rewrite E.
Qed.

Lemma setLocals_natives f g :
  (∀ l, nativesOf (f l) = g (nativesOf l)) → tracks (nativesSet c) g (setLocals c f).
Proof.
  intros Hf d a d' [= _ <-]. unfold nativesSet, localsOf. destruct d; simpl.
  rewrite lookup_insert_eq. simpl. apply Hf.
Qed.

Lemma setLocals_color n :
  tracks (nativesSet c) (λ v, (true, v.1.2, v.2))
    (setLocals c (λ l, {| nTexColor := Some n; nTexDepth := nTexDepth l;
                          nTexStencil := nTexStencil l; fbError := fbError l |})).
Proof. by apply setLocals_natives. Qed.

Lemma setLocals_depth n :
  tracks (nativesSet c) (λ v, (v.1.1, true, v.2))
    (setLocals c (λ l, {| nTexColor := nTexColor l; nTexDepth := Some n;
                          nTexStencil := nTexStencil l; fbError := fbError l |})).
Proof. by apply setLocals_natives. Qed.

Lemma setLocals_error e :
  tracks (nativesSet c) id
    (setLocals c (λ l, {| nTexColor := nTexColor l; nTexDepth := nTexDepth l;
                          nTexStencil := nTexStencil l; fbError := e |})).
Proof. by apply setLocals_natives. Qed.

Lemma emit_natives e : tracks (nativesSet c) id (emit e).
Proof. apply tracks_sameLocals. keeps_auto. Qed.

Lemma genName_natives : tracks (nativesSet c) id genName.
Proof. apply tracks_sameLocals. unfold genName. keeps_auto. Qed.

Lemma updCanvas_natives c' f : tracks (nativesSet c) id (updCanvas c' f).
Proof. apply tracks_sameLocals. unfold updCanvas, derefCanvas. keeps_auto. Qed.

Lemma signalComplete_natives : tracks (nativesSet c) id signalComplete.
Proof. apply tracks_sameLocals. unfold signalComplete. keeps_auto. Qed.

Lemma newRenderbuffer_natives c' store samples format width height points :
  tracks (nativesSet c) id (newRenderbuffer c' store samples format width height points).
Proof. apply tracks_sameLocals, newRenderbuffer_keeps_locals. Qed.

Lemma newTexture_natives format width height a :
  tracks (nativesSet c) id (newTexture format width height a).
Proof. apply tracks_sameLocals, newTexture_keeps_locals. Qed.

End Natives.

Ltac natives_step :=
  lazymatch goal with
  | |- tracks _ _ (mret _) => apply tracks_ret
  | |- tracks _ _ (emit _) => apply emit_natives
  | |- tracks _ _ genName => apply genName_natives
  | |- tracks _ _ (updCanvas _ _) => apply updCanvas_natives
  | |- tracks _ _ signalComplete => apply signalComplete_natives
  | |- tracks _ _ (newRenderbuffer _ _ _ _ _ _ _) => apply newRenderbuffer_natives
  | |- tracks _ _ (newTexture _ _ _ _) => apply newTexture_natives
  | |- tracks _ _ (setLocals _ _) =>
      first [ apply setLocals_color | apply setLocals_depth | apply setLocals_error ]
  | |- tracks _ _ (when _ _) => eapply tracks_when
  | |- tracks _ _ (if _ then _ else _) => eapply tracks_if
  | |- tracks _ _ (_ ≫= _) => eapply tracks_bind; [|intros ?]
  end.

Section Returned.
Context `{Native}.

Lemma createRTT_natives c cfg cf df sf d b d' :
  locals d !! c = None →
  createRTT c cfg cf df sf d = Done b d' →
  nativesSet c d' = (colorTextured cfg, depthTextured cfg, false).
Proof.
  intros Hl E.
  assert (∃ g, tracks (nativesSet c) g (createRTT c cfg cf df sf) ∧
               g (false, false, false) = (colorTextured cfg, depthTextured cfg, false))
    as (g & Hg & Hv).
  { eexists. split.
    - unfold createRTT, attachRTT. repeat natives_step.
    - unfold colorTextured, depthTextured, dsCombined. simpl.
      by destruct (isNil (Color cfg)), (ColorFormat cfg =? ZeroTexFormat),
        (isNil (Depth cfg)), (DepthFormat cfg =? ZeroDSFormat),
        (isNil (Stencil cfg)), (StencilFormat cfg =? ZeroDSFormat),
        (DepthFormat cfg =? StencilFormat cfg), (IsCombined (DepthFormat cfg)). }
  rewrite (Hg _ _ _ E), <- Hv. f_equal.
  unfold nativesSet, localsOf. by rewrite Hl.
Qed.

Lemma createRTT_keeps_pending c cfg cf df sf :
  keeps samePending (createRTT c cfg cf df sf).
Proof.
  unfold createRTT, attachRTT, newRenderbuffer, newTexture, newNativeTexture, genName,
    updCanvas, derefCanvas, setLocals, signalComplete.
  keeps_auto.
Qed.

Lemma createRTT_built c cfg cf df sf d cv :
  canvases d !! c = Some cv → locals d !! c = None →
  ∃ d' cv', createRTT c cfg cf df sf d = Done false d' ∧
    renderExec d' = renderExec d ∧
    renderComplete d' = S (renderComplete d) ∧
    pending d' = pending d ∧
    fbError (localsOf c d') = FramebufferStatus (glCheckFramebufferStatus cfg) ∧
    canvases d' !! c = Some cv' ∧
    canvasCore cv' = canvasCore cv ∧
    nativesSet c d' = (colorTextured cfg, depthTextured cfg, false).
Proof.
  intros Hc Hl.
  destruct (createRTT_run c cfg cf df sf d) as (d' & E & _ & Hq & Hs & _ & He).
  { by eapply lookup_lt_Some. }
  pose proof (createRTT_keeps_core c cfg cf df sf d _ _ E) as Hcore.
  pose proof (createRTT_keeps_pending c cfg cf df sf d _ _ E) as Hpend.
  unfold sameCore in Hcore. rewrite Hc in Hcore. simpl in Hcore.
  destruct (canvases d' !! c) as [cv'|] eqn:Hc'; [|done].
  exists d', cv'. split_and!; try done.
  - simpl in Hcore. congruence.
  - by eapply createRTT_natives.
Qed.

Lemma finishTexture_run c s native d cv :
  canvases d !! c = Some cv →
  ∃ d', finishTexture c s native d = Done tt d' ∧
        canvases d' !! c =
          Some match slotTexture s (cfg cv), native with
               | Some t, Some n =>
                   set_count (count cv + 1)
                     (set_cfg (setSlotTexture s
                        (Some {| MinFilterMipmapped := MinFilterMipmapped t;
                                 NativeTexture := Some n |}) (cfg cv)) cv)
               | _, _ => cv
               end ∧
        d' = set_canvases (canvases d') d.
Proof.
  intros Hc. unfold finishTexture.
  rewrite (bind_Done _ _ _ _ _ (derefCanvas_run c cv d Hc)).
  assert (Hd : d = set_canvases (canvases d) d) by (by destruct d).
  destruct (slotTexture s (cfg cv)) as [t|]; [|by eexists].
  destruct native as [n|]; [|by eexists].
  rewrite (updCanvas_run c cv _ d Hc). eexists. split; [done|]. split.
  - apply (lookup_updated c cv), Hc.
  - by destruct d.
Qed.

Lemma noop_run c d cv :
  canvases d !! c = Some cv →
  ∃ d', noop c d = Done (count cv =? 0) d' ∧
        canvases d' !! c =
          Some (if count cv =? 0 then set_readers (S (readers cv)) cv else cv) ∧
        d' = set_canvases (canvases d') d.
Proof.
  intros Hc. unfold noop.
  rewrite (bind_Done _ _ _ _ _ (updCanvas_run c cv _ d Hc)).
  set (cv1 := set_readers (S (readers cv)) cv).
  set (d1 := set_canvases _ d).
  assert (Hc1 : canvases d1 !! c = Some cv1) by apply (lookup_updated c cv), Hc.
  rewrite (bind_Done _ _ _ _ _ (derefCanvas_run c cv1 d1 Hc1)).
  replace (count cv1) with (count cv) by (by destruct cv).
  destruct (count cv =? 0).
  { eexists. split; [done|]. split; [done|]. unfold d1. by destruct d. }
  rewrite (bind_Done _ _ _ _ _ (updCanvas_run c cv1 _ d1 Hc1)).
  eexists. split; [done|]. split.
  - rewrite (lookup_updated c cv1 _ d1 Hc1). by destruct cv.
  - unfold d1. by destruct d.
Qed.

Lemma rttClear_empty_run c bg d cv :
  canvases d !! c = Some cv →
  ∃ d', rttClear c (Rect 0 0 0 0) bg d = Done tt d' ∧
        canvases d' !! c =
          Some (if count cv =? 0 then set_readers (S (readers cv)) cv else cv) ∧
        d' = set_canvases (canvases d') d.
Proof.
  intros Hc. destruct (noop_run c d cv Hc) as (d' & E & Hc' & Hd).
  exists d'. split; [|done]. unfold rttClear.
  rewrite (bind_Done _ _ _ _ _ E). by destruct (count cv =? 0).
Qed.

(** The canvas that [RenderToTexture] returns, and the state it leaves. *)
Lemma RenderToTexture_returns fuel cfg d :
  quiescent d → Valid cfg = true → ¬ refused d cfg →
  FramebufferStatus (glCheckFramebufferStatus cfg) = None →
  locals d !! length (canvases d) = None →
  ∃ d' cv,
    RenderToTexture (S fuel) cfg d = Done (Some (length (canvases d))) d' ∧
    canvases d' !! length (canvases d) = Some cv ∧
    count cv = Z.b2z (colorTextured cfg) + Z.b2z (depthTextured cfg) ∧
    readers cv = (if count cv =? 0 then 1%nat else 0%nat) ∧
    finishedAs (colorTextured cfg) (Color cfg) (Color (GL2.cfg cv)) ∧
    finishedAs (depthTextured cfg) (Depth cfg) (Depth (GL2.cfg cv)) ∧
    Stencil (GL2.cfg cv) = Stencil cfg ∧
    renderExec d' = [] ∧ renderComplete d' = 0%nat ∧ pending d' = pending d.
Proof.
  intros [Hq Hc] Hv Hr Hst Hl. apply not_refused in Hr as (Hf & H1 & H2 & H3).
  unfold RenderToTexture. rewrite Hv. change (negb true) with false. cbv iota.
  rewrite get_bind, Hf. change (negb true) with false. cbv iota zeta.
  rewrite H1, H2, H3.
  set (c := length (canvases d)) in *.
  set (cv := {| GL2.cfg := cfg; VBounds := Bounds cfg; fbo := 0; rbColor := 0;
         rbDepth := 0; rbStencil := 0; rbDepthAndStencil := 0; count := 0;
         readers := 0%nat |}).
  set (d1 := set_canvases (canvases d ++ [cv]) d).
  assert (E1 : newCanvas cfg d = Done c d1) by done.
  rewrite (bind_Done _ _ _ _ _ E1).
  set (f := OpCreateRTT c cfg _ _ _).
  set (d2 := set_renderExec (renderExec d1 ++ [f]) d1).
  assert (E2 : send f d1 = Done tt d2) by done.
  rewrite (bind_Done _ _ _ _ _ E2).
  destruct (createRTT_built c cfg (default 0 (rttTexFormats d !! ColorFormat cfg))
              (default 0 (rttDSFormats d !! DepthFormat cfg))
              (default 0 (rttDSFormats d !! StencilFormat cfg))
              (set_renderExec [] d2) cv)
    as (d3 & cv3 & E3 & Hq3 & Hc3 & Hp3 & He3 & Hv3 & Hcore & Hn).
  { unfold c. destruct d; simpl. by apply list_lookup_middle. }
  { by destruct d. }
  assert (E4 : awaitComplete (S fuel) d2 = Done tt (set_renderComplete 0 d3)).
  { apply awaitComplete_single with (f := f).
    - by destruct d.
    - destruct d; simpl in *. by rewrite Hq.
    - destruct fuel; exact E3.
    - rewrite Hc3. destruct d; simpl in *. by rewrite Hc. }
  rewrite (bind_Done _ _ _ _ _ E4). rewrite get_bind.
  replace (locals (set_renderComplete 0%nat d3)) with (locals d3) by (by destruct d3).
  cbv zeta. fold (localsOf c d3). rewrite He3, Hst.
  set (d4 := set_renderComplete 0 d3).
  assert (Hv4 : canvases d4 !! c = Some cv3) by (by destruct d3).
  unfold nativesSet, nativesOf in Hn. injection Hn as Hn1 Hn2 Hn3.
  unfold canvasCore in Hcore. injection Hcore as Hk1 Hk2 Hk3 Hk4. simpl in *.
  destruct (finishTexture_run c SlotColor (nTexColor (localsOf c d3)) d4 cv3 Hv4)
    as (d5 & E5 & Hv5 & D5).
  rewrite (bind_Done _ _ _ _ _ E5).
  destruct (finishTexture_run c SlotDepth (nTexDepth (localsOf c d3)) d5 _ Hv5)
    as (d6 & E6 & Hv6 & D6).
  rewrite (bind_Done _ _ _ _ _ E6).
  destruct (finishTexture_run c SlotStencil (nTexStencil (localsOf c d3)) d6 _ Hv6)
    as (d7 & E7 & Hv7 & D7).
  rewrite (bind_Done _ _ _ _ _ E7).
  destruct (rttClear_empty_run c
              {| R := f32_zero; G := f32_zero; B := f32_zero; A := f32_one |} d7 _ Hv7)
    as (d8 & E8 & Hv8 & D8).
  rewrite (bind_Done _ _ _ _ _ E8).
  unfold rttClearDepth, hookedClearDepth, rttClearStencil, hookedClearStencil.
  change (Empty (Rect 0 0 0 0)) with true. cbv iota.
  eexists d8, _. split; [reflexivity|]. split; [exact Hv8|].
  assert (Hframe : renderExec d8 = [] ∧ renderComplete d8 = 0%nat ∧
                   pending d8 = pending d).
  { rewrite D8, D7, D6, D5. unfold d4. clear - Hq3 Hp3.
    destruct d3, d; simpl in *. by subst. }
  clear E5 E6 E7 E8 Hv5 Hv6 Hv7 Hv8 E4 E3 E2 E1 D5 D6 D7 D8.
  assert (HC : colorTextured cfg = true → ∃ t, Color cfg = Some t).
  { unfold colorTextured. destruct (Color cfg); [eauto|done]. }
  assert (HD : depthTextured cfg = true → ∃ t, Depth cfg = Some t).
  { unfold depthTextured. destruct (Depth cfg); [eauto|].
    by destruct (dsCombined cfg). }
  destruct (nTexStencil (localsOf c d3)); [done|].
  destruct cv3 as [cfg3 vb3 ? ? ? ? ? cnt3 rd3]; simpl in *. subst cfg3 cnt3 rd3.
  unfold finishedAs.
  destruct (nTexColor (localsOf c d3)) as [n1|], (nTexDepth (localsOf c d3)) as [n2|],
    (colorTextured cfg), (depthTextured cfg); try done;
    try (destruct (HC eq_refl) as [tc HC']); try (destruct (HD eq_refl) as [td HD']);
    destruct (Color cfg) eqn:EC, (Depth cfg) eqn:ED, (Stencil cfg) eqn:ES;
    simplify_eq; repeat (progress (simpl; rewrite ?EC, ?ED, ?ES));
    destruct Hframe as (? & ? & ?);
    split_and!; try done; do 2 eexists; done.
Qed.


(** X12: with the queue empty, a valid configuration that is not refused
    and a complete framebuffer, [RenderToTexture] returns a new canvas whose
    texture count is the number of native textures the closure created: one
    for the colour texture when there is one and the colour format is not
    zero, one for the depth texture when there is one, the depth format is
    not zero and the formats are not one combined format.  Those textures
    hold their native texture, the others, and the stencil texture always,
    are left as given; a canvas with count zero is returned with one read
    lock held, from its first [Clear]. *)
Theorem RenderToTexture_canvas fuel cfg d :
  quiescent d → Valid cfg = true → ¬ refused d cfg →
  FramebufferStatus (glCheckFramebufferStatus cfg) = None →
  locals d !! length (canvases d) = None →
  ∃ d' cv,
    RenderToTexture (S fuel) cfg d = Done (Some (length (canvases d))) d' ∧
    canvases d' !! length (canvases d) = Some cv ∧
    count cv = Z.b2z (colorTextured cfg) + Z.b2z (depthTextured cfg) ∧
    readers cv = (if count cv =? 0 then 1%nat else 0%nat) ∧
    finishedAs (colorTextured cfg) (Color cfg) (Color (GL2.cfg cv)) ∧
    finishedAs (depthTextured cfg) (Depth cfg) (Depth (GL2.cfg cv)) ∧
    Stencil (GL2.cfg cv) = Stencil cfg.
Proof.
  intros Hq Hv Hr Hst Hl.
  destruct (RenderToTexture_returns fuel cfg d Hq Hv Hr Hst Hl)
    as (d' & cv & E & Hc & H1 & H2 & H3 & H4 & H5 & _).
  exists d', cv. by split_and!.
Qed.

End Returned.

(** ** [Render] through a canvas that [RenderToTexture] has just returned *)

Section Mipmaps.
Context `{Native}.

Lemma bind_Panic {A B} (m : M A) (k : A → M B) d msg :
  m d = Panic msg → (m ≫= k) d = Panic msg.
Proof. intros E. unfold mbind, M_bind. by rewrite E. Qed.

Lemma genMipmap_unloaded t d :
  unloadedMipmap t = true →
  genMipmap t d =
    Panic "interface conversion: gfx.NativeTexture is nil, not *gl2.nativeTexture".
Proof.
  destruct t as [t|]; [|done]. simpl. intros [Hm Hn]%andb_prop.
  rewrite Hm. simpl. by destruct (NativeTexture t).
Qed.

Lemma genMipmap_loaded t d :
  unloadedMipmap t = false →
  ∃ tr, genMipmap t d = Done tt (set_trace (trace d ++ tr) d).
Proof.
  destruct t as [t|]; simpl.
  2:{ exists []. rewrite app_nil_r. by destruct d. }
  destruct (MinFilterMipmapped t); simpl.
  2:{ exists []. rewrite app_nil_r. by destruct d. }
  destruct (NativeTexture t) as [n|]; [|done]. intros _.
  exists [GlBindTexture n; GlGenerateMipmap].
  unfold emit, modify, mbind, M_bind. simpl. destruct d; simpl.
  by rewrite <- app_assoc.
Qed.

Lemma rttMipmaps_panics c cv d :
  canvases d !! c = Some cv →
  unloadedMipmap (Color (cfg cv)) || unloadedMipmap (Depth (cfg cv)) ||
    unloadedMipmap (Stencil (cfg cv)) = true →
  rttMipmaps c d =
    Panic "interface conversion: gfx.NativeTexture is nil, not *gl2.nativeTexture".
Proof.
  intros Hc Hu. unfold rttMipmaps.
  rewrite (bind_Done _ _ _ _ _ (derefCanvas_run c cv d Hc)).
  destruct (unloadedMipmap (Color (cfg cv))) eqn:H1.
  { apply bind_Panic. by apply genMipmap_unloaded. }
  destruct (genMipmap_loaded _ d H1) as [tr1 E1]. rewrite (bind_Done _ _ _ _ _ E1).
  destruct (unloadedMipmap (Depth (cfg cv))) eqn:H2.
  { apply bind_Panic. by apply genMipmap_unloaded. }
  destruct (genMipmap_loaded _ (set_trace (trace d ++ tr1) d) H2) as [tr2 E2].
  rewrite (bind_Done _ _ _ _ _ E2).
  apply bind_Panic. by apply genMipmap_unloaded.
Qed.

(** The closure of [rttCanvas.Render], run on an idle device. *)
Lemma exec_rttRender_panics fuel c cv d :
  canvases d !! c = Some cv → renderExec d = [] → pending d = [] →
  unloadedMipmap (Color (cfg cv)) || unloadedMipmap (Depth (cfg cv)) ||
    unloadedMipmap (Stencil (cfg cv)) = true →
  exec (S fuel) (OpRender HookNil (HookMipmaps c)) d =
    Panic "interface conversion: gfx.NativeTexture is nil, not *gl2.nativeTexture".
Proof.
  intros Hc Hq Hp Hu. rewrite exec_Render_S.
  rewrite (bind_Done _ _ _ _ _ (freePending_run d)).
  set (d1 := set_rsrc _ _).
  change (runHook HookNil) with (mret tt : M unit).
  erewrite bind_Done by reflexivity.
  assert (E3 : drain (exec fuel) (S fuel) 0 d1 = Done tt d1).
  { simpl. rewrite get_bind. unfold d1. destruct d; simpl in *. by rewrite Hq. }
  rewrite (bind_Done _ _ _ _ _ E3).
  erewrite bind_Done by reflexivity.
  set (d2 := set_trace _ d1).
  destruct (queryWait_nothing fuel d2) as (d3 & E5 & _ & _ & Hu3 & _).
  { unfold d2, d1. by destruct d. }
  rewrite (bind_Done _ _ _ _ _ E5).
  apply bind_Panic. apply (rttMipmaps_panics c cv); [|done].
  destruct Hu3 as (_ & _ & _ & _ & ->). unfold d2, d1. by destruct d.
Qed.

(** X25: [RenderToTexture] leaves alone the stencil texture of the
    configuration, and the colour or depth texture that its closure does not
    create.  If one of them has a mipmapped minification filter and no
    native texture, the canvas comes back all the same, and the first
    [Render] through it panics on the device thread, in the type assertion
    of the closure that generates the mipmaps. *)
Theorem Render_of_new_canvas_panics fuel fuel' cfg d :
  quiescent d → Valid cfg = true → ¬ refused d cfg →
  FramebufferStatus (glCheckFramebufferStatus cfg) = None →
  locals d !! length (canvases d) = None →
  pending d = [] →
  leavesUnloadedMipmap cfg = true →
  ∃ d', RenderToTexture (S fuel) cfg d = Done (Some (length (canvases d))) d' ∧
        rttRender (S (S fuel')) (length (canvases d)) d' =
          Panic "interface conversion: gfx.NativeTexture is nil, not *gl2.nativeTexture".
Proof.
  intros Hq Hv Hr Hst Hl Hp Hu.
  destruct (RenderToTexture_returns fuel cfg d Hq Hv Hr Hst Hl)
    as (d' & cv & E & Hc & _ & _ & HC & HD & HS & Hq' & Hc' & Hp').
  exists d'. split; [done|].
  assert (Hcv : unloadedMipmap (Color (GL2.cfg cv)) || unloadedMipmap (Depth (GL2.cfg cv)) ||
                  unloadedMipmap (Stencil (GL2.cfg cv)) = true).
  { unfold leavesUnloadedMipmap in Hu.
    apply orb_prop in Hu as [[Hu|Hu]%orb_prop|Hu].
    - apply andb_prop in Hu as [Hn%negb_true_iff Hu]. rewrite Hn in HC.
      unfold finishedAs in HC. by rewrite HC, Hu.
    - apply andb_prop in Hu as [Hn%negb_true_iff Hu]. rewrite Hn in HD.
      unfold finishedAs in HD. rewrite HD, Hu. by rewrite orb_true_r.
    - rewrite HS, Hu. by rewrite orb_true_r. }
  unfold rttRender, hookedRender.
  erewrite bind_Done by reflexivity.
  rewrite (awaitComplete_S _ (OpRender HookNil (HookMipmaps (length (canvases d)))) []).
  - apply bind_Panic. apply (exec_rttRender_panics _ _ cv); try done;
      destruct d'; simpl in *; congruence.
  - destruct d'; simpl in *; congruence.
  - destruct d'; simpl in *. by subst.
Qed.

End Mipmaps.


(** ** A clear through a canvas *)

Section CanvasFrame.
Context `{Native}.

Lemma freePendingTrace_target r : List.filter targetEvent (freePendingTrace r) = [].
Proof.
  unfold freePendingTrace. rewrite !List.filter_app.
  assert (Hmap : ∀ {A} (f : A → event) (l : list A),
            (∀ x, targetEvent (f x) = false) → List.filter targetEvent (map f l) = []).
  { intros A f l Hf. induction l as [|x l IH]; simpl; [done|]. by rewrite Hf. }
  rewrite !Hmap by done.
  by destruct (textures r), (fbos r), (renderbuffers r).
Qed.

(** The closure of the device's [Render], run with nothing queued behind it
    and no query pending: what it records. *)
Lemma exec_Render_idle_trace fuel d :
  renderExec d = [] → pending d = [] → rttCanvasPtr d = None →
  ∃ d', exec (S fuel) (OpRender HookNil HookNil) d = Done true d' ∧
        renderExec d' = [] ∧ renderComplete d' = S (renderComplete d) ∧
        canvases d' = canvases d ∧
        trace d' = trace d ++ freePendingTrace (rsrc d) ++ [GlFlush; EvClockTick].
Proof.
  intros Hq Hp Hc. rewrite exec_Render_S.
  remember (freePendingTrace (rsrc d)) as ft eqn:Hft.
  rewrite (bind_Done _ _ _ _ _ (freePending_run d)). rewrite <- Hft. clear Hft.
  erewrite bind_Done by reflexivity.
  erewrite bind_Done.
  2:{ simpl. rewrite get_bind. replace (renderExec _) with (@nil op) by (by destruct d).
      reflexivity. }
  erewrite bind_Done by reflexivity.
  match goal with |- ∃ d', (queryWait _ ≫= _) ?d0 = _ ∧ _ =>
    destruct (queryWait_nothing fuel d0) as (d1 & E1 & Hp1 & Ht1 & (Q1&C1&K1&P1&V1) & R1);
      [by destruct d|]
  end.
  rewrite (bind_Done _ _ _ _ _ E1).
  erewrite bind_Done by reflexivity.
  rewrite get_bind.
  replace (rttCanvasPtr d1) with (@None nat) by (rewrite P1; by destruct d).
  eexists. split; [reflexivity|].
  unfold clockTick, signalComplete, emit, modify, mbind, M_bind. simpl.
  rewrite Ht1, Q1, C1, V1.
  split_and!; [by destruct d..|].
  destruct d; simpl. by rewrite <- !app_assoc.
Qed.


(** A closure of [rttCanvas.Clear], run with no query pending. *)
Lemma exec_rttClear_run fuel c cv rect bg d :
  canvases d !! c = Some cv → pending d = [] →
  ∃ d', exec fuel (OpClear rect bg (HookRttBegin c) (HookRttEnd c)) d = Done false d' ∧
        renderExec d' = renderExec d ∧ renderComplete d' = renderComplete d ∧
        canvases d' = canvases d ∧ pending d' = [] ∧ rttCanvasPtr d' = None ∧
        rsrc d' = rsrc d ∧
        trace d' = trace d ++
          [GlBindFramebuffer (fbo cv); GsBegin; GsColorWrite;
           GsScissor (VBounds cv) rect; GsClearColor bg; GlClear COLOR_BUFFER_BIT;
           GlBindFramebuffer 0].
Proof.
  intros Hc Hp.
  replace (exec fuel (OpClear rect bg (HookRttBegin c) (HookRttEnd c)))
    with (exec 0 (OpClear rect bg (HookRttBegin c) (HookRttEnd c))) by (by destruct fuel).
  cbn [exec runHook].
  rewrite (bind_Done _ _ _ _ _ (rttBegin_run c cv d Hc)).
  do 2 (erewrite bind_Done by reflexivity).
  erewrite bind_Done.
  2:{ apply (performScissor_run c cv); [by destruct d|by destruct d]. }
  do 2 (erewrite bind_Done by reflexivity).
  match goal with |- ∃ d', (queryYield ≫= _) ?d0 = _ ∧ _ =>
    destruct (queryYield_nothing d0) as (d1 & E1 & Hq1 & Ht1 & (Q1&C1&K1&P1&V1) & _ & R1);
      [by destruct d|]
  end.
  rewrite (bind_Done _ _ _ _ _ E1).
  assert (Hc1 : canvases d1 !! c = Some cv) by (rewrite V1; by destruct d).
  rewrite (bind_Done _ _ _ _ _ (rttEnd_run c cv d1 Hc1)).
  eexists. split; [reflexivity|]. simpl.
  rewrite Ht1, Q1, C1, V1, R1, Hq1. destruct d; simpl in *.
  split_and!; try done. by rewrite <- !app_assoc.
Qed.

(** [noop] on a canvas that has a texture left: the read lock is taken and
    released. *)
Lemma noop_live c cv d :
  canvases d !! c = Some cv → count cv ≠ 0 → noop c d = Done false d.
Proof.
  intros Hc Hn. unfold noop.
  rewrite (bind_Done _ _ _ _ _ (updCanvas_run c cv _ d Hc)).
  set (cv1 := set_readers (S (readers cv)) cv).
  set (d1 := set_canvases _ d).
  assert (Hc1 : canvases d1 !! c = Some cv1) by apply (lookup_updated c cv), Hc.
  rewrite (bind_Done _ _ _ _ _ (derefCanvas_run c cv1 d1 Hc1)).
  replace (count cv1) with (count cv) by (by destruct cv).
  destruct (Z.eqb_spec (count cv) 0) as [?|_]; [done|].
  rewrite (bind_Done _ _ _ _ _ (updCanvas_run c cv1 _ d1 Hc1)).
  unfold mret, M_ret. f_equal.
  unfold d1, cv1. destruct d, cv; simpl in *.
  rewrite list_insert_insert_eq, list_insert_id; done.
Qed.

(** X26: [Clear] through a canvas that has a texture left, for a rectangle
    that is not empty, followed by [Render] of the device, with the device
    thread idle: the clear is made with the framebuffer of the canvas bound
    and the scissor set against the bounds of the canvas, framebuffer 0 is
    bound again, and then the frame is presented.  The canvas is as before:
    the read lock that [noop] took is released. *)
Theorem rttClear_then_Render_frame fuel c cv rect bg d :
  quiescent d → rttCanvasPtr d = None → pending d = [] →
  canvases d !! c = Some cv → count cv ≠ 0 → Empty rect = false → (3 ≤ fuel)%nat →
  ∃ d', (rttClear c rect bg ;; Render fuel) d = Done tt d' ∧
        quiescent d' ∧ canvases d' = canvases d ∧
        List.filter targetEvent (trace d') =
          List.filter targetEvent (trace d) ++
          [GlBindFramebuffer (fbo cv); GsScissor (VBounds cv) rect;
           GlClear COLOR_BUFFER_BIT; GlBindFramebuffer 0; EvClockTick; EvSwapBuffers].
Proof.
  intros [Hq Hs] Hp Hn Hc Hcount He Hfuel.
  destruct fuel as [|[|[|fuel]]]; try lia.
  set (f := OpClear rect bg (HookRttBegin c) (HookRttEnd c)).
  assert (E1 : rttClear c rect bg d = Done tt (set_renderExec (renderExec d ++ [f]) d)).
  { unfold rttClear. rewrite (bind_Done _ _ _ _ _ (noop_live c cv d Hc Hcount)).
    unfold hookedClear. by rewrite He. }
  rewrite (bind_Done _ _ _ _ _ E1). unfold Render, hookedRender.
  erewrite bind_Done by reflexivity.
  set (d2 := set_renderExec _ (set_renderExec _ d)).
  rewrite (awaitComplete_S _ f [OpRender HookNil HookNil]);
    [|by destruct d|destruct d; simpl in *; by subst].
  destruct (exec_rttClear_run (S (S fuel)) c cv rect bg
              (set_renderExec [OpRender HookNil HookNil] d2))
    as (d3 & E3 & Q3 & S3 & V3 & P3 & K3 & R3 & T3); [by destruct d..|].
  rewrite (bind_Done _ _ _ _ _ E3). cbn [when]. erewrite bind_Done by reflexivity.
  rewrite (awaitComplete_S _ (OpRender HookNil HookNil) []);
    [|rewrite S3; by destruct d|rewrite Q3; by destruct d].
  destruct (exec_Render_idle_trace fuel (set_renderExec [] d3))
    as (d4 & E4 & Q4 & S4 & V4 & T4); [by destruct d3..|].
  rewrite (bind_Done _ _ _ _ _ E4). cbn [when]. erewrite bind_Done by reflexivity.
  rewrite awaitComplete_signalled with (n := 0%nat).
  2:{ destruct d4; simpl in *. rewrite S4. destruct d3; simpl in *. rewrite S3.
      destruct d; simpl in *. by rewrite Hs. }
  eexists. split; [reflexivity|]. split_and!.
  - split; [destruct d4; simpl in *; by subst|by destruct d4].
  - destruct d4; simpl in *. rewrite V4. destruct d3; simpl in *. rewrite V3.
    by destruct d.
  - replace (trace (set_renderComplete 0%nat (set_trace (trace d4 ++ [EvSwapBuffers]) d4)))
      with (trace d4 ++ [EvSwapBuffers]) by (by destruct d4).
    rewrite T4. replace (trace (set_renderExec [] d3)) with (trace d3) by (by destruct d3).
    replace (rsrc (set_renderExec [] d3)) with (rsrc d3) by (by destruct d3).
    rewrite T3. replace (trace (set_renderExec _ d2)) with (trace d) by (by destruct d).
    rewrite !List.filter_app, freePendingTrace_target. simpl.
    by rewrite <- !app_assoc.
Qed.


End CanvasFrame.

(** A configuration none of whose textures is created: the canvas comes
    back with count zero. *)
Lemma RenderToTexture_canvas_witness :
  ∃ d' cv,
    @RenderToTexture exampleNative 1 exampleStencilConfig exampleDevice =
      Done (Some (length (canvases exampleDevice))) d' ∧
    canvases d' !! length (canvases exampleDevice) = Some cv ∧
    count cv = Z.b2z (colorTextured exampleStencilConfig) +
               Z.b2z (depthTextured (H:=exampleNative) exampleStencilConfig) ∧
    readers cv = (if count cv =? 0 then 1%nat else 0%nat) ∧
    finishedAs (colorTextured exampleStencilConfig)
      (Color exampleStencilConfig) (Color (cfg cv)) ∧
    finishedAs (depthTextured (H:=exampleNative) exampleStencilConfig)
      (Depth exampleStencilConfig) (Depth (cfg cv)) ∧
    Stencil (cfg cv) = Stencil exampleStencilConfig.
Proof.
  apply (RenderToTexture_canvas (H:=exampleNative) 0 exampleStencilConfig exampleDevice).
  - split; reflexivity.
  - reflexivity.
  - intros [?|[[? ?]|[[? ?]|[? ?]]]]; discriminate.
  - reflexivity.
  - reflexivity.
Defined.

Example texture_less_canvas :
  ∃ d' cv,
    @RenderToTexture exampleNative 1 exampleStencilConfig exampleDevice =
      Done (Some 0%nat) d' ∧
    canvases d' !! 0%nat = Some cv ∧ count cv = 0 ∧ readers cv = 1%nat ∧
    cfg cv = exampleStencilConfig.
Proof. eexists _, _. split_and!; vm_compute; reflexivity. Qed.

(** The stencil texture of [exampleMipmapConfig] is never given a native
    texture. *)
Lemma Render_of_new_canvas_panics_witness :
  ∃ d', @RenderToTexture exampleNative 1 exampleMipmapConfig exampleDevice =
          Done (Some (length (canvases exampleDevice))) d' ∧
        @rttRender exampleNative 2 (length (canvases exampleDevice)) d' =
          Panic "interface conversion: gfx.NativeTexture is nil, not *gl2.nativeTexture".
Proof.
  apply (Render_of_new_canvas_panics (H:=exampleNative) 0 0 exampleMipmapConfig
           exampleDevice).
  - split; reflexivity.
  - reflexivity.
  - intros [?|[[? ?]|[[? ?]|[? ?]]]]; discriminate.
  - reflexivity.
  - reflexivity.
  - reflexivity.
  - reflexivity.
Defined.

(** A clear through canvas 0 of [exampleCanvasDevice]. *)
Lemma rttClear_then_Render_frame_witness :
  ∃ d', (@rttClear 0 (Rect 0 0 100 100) red ;; @Render exampleNative 3)
          exampleCanvasDevice = Done tt d' ∧
        quiescent d' ∧ canvases d' = canvases exampleCanvasDevice ∧
        List.filter targetEvent (trace d') =
          List.filter targetEvent (trace exampleCanvasDevice) ++
          [GlBindFramebuffer (fbo exampleCanvas);
           GsScissor (VBounds exampleCanvas) (Rect 0 0 100 100);
           GlClear COLOR_BUFFER_BIT; GlBindFramebuffer 0; EvClockTick; EvSwapBuffers].
Proof.
  apply (rttClear_then_Render_frame (H:=exampleNative) 3 0 exampleCanvas
           (Rect 0 0 100 100) red exampleCanvasDevice); done.
Defined.

(** * Further properties of [util.PreDraw] *)

Section PreDrawEffects.

Import Util.

Context `{Device}.

Lemma loadMeshes_spec ms :
  match loadMeshes ms with
  | (None, r) => forallb meshOk ms = true ∧ r = map afterLoadMesh ms
  | (Some e, r) =>
      e = ErrNoVertices ∧
      ∃ ms1 m ms2, ms = ms1 ++ m :: ms2 ∧ forallb meshOk ms1 = true ∧
        needsLoad m = true ∧ Vertices m = [] ∧
        r = map afterLoadMesh ms1 ++ m :: ms2
  end.
Proof.
  induction ms as [|m ms IH]; [done|].
  assert (Hcons : ∀ ms1, needsLoad m = false ∨ Vertices m ≠ [] →
            forallb meshOk (m :: ms1) = forallb meshOk ms1).
  { intros ms1 Hm. simpl. unfold meshOk at 1.
    destruct Hm as [->|Hv]; [done|]. destruct (Vertices m); [done|].
    by rewrite orb_true_r. }
  cbn [loadMeshes]. unfold needsLoad in Hcons. unfold afterLoadMesh, needsLoad.
  cbn [map]. fold (afterLoadMesh).
  destruct (MeshLoaded m && negb (HasChanged m)) eqn:Hm; cbn [negb].
  - destruct (loadMeshes ms) as [[e|] r].
    + destruct IH as (-> & ms1 & m' & ms2 & -> & H1 & Hn & Hv & ->). split; [done|].
      exists (m :: ms1), m', ms2. rewrite Hcons by (by left).
      split_and!; try done. cbn [map]. unfold afterLoadMesh at 1, needsLoad.
      by rewrite Hm.
    + destruct IH as [<- ->]. split; [|done]. apply Hcons. by left.
  - destruct (Vertices m) as [|v vs] eqn:Hv; cbn [length Nat.eqb].
    + split; [done|]. exists [], m, ms. unfold needsLoad. by rewrite Hm.
    + destruct (loadMeshes ms) as [[e|] r].
      * destruct IH as (-> & ms1 & m' & ms2 & -> & H1 & Hn & Hv' & ->). split; [done|].
        exists (m :: ms1), m', ms2. rewrite Hcons by (by right).
        split_and!; try done. cbn [map]. unfold afterLoadMesh at 1, needsLoad.
        by rewrite Hm.
      * destruct IH as [<- ->]. split; [|done]. apply Hcons. by right.
Qed.

Lemma loadTextures_spec ts :
  match loadTextures ts with
  | (None, r) => forallb textureOk ts = true ∧ r = map afterLoadTexture ts
  | (Some e, r) =>
      e = ErrNilSource ∧
      ∃ ts1 t ts2, ts = ts1 ++ t :: ts2 ∧ forallb textureOk ts1 = true ∧
        TextureLoaded t = false ∧ Source t = None ∧
        r = map afterLoadTexture ts1 ++ t :: ts2
  end.
Proof.
  induction ts as [|t ts IH]; [done|].
  assert (Hcons : ∀ ts1, TextureLoaded t = true ∨ Source t ≠ None →
            forallb textureOk (t :: ts1) = forallb textureOk ts1).
  { intros ts1 Ht. simpl. unfold textureOk at 1.
    destruct Ht as [->|Hs]; [done|]. destruct (Source t); [|done].
    by rewrite orb_true_r. }
  assert (Hmap : ∀ ts1, TextureLoaded t = true →
            map afterLoadTexture (t :: ts1) = t :: map afterLoadTexture ts1).
  { intros ts1 Ht. cbn [map]. unfold afterLoadTexture at 1. by rewrite Ht. }
  assert (Hmap' : ∀ ts1, TextureLoaded t = false →
            map afterLoadTexture (t :: ts1) = LoadTexture t :: map afterLoadTexture ts1).
  { intros ts1 Ht. cbn [map]. unfold afterLoadTexture at 1. by rewrite Ht. }
  cbn [loadTextures].
  destruct (TextureLoaded t) eqn:Ht.
  - destruct (loadTextures ts) as [[e|] r].
    + destruct IH as (-> & ts1 & t' & ts2 & -> & H1 & Hn & Hv & ->). split; [done|].
      exists (t :: ts1), t', ts2. rewrite Hcons by (by left).
      split_and!; try done. by rewrite Hmap.
    + destruct IH as [<- ->]. split; [apply Hcons; by left|by rewrite Hmap].
  - destruct (Source t) as [src|] eqn:Hs; cbn [isNil].
    + destruct (loadTextures ts) as [[e|] r].
      * destruct IH as (-> & ts1 & t' & ts2 & -> & H1 & Hn & Hv' & ->). split; [done|].
        exists (t :: ts1), t', ts2. rewrite Hcons by (by right).
        split_and!; try done. by rewrite Hmap'.
      * destruct IH as [<- ->]. split; [apply Hcons; by right|by rewrite Hmap'].
    + split; [done|]. by exists [], t, ts.
Qed.

Lemma no_error_iff (s : string) : (0 <? String.length s)%nat = false ↔ s = "".
Proof. by destruct s. Qed.

Lemma no_meshes_iff (ms : list Mesh) : (length ms =? 0)%nat = false ↔ ms ≠ [].
Proof. by destruct ms. Qed.

(** What [PreDraw] returns, by the checks that the object passes. *)
Lemma PreDraw_cases rect o :
  Empty rect = false →
  (¬ drawable o ∧ ∃ e, PreDraw rect o = (false, Some e, o) ∧
     e ∈ [ErrNilState; ErrNilShader; ErrShaderError; ErrNoMeshes]) ∨
  (drawable o ∧ ∃ shader, ObjShader o = Some shader ∧
   ((∃ ms1 m ms2, Meshes o = ms1 ++ m :: ms2 ∧ forallb meshOk ms1 = true ∧
       needsLoad m = true ∧ Vertices m = [] ∧
       PreDraw rect o =
         (false, Some ErrNoVertices,
          {| ObjState := ObjState o; ObjShader := Some (loadedShader shader);
             Meshes := map afterLoadMesh ms1 ++ m :: ms2;
             Textures := Textures o |})) ∨
    (forallb meshOk (Meshes o) = true ∧
     ∃ ts1 t ts2, Textures o = ts1 ++ t :: ts2 ∧ forallb textureOk ts1 = true ∧
       TextureLoaded t = false ∧ Source t = None ∧
       PreDraw rect o =
         (false, Some ErrNilSource,
          {| ObjState := ObjState o; ObjShader := Some (loadedShader shader);
             Meshes := map afterLoadMesh (Meshes o);
             Textures := map afterLoadTexture ts1 ++ t :: ts2 |})) ∨
    (forallb meshOk (Meshes o) = true ∧ forallb textureOk (Textures o) = true ∧
     PreDraw rect o =
       if bool_decide (Error (loadedShader shader) = "")
       then (true, None, afterLoad o)
       else (false, Some ErrShaderError, afterLoad o)))).
Proof.
  intros He. unfold PreDraw, drawable. rewrite He.
  destruct (ObjState o) as [st|] eqn:Hs.
  2:{ left. split; [by intros [? _]|]. eexists. split; [done|]. set_solver. }
  destruct (ObjShader o) as [shader|] eqn:Hsh.
  2:{ left. split; [by intros (_ & (? & ? & _) & _)|]. eexists. split; [done|].
      set_solver. }
  destruct (0 <? String.length (Error shader))%nat eqn:Herr.
  { left. split.
    - intros (_ & (? & [= <-] & E) & _). apply no_error_iff in E. congruence.
    - eexists. split; [done|]. set_solver. }
  apply no_error_iff in Herr.
  destruct (length (Meshes o) =? 0)%nat eqn:Hm.
  { left. split.
    - intros (_ & _ & Hne). apply no_meshes_iff in Hne. congruence.
    - eexists. split; [done|]. set_solver. }
  apply no_meshes_iff in Hm.
  right. split; [split_and!; [done| by eexists|done]|].
  exists shader. split; [done|].
  fold (loadedShader shader).
  pose proof (loadMeshes_spec (Meshes o)) as HM.
  destruct (loadMeshes (Meshes o)) as [[e|] ms].
  { left. destruct HM as (-> & ms1 & m & ms2 & E & H1 & Hn & Hv & ->).
    exists ms1, m, ms2. by split_and!. }
  destruct HM as [HM ->]. right.
  pose proof (loadTextures_spec (Textures o)) as HT.
  destruct (loadTextures (Textures o)) as [[e|] ts].
  { left. destruct HT as (-> & ts1 & t & ts2 & E & H1 & Hn & Hv & ->).
    split; [done|]. exists ts1, t, ts2. by split_and!. }
  destruct HT as [HT ->]. right. split_and!; try done.
  unfold afterLoad. rewrite Hs, Hsh. simpl.
  destruct (0 <? String.length (Error (loadedShader shader)))%nat eqn:Herr'.
  - rewrite bool_decide_eq_false_2; [done|].
    intros E. apply no_error_iff in E. congruence.
  - apply no_error_iff in Herr'. by rewrite bool_decide_eq_true_2.
Qed.

Lemma PreDraw_empty rect o : Empty rect = true → PreDraw rect o = (false, None, o).
Proof. intros He. unfold PreDraw. by rewrite He. Qed.

(** A call that says to draw. *)
Lemma PreDraw_true_inv rect o e o' :
  PreDraw rect o = (true, e, o') →
  Empty rect = false ∧ drawable o ∧
  forallb meshOk (Meshes o) = true ∧ forallb textureOk (Textures o) = true ∧
  (∃ shader, ObjShader o = Some shader ∧ Error (loadedShader shader) = "") ∧
  e = None ∧ o' = afterLoad o.
Proof.
  intros E. destruct (Empty rect) eqn:He.
  { by rewrite PreDraw_empty in E. }
  destruct (PreDraw_cases rect o He)
    as [(_ & e' & E' & _)|(Hd & shader & Hsh & [Hc|[Hc|Hc]])].
  - congruence.
  - destruct Hc as (? & ? & ? & _ & _ & _ & _ & E'). congruence.
  - destruct Hc as (_ & ? & ? & ? & _ & _ & _ & _ & E'). congruence.
  - destruct Hc as (HM & HT & E'). rewrite E' in E.
    case_bool_decide as Herr; [|done]. injection E as <- <-.
    split_and!; try done. by exists shader.
Qed.

Lemma PreDraw_accepts rect o shader :
  Empty rect = false → drawable o →
  forallb meshOk (Meshes o) = true → forallb textureOk (Textures o) = true →
  ObjShader o = Some shader → Error (loadedShader shader) = "" →
  PreDraw rect o = (true, None, afterLoad o).
Proof.
  intros He Hd HM HT Hsh Herr.
  destruct (PreDraw_cases rect o He)
    as [(Hn & _)|(_ & shader' & Hsh' & [Hc|[Hc|Hc]])]; [done|..].
  - destruct Hc as (ms1 & m & ms2 & E & H1 & Hn & Hv & _). exfalso.
    rewrite E, forallb_app in HM. apply andb_prop in HM as [_ HM]. simpl in HM.
    apply andb_prop in HM as [HM _]. unfold meshOk in HM. by rewrite Hn, Hv in HM.
  - destruct Hc as (_ & ts1 & t & ts2 & E & H1 & Hn & Hv & _). exfalso.
    rewrite E, forallb_app in HT. apply andb_prop in HT as [_ HT]. simpl in HT.
    apply andb_prop in HT as [HT _]. unfold textureOk in HT. by rewrite Hn, Hv in HT.
  - destruct Hc as (_ & _ & ->). assert (shader' = shader) as -> by congruence.
    by rewrite bool_decide_eq_true_2.
Qed.

(** X13: [PreDraw] returns [draw = false] without an error exactly when
    the rectangle is empty, and it has then loaded nothing: a shader with a
    compiler error always comes with [ErrShaderError]. *)
Theorem PreDraw_silent_iff_empty rect o o' :
  PreDraw rect o = (false, None, o') ↔ Empty rect = true ∧ o' = o.
Proof.
  split.
  - intros E. destruct (Empty rect) eqn:He.
    { rewrite PreDraw_empty in E by done. by injection E. }
    destruct (PreDraw_cases rect o He)
      as [(_ & e' & E' & _)|(Hd & shader & Hsh & [Hc|[Hc|Hc]])].
    + congruence.
    + destruct Hc as (? & ? & ? & _ & _ & _ & _ & E'). congruence.
    + destruct Hc as (_ & ? & ? & ? & _ & _ & _ & _ & E'). congruence.
    + destruct Hc as (HM & HT & E'). rewrite E' in E. by case_bool_decide.
  - intros [He ->]. by apply PreDraw_empty.
Qed.

(** X14: [PreDraw] says to draw exactly when the rectangle is not empty,
    the object has a state, a shader without a compiler error and at least
    one mesh, every mesh that has to be loaded has vertices, every texture
    that is not loaded has a source, and the shader has no compiler error
    once it is loaded.  There is no error then, and the object is left with
    its shader loaded if it was not, each mesh that was not loaded or had
    changed loaded, each texture that was not loaded loaded, and everything
    else as it was, in the same order. *)
Theorem PreDraw_draws_iff rect o e o' :
  PreDraw rect o = (true, e, o') ↔
  Empty rect = false ∧ drawable o ∧
  forallb meshOk (Meshes o) = true ∧ forallb textureOk (Textures o) = true ∧
  (∃ shader, ObjShader o = Some shader ∧ Error (loadedShader shader) = "") ∧
  e = None ∧ o' = afterLoad o.
Proof.
  split; [apply PreDraw_true_inv|].
  intros (He & Hd & HM & HT & (shader & Hsh & Herr) & -> & ->).
  by apply PreDraw_accepts with shader.
Qed.

(** X15: a call that returns [ErrNilState], [ErrNilShader] or [ErrNoMeshes],
    or [ErrShaderError] for a shader that came with a compiler error, has
    changed nothing.  A call that returns [ErrNoVertices] has loaded the
    shader and the meshes ahead of the one without vertices, and no texture;
    one that returns [ErrNilSource] has loaded the shader, every mesh and
    the textures ahead of the one without a source; [ErrShaderError] for a
    shader that the call loaded comes after everything has been loaded. *)
Theorem PreDraw_error_effects rect o e o' :
  PreDraw rect o = (false, Some e, o') →
  match e with
  | ErrNilState | ErrNilShader | ErrNoMeshes => o' = o
  | ErrShaderError =>
      ∃ shader, ObjShader o = Some shader ∧
        ((Error shader ≠ "" ∧ o' = o) ∨
         (Error shader = "" ∧ Error (loadedShader shader) ≠ "" ∧ o' = afterLoad o))
  | ErrNoVertices =>
      ∃ ms1 m ms2, Meshes o = ms1 ++ m :: ms2 ∧
        needsLoad m = true ∧ Vertices m = [] ∧
        ObjShader o' = loadedShader <$> ObjShader o ∧
        Meshes o' = map afterLoadMesh ms1 ++ m :: ms2 ∧
        Textures o' = Textures o
  | ErrNilSource =>
      ∃ ts1 t ts2, Textures o = ts1 ++ t :: ts2 ∧
        TextureLoaded t = false ∧ Source t = None ∧
        ObjShader o' = loadedShader <$> ObjShader o ∧
        Meshes o' = map afterLoadMesh (Meshes o) ∧
        Textures o' = map afterLoadTexture ts1 ++ t :: ts2
  end.
Proof.
  intros E. destruct (Empty rect) eqn:He.
  { by rewrite PreDraw_empty in E. }
  destruct (PreDraw_cases rect o He)
    as [(Hn & e' & E' & He')|(Hd & shader & Hsh & [Hc|[Hc|Hc]])].
  - rewrite E' in E. injection E as <- <-.
    apply elem_of_cons in He' as [->|He']; [done|].
    apply elem_of_cons in He' as [->|He']; [done|].
    apply elem_of_cons in He' as [->|He'].
    2:{ apply elem_of_cons in He' as [->|He']; [done|]. by apply elem_of_nil in He'. }
    unfold drawable in Hn. unfold PreDraw in E'. rewrite He in E'.
    destruct (ObjState o); [|done]. destruct (ObjShader o) as [shader|]; [|done].
    exists shader. split; [done|]. left. split; [|done]. intros Herr. apply Hn.
    split_and!; [done|by eexists|]. rewrite Herr in E'. simpl in E'.
    destruct (Meshes o); [done|done].
  - destruct Hc as (ms1 & m & ms2 & EM & _ & Hn & Hv & E'). rewrite E' in E.
    injection E as <- <-. exists ms1, m, ms2. simpl. by rewrite Hsh.
  - destruct Hc as (_ & ts1 & t & ts2 & ET & _ & Hn & Hv & E'). rewrite E' in E.
    injection E as <- <-. exists ts1, t, ts2. simpl. by rewrite Hsh.
  - destruct Hc as (_ & _ & E'). rewrite E' in E. case_bool_decide as Herr; [done|].
    injection E as <- <-. exists shader. split; [done|]. right.
    destruct Hd as (_ & (? & ? & ?) & _). split_and!; [congruence|done|done].
Qed.

(** X16: with a device that marks what it loads as loaded, a call that
    says to draw leaves an object whose shader, meshes and textures all
    count as loaded: the next call says to draw too, and changes
    nothing. *)
Theorem PreDraw_twice rect o e o' :
  marksLoaded →
  PreDraw rect o = (true, e, o') →
  PreDraw rect o' = (true, None, o') ∧
  (∀ s, ObjShader o' = Some s → ShaderLoaded s = true) ∧
  (∀ m, m ∈ Meshes o' → needsLoad m = false) ∧
  (∀ t, t ∈ Textures o' → TextureLoaded t = true).
Proof.
  intros (HS & HM & HT) E.
  apply PreDraw_true_inv in E
    as (He & (Hst & (sh & Hsh & Herr0) & Hne) & _ & _ & (sh' & Hsh' & Herr) & _ & ->).
  assert (sh' = sh) as -> by congruence.
  assert (Hsf : loadedShader (loadedShader sh) = loadedShader sh).
  { unfold loadedShader. destruct (ShaderLoaded sh) eqn:Hl; simpl; rewrite ?Hl; [done|].
    by rewrite HS. }
  assert (Hmf : ∀ m, needsLoad (afterLoadMesh m) = false).
  { intros m. unfold afterLoadMesh. destruct (needsLoad m) eqn:Hn; [|done].
    unfold needsLoad. destruct (HM m) as [-> ->]. done. }
  assert (Htf : ∀ t, TextureLoaded (afterLoadTexture t) = true).
  { intros t. unfold afterLoadTexture. destruct (TextureLoaded t) eqn:Hn; [done|].
    apply HT. }
  assert (Hfix : afterLoad (afterLoad o) = afterLoad o).
  { unfold afterLoad. simpl. rewrite Hsh. simpl. rewrite Hsf. f_equal.
    - rewrite map_map. apply map_ext. intros m. unfold afterLoadMesh at 1.
      by rewrite Hmf.
    - rewrite map_map. apply map_ext. intros t. unfold afterLoadTexture at 1.
      by rewrite Htf. }
  split_and!.
  - rewrite <- Hfix at 2.
    apply PreDraw_accepts with (loadedShader sh); try done.
    + unfold drawable, afterLoad. simpl. rewrite Hsh. simpl. split_and!; try done.
      * by eexists.
      * by destruct (Meshes o).
    + simpl. apply forallb_forall. intros m' [m [<- _]]%in_map_iff.
      unfold meshOk. by rewrite Hmf.
    + simpl. apply forallb_forall. intros t' [t [<- _]]%in_map_iff.
      unfold textureOk. by rewrite Htf.
    + simpl. by rewrite Hsh.
    + by rewrite Hsf.
  - intros s. simpl. rewrite Hsh. intros [= <-]. unfold loadedShader.
    destruct (ShaderLoaded sh) eqn:Hl; simpl; [done|apply HS].
  - intros m' [m [-> _]]%list_elem_of_fmap. apply Hmf.
  - intros t' [t [-> _]]%list_elem_of_fmap. apply Htf.
Qed.

End PreDrawEffects.

(** The second mesh of [halfEmptyObject] has no vertices: the shader and the
    first mesh have been loaded, the texture has not. *)
Lemma PreDraw_error_effects_witness :
  ∃ ms1 m ms2, Util.Meshes Util.halfEmptyObject = ms1 ++ m :: ms2 ∧
    Util.needsLoad m = true ∧ Util.Vertices m = [] ∧
    Util.ObjShader Util.halfLoadedObject =
      Util.loadedShader (H:=Util.markingDevice) <$> Util.ObjShader Util.halfEmptyObject ∧
    Util.Meshes Util.halfLoadedObject =
      map (Util.afterLoadMesh (H:=Util.markingDevice)) ms1 ++ m :: ms2 ∧
    Util.Textures Util.halfLoadedObject = Util.Textures Util.halfEmptyObject.
Proof.
  apply (PreDraw_error_effects (H:=Util.markingDevice) (Rect 0 0 100 100)
           Util.halfEmptyObject Util.ErrNoVertices Util.halfLoadedObject).
  reflexivity.
Defined.

(** [freshObject], drawn once with [markingDevice]. *)
Lemma PreDraw_twice_witness :
  @Util.PreDraw Util.markingDevice (Rect 0 0 100 100) Util.drawnObject =
    (true, None, Util.drawnObject) ∧
  (∀ s, Util.ObjShader Util.drawnObject = Some s → Util.ShaderLoaded s = true) ∧
  (∀ m, m ∈ Util.Meshes Util.drawnObject → Util.needsLoad m = false) ∧
  (∀ t, t ∈ Util.Textures Util.drawnObject → Util.TextureLoaded t = true).
Proof.
  apply (PreDraw_twice (H:=Util.markingDevice) (Rect 0 0 100 100) Util.freshObject
           None Util.drawnObject).
  - by repeat split.
  - reflexivity.
Defined.

(** * Further properties of the window *)

(** ** A pass of [useProps] and the callbacks *)

Section Settled.

Import Window.

Lemma f64_eqb_refl a : f64_isNaN a = false → f64_eqb a a = true.
Proof. intros Ha. unfold f64_eqb. by rewrite Ha, Z.eqb_refl. Qed.

Lemma set_props_same w : set_props (props w) w = w.
Proof. by destruct w. Qed.

Lemma eqb_negb_false (a b : bool) : negb (eqb a b) = false → a = b.
Proof. by destruct a, b. Qed.

(** What each step of a pass records as applied. *)
Lemma updateTitle_state w :
  props (updateTitle w) = props w ∧ last (updateTitle w) = last w.
Proof. by destruct w. Qed.

Lemma applySize_state force fs w :
  props (applySize force fs w) = props w ∧
  last (applySize force fs w) = SetSize (Size (props w)) (last w).
Proof.
  unfold applySize.
  destruct (Size (props w)) as [wd ht] eqn:Hs, (Size (last w)) as [lwd lht] eqn:Hl.
  destruct (force || negb (wd =? lwd) || negb (ht =? lht)) eqn:Hc.
  - destruct (negb fs); by destruct w.
  - apply orb_false_iff in Hc as [[_ H1]%orb_false_iff H2].
    apply negb_false_iff, Z.eqb_eq in H1, H2. subst. split; [done|].
    destruct (last w); simpl in *. by rewrite Hl.
Qed.

Lemma applyPos_state force fs w :
  props (applyPos force fs w) = props w ∧
  last (applyPos force fs w) =
    if fs then last w else SetPos (Pos (props w)) (last w).
Proof.
  unfold applyPos.
  destruct (Size (props w)) as [wd ht], (Pos (props w)) as [x y] eqn:Hs,
    (Pos (last w)) as [lx ly] eqn:Hl.
  destruct (force || negb (x =? lx) || negb (y =? ly)) eqn:Hc; destruct fs; simpl.
  - done.
  - destruct ((x =? -1) && (y =? -1)); [destruct (videoMode _)|]; by destruct w.
  - done.
  - apply orb_false_iff in Hc as [[_ H1]%orb_false_iff H2].
    apply negb_false_iff, Z.eqb_eq in H1, H2. subst. split; [done|].
    destruct (last w); simpl in *. by rewrite Hl.
Qed.

Lemma applyCursorPos_state force w :
  props (applyCursorPos force w) = props w ∧
  (last (applyCursorPos force w) = SetCursorPos (CursorPos (props w)) (last w) ∨
   last (applyCursorPos force w) = last w ∧
   f64_eqb (CursorPos (props w)).1 (CursorPos (last w)).1 = true ∧
   f64_eqb (CursorPos (props w)).2 (CursorPos (last w)).2 = true).
Proof.
  unfold applyCursorPos.
  destruct (CursorPos (props w)) as [x y] eqn:Hs, (CursorPos (last w)) as [lx ly] eqn:Hl.
  destruct (force || negb (f64_eqb x lx) || negb (f64_eqb y ly)) eqn:Hc.
  - split; [|left];
      destruct (negb (f64_eqb x f64_neg_one) && negb (f64_eqb y f64_neg_one));
      by destruct w.
  - apply orb_false_iff in Hc as [[_ H1]%orb_false_iff H2].
    apply negb_false_iff in H1, H2. split; [done|]. by right.
Qed.

Lemma applyVisible_state force w :
  props (applyVisible force w) = props w ∧
  last (applyVisible force w) = SetVisible (Visible (props w)) (last w).
Proof.
  unfold applyVisible.
  destruct (force || negb (eqb (Visible (last w)) (Visible (props w)))) eqn:Hc.
  - by destruct w.
  - apply orb_false_iff in Hc as [_ Hc%eqb_negb_false]. split; [done|].
    rewrite <- Hc. by destruct (last w).
Qed.

Lemma applyMinimized_state force w :
  props (applyMinimized force w) = props w ∧
  last (applyMinimized force w) = SetMinimized (Minimized (props w)) (last w).
Proof.
  unfold applyMinimized.
  destruct (force || negb (eqb (Minimized (last w)) (Minimized (props w)))) eqn:Hc.
  - by destruct w.
  - apply orb_false_iff in Hc as [_ Hc%eqb_negb_false]. split; [done|].
    rewrite <- Hc. by destruct (last w).
Qed.

Lemma applyVSync_state force w :
  props (applyVSync force w) = props w ∧
  last (applyVSync force w) = SetVSync (VSync (props w)) (last w).
Proof.
  unfold applyVSync.
  destruct (force || negb (eqb (VSync (last w)) (VSync (props w)))) eqn:Hc.
  - by destruct w.
  - apply orb_false_iff in Hc as [_ Hc%eqb_negb_false]. split; [done|].
    rewrite <- Hc. by destruct (last w).
Qed.

Lemma applyCursorGrabbed_state force w :
  props (applyCursorGrabbed force w) = props w ∧
  last (applyCursorGrabbed force w) = SetCursorGrabbed (CursorGrabbed (props w)) (last w).
Proof.
  unfold applyCursorGrabbed.
  destruct (force || negb (eqb (CursorGrabbed (last w)) (CursorGrabbed (props w)))) eqn:Hc.
  - by destruct w.
  - apply orb_false_iff in Hc as [_ Hc%eqb_negb_false]. split; [done|].
    rewrite <- Hc. by destruct (last w).
Qed.

(** A pass that does not toggle fullscreen. *)
Lemma useProps_steps p force w :
  Fullscreen p = Fullscreen (last w) →
  useProps p force w =
    applyCursorGrabbed force (applyVSync force (applyMinimized force
      (applyVisible force (applyCursorPos force
        (applyPos force (Fullscreen p) (applySize force (Fullscreen p)
          (updateTitle (set_props p w)))))))).
Proof.
  intros Hf. unfold useProps. cbv zeta.
  replace (negb (eqb (Fullscreen (props (set_props p w))) (Fullscreen (last (set_props p w)))))
    with false; [done|].
  simpl. rewrite Hf. by destruct (Fullscreen (last w)).
Qed.

(** What a pass that does not toggle fullscreen leaves recorded. *)
Lemma useProps_applied p force w :
  Fullscreen p = Fullscreen (last w) →
  let w' := useProps p force w in
  props w' = p ∧
  Fullscreen (last w') = Fullscreen (last w) ∧
  Size (last w') = Size p ∧
  (Fullscreen p = false → Pos (last w') = Pos p) ∧
  (CursorPos (last w') = CursorPos p ∨
   CursorPos (last w') = CursorPos (last w) ∧
   f64_eqb (CursorPos p).1 (CursorPos (last w)).1 = true ∧
   f64_eqb (CursorPos p).2 (CursorPos (last w)).2 = true) ∧
  Visible (last w') = Visible p ∧
  Minimized (last w') = Minimized p ∧
  VSync (last w') = VSync p ∧
  CursorGrabbed (last w') = CursorGrabbed p.
Proof.
  intros Hf. cbv zeta. rewrite useProps_steps by done.
  set (w0 := set_props p w).
  assert (P0 : props w0 = p) by done.
  assert (L0 : last w0 = last w) by done.
  destruct (updateTitle_state w0) as [P1 L1]. set (w1 := updateTitle w0) in *.
  rewrite P0 in P1. rewrite L0 in L1.
  destruct (applySize_state force (Fullscreen p) w1) as [P2 L2].
  set (w2 := applySize _ _ w1) in *. rewrite P1 in P2, L2. rewrite L1 in L2.
  destruct (applyPos_state force (Fullscreen p) w2) as [P3 L3].
  set (w3 := applyPos _ _ w2) in *. rewrite P2 in P3, L3. rewrite L2 in L3.
  destruct (applyCursorPos_state force w3) as [P4 L4].
  set (w4 := applyCursorPos _ w3) in *. rewrite P3 in P4, L4. rewrite L3 in L4.
  destruct (applyVisible_state force w4) as [P5 L5].
  set (w5 := applyVisible _ w4) in *. rewrite P4 in P5, L5.
  destruct (applyMinimized_state force w5) as [P6 L6].
  set (w6 := applyMinimized _ w5) in *. rewrite P5 in P6, L6. rewrite L5 in L6.
  destruct (applyVSync_state force w6) as [P7 L7].
  set (w7 := applyVSync _ w6) in *. rewrite P6 in P7, L7. rewrite L6 in L7.
  destruct (applyCursorGrabbed_state force w7) as [P8 L8].
  set (w8 := applyCursorGrabbed _ w7) in *. rewrite P7 in P8, L8. rewrite L7 in L8.
  split; [done|]. rewrite L8.
  clear P0 P1 P2 P3 P4 P5 P6 P7 P8 L0 L1 L2 L3 L5 L6 L7 L8.
  destruct L4 as [->|(-> & Hx & Hy)]; destruct (Fullscreen p); simpl in *;
    split_and!; try done; try (by left); by right.
Qed.

Lemma useProps_settles p force w :
  Fullscreen p = Fullscreen (last w) → notNaN (CursorPos p) →
  props (useProps p force w) = p ∧ settled (useProps p force w).
Proof.
  intros Hf [Hx Hy].
  destruct (useProps_applied p force w Hf) as (P & F & S & Hp & Hc & V & M & VS & G).
  split; [done|]. unfold settled. rewrite P.
  split_and!; try done; try congruence.
  - intros ?. symmetry. auto.
  - destruct Hc as [->|(-> & ? & _)]; [by apply f64_eqb_refl|done].
  - destruct Hc as [->|(-> & _ & ?)]; [by apply f64_eqb_refl|done].
Qed.

(** A step whose property is recorded as applied does nothing when it is
    not forced. *)
Lemma applySize_idle fs w : Size (props w) = Size (last w) → applySize false fs w = w.
Proof.
  intros E. unfold applySize. rewrite E. destruct (Size (last w)) as [wd ht].
  by rewrite !Z.eqb_refl.
Qed.

Lemma applyPos_idle fs w :
  (fs = false → Pos (props w) = Pos (last w)) → applyPos false fs w = w.
Proof.
  intros E. unfold applyPos. destruct (Size (props w)) as [wd ht].
  destruct fs.
  - destruct (Pos (props w)), (Pos (last w)). by rewrite andb_false_r.
  - rewrite E by done. destruct (Pos (last w)) as [x y]. by rewrite !Z.eqb_refl.
Qed.

Lemma applyCursorPos_idle w :
  f64_eqb (CursorPos (props w)).1 (CursorPos (last w)).1 = true →
  f64_eqb (CursorPos (props w)).2 (CursorPos (last w)).2 = true →
  applyCursorPos false w = w.
Proof.
  unfold applyCursorPos. destruct (CursorPos (props w)), (CursorPos (last w)). simpl.
  by intros -> ->.
Qed.

Lemma applyVisible_idle w :
  Visible (props w) = Visible (last w) → applyVisible false w = w.
Proof. intros E. unfold applyVisible. rewrite E. by destruct (Visible (last w)). Qed.

Lemma applyMinimized_idle w :
  Minimized (props w) = Minimized (last w) → applyMinimized false w = w.
Proof. intros E. unfold applyMinimized. rewrite E. by destruct (Minimized (last w)). Qed.

Lemma applyVSync_idle w : VSync (props w) = VSync (last w) → applyVSync false w = w.
Proof. intros E. unfold applyVSync. rewrite E. by destruct (VSync (last w)). Qed.

Lemma applyCursorGrabbed_idle w :
  CursorGrabbed (props w) = CursorGrabbed (last w) → applyCursorGrabbed false w = w.
Proof.
  intros E. unfold applyCursorGrabbed. rewrite E. by destruct (CursorGrabbed (last w)).
Qed.

Lemma settled_pass w : settled w → useProps (props w) false w = updateTitle w.
Proof.
  intros (Hf & Hs & Hp & Hx & Hy & Hv & Hm & Hvs & Hg).
  rewrite useProps_steps, set_props_same by done.
  destruct (updateTitle_state w) as [P L].
  rewrite applySize_idle by (by rewrite P, L).
  rewrite applyPos_idle by (by rewrite P, L).
  rewrite applyCursorPos_idle by (by rewrite P, L).
  rewrite applyVisible_idle by (by rewrite P, L).
  rewrite applyMinimized_idle by (by rewrite P, L).
  rewrite applyVSync_idle by (by rewrite P, L).
  by rewrite applyCursorGrabbed_idle by (by rewrite P, L).
Qed.

(** X17: a pass of [useProps] that does not toggle fullscreen, forced or
    not, for a cursor position that is not NaN, leaves the window settled:
    every property it applies is recorded in [last] with the value asked
    for.  A second pass with the same properties, not forced, only sets the
    title again. *)
Theorem useProps_second_pass p force w :
  Fullscreen p = Fullscreen (last w) → notNaN (CursorPos p) →
  let w' := useProps p force w in
  props w' = p ∧ settled w' ∧ useProps p false w' = updateTitle w'.
Proof.
  intros Hf Hn. destruct (useProps_settles p force w Hf Hn) as [P S].
  split_and!; try done. rewrite <- P at 1. by apply settled_pass.
Qed.

(** X18: the callbacks for the minimized state, the position, the size
    and the cursor position (not NaN) keep a settled window settled: what
    GLFW reports goes to [props] and to [last] alike, so the next pass of
    [useProps] does not send it back to GLFW. *)
Theorem callbacks_keep_settled w :
  settled w →
  (∀ iconify, settled (iconifyCallback iconify w).1) ∧
  (∀ x y, settled (posCallback x y w).1) ∧
  (∀ width height, settled (sizeCallback width height w).1) ∧
  (∀ f64_sub x y, notNaN (x, y) → settled (cursorPosCallback f64_sub x y w).1).
Proof.
  intros (Hf & Hs & Hp & Hx & Hy & Hv & Hm & Hvs & Hg).
  destruct w as [pr la bf lcX lcY e1 e2 frt vm cs]. simpl in *. split_and!.
  - intros iconify. unfold iconifyCallback, settled. simpl. by split_and!.
  - intros x y. unfold posCallback, settled. simpl.
    destruct (Fullscreen la) eqn:Hl; simpl; split_and!; try done; intros; congruence.
  - intros width height. unfold sizeCallback, settled. simpl.
    destruct (Fullscreen la) eqn:Hl; simpl; split_and!; try done; congruence.
  - intros f64_sub x y [Nx Ny]. unfold cursorPosCallback, settled. simpl in *.
    destruct (CursorGrabbed pr) eqn:Hgr; simpl.
    + destruct (f64_eqb lcX f64_neg_inf && f64_eqb lcY f64_neg_inf); simpl;
        split_and!; try done; congruence.
    + rewrite !f64_eqb_refl by done. split_and!; try done; congruence.
Qed.

End Settled.

Section Locking.

Import Window.

Lemma lockWalk_app l1 l2 held held' :
  lockWalk held l1 = Some held' → lockWalk held (l1 ++ l2) = lockWalk held' l2.
Proof.
  revert held. induction l1 as [|c l1 IH]; intros held; simpl; [by intros [= ->]|].
  destruct c; simpl; destruct held; simpl; try done; apply IH.
Qed.

Lemma keepsLock_compose f g : keepsLock f → keepsLock g → keepsLock (g ∘ f).
Proof.
  intros Hf Hg w. destruct (Hf w) as (l1 & E1 & W1), (Hg (f w)) as (l2 & E2 & W2).
  exists (l1 ++ l2). simpl. rewrite E2, E1, app_assoc. split; [done|].
  by rewrite (lockWalk_app _ _ _ _ W1).
Qed.

Ltac lock_step :=
  intros w; destruct w; eexists; split;
  [ simpl; rewrite <- ?app_assoc; simpl; reflexivity | reflexivity ].

Lemma keepsLock_id : keepsLock id.
Proof. intros w. exists []. by rewrite app_nil_r. Qed.

Lemma updateTitle_lock : keepsLock updateTitle.
Proof. unfold updateTitle, emit. lock_step. Qed.

Lemma applySize_lock force fs : keepsLock (applySize force fs).
Proof.
  intros w. unfold applySize.
  destruct (Size (props w)) as [wd ht], (Size (last w)) as [lwd lht].
  destruct (force || negb (wd =? lwd) || negb (ht =? lht)); [|apply keepsLock_id].
  unfold withoutLock, emit. destruct (negb fs); revert w; lock_step.
Qed.

Lemma applyPos_lock force fs : keepsLock (applyPos force fs).
Proof.
  intros w. unfold applyPos.
  destruct (Size (props w)) as [wd ht], (Pos (props w)) as [x y],
    (Pos (last w)) as [lx ly].
  destruct ((force || negb (x =? lx) || negb (y =? ly)) && negb fs);
    [|apply keepsLock_id].
  unfold withoutLock, emit. destruct ((x =? -1) && (y =? -1)).
  - destruct w as [? ? ? ? ? ? ? ? [vw vh] ?]. simpl. eexists. split.
    + rewrite <- !app_assoc. simpl. reflexivity.
    + reflexivity.
  - revert w. lock_step.
Qed.

Lemma applyCursorPos_lock force : keepsLock (applyCursorPos force).
Proof.
  intros w. unfold applyCursorPos.
  destruct (CursorPos (props w)) as [x y], (CursorPos (last w)) as [lx ly].
  destruct (force || negb (f64_eqb x lx) || negb (f64_eqb y ly)); [|apply keepsLock_id].
  unfold withoutLock, emit.
  destruct (negb (f64_eqb x f64_neg_one) && negb (f64_eqb y f64_neg_one)).
  - revert w. lock_step.
  - exists []. destruct w. simpl. by rewrite app_nil_r.
Qed.

Lemma applyVisible_lock force : keepsLock (applyVisible force).
Proof.
  intros w. unfold applyVisible.
  destruct (force || _); [|apply keepsLock_id].
  unfold withoutLock, emit. destruct (Visible (props w)); revert w; lock_step.
Qed.

Lemma applyMinimized_lock force : keepsLock (applyMinimized force).
Proof.
  intros w. unfold applyMinimized.
  destruct (force || _); [|apply keepsLock_id].
  unfold withoutLock, emit. destruct (Minimized (props w)); revert w; lock_step.
Qed.

Lemma applyVSync_lock force : keepsLock (applyVSync force).
Proof.
  intros w. unfold applyVSync.
  destruct (force || _); [|apply keepsLock_id].
  unfold emit. revert w. lock_step.
Qed.

Lemma applyCursorGrabbed_lock force : keepsLock (applyCursorGrabbed force).
Proof.
  intros w. unfold applyCursorGrabbed.
  destruct (force || _); [|apply keepsLock_id].
  unfold withoutLock, emit. revert w. lock_step.
Qed.

(** X19: whatever a pass of [useProps] is asked, the calls it adds keep to
    the write lock that its caller holds: [Unlock] and [Lock] alternate, the
    GLFW calls that fire a callback (size, position, cursor position,
    show, hide, iconify, restore, input mode) are made with the lock
    released, every other call and the rebuild signal with the lock held,
    and the pass ends with the lock held. *)
Theorem useProps_lock_discipline p force w :
  ∃ l, calls (useProps p force w) = calls w ++ l ∧ lockWalk true l = Some true.
Proof.
  destruct (decide (Fullscreen p = Fullscreen (last w))) as [Hf|Hf].
  - rewrite useProps_steps by done.
    pose proof (keepsLock_compose _ _ (updateTitle_lock)
      (keepsLock_compose _ _ (applySize_lock force (Fullscreen p))
      (keepsLock_compose _ _ (applyPos_lock force (Fullscreen p))
      (keepsLock_compose _ _ (applyCursorPos_lock force)
      (keepsLock_compose _ _ (applyVisible_lock force)
      (keepsLock_compose _ _ (applyMinimized_lock force)
      (keepsLock_compose _ _ (applyVSync_lock force)
        (applyCursorGrabbed_lock force)))))))) as Hk.
    destruct (Hk (set_props p w)) as (l & E & W). exists l. split; [exact E|done].
  - exists [RebuildSignal]. split; [|done].
    unfold useProps. cbv zeta.
    replace (negb (eqb (Fullscreen (props (set_props p w)))
                       (Fullscreen (last (set_props p w))))) with true.
    2:{ simpl. symmetry. apply negb_true_iff, eqb_false_iff. exact Hf. }
    simpl. by destruct (negb (Fullscreen p)).
Qed.

End Locking.

Section Grab.

Import Window.

Variable f64_sub : float64 → float64 → float64.

Lemma useProps_before_grab p force w :
  Fullscreen p = Fullscreen (last w) →
  ∃ w7, useProps p force w = applyCursorGrabbed force w7 ∧
        props w7 = p ∧ CursorGrabbed (last w7) = CursorGrabbed (last w).
Proof.
  intros Hf. rewrite useProps_steps by done. eexists. split; [reflexivity|].
  set (w0 := set_props p w).
  destruct (updateTitle_state w0) as [P1 L1]. set (w1 := updateTitle w0) in *.
  destruct (applySize_state force (Fullscreen p) w1) as [P2 L2].
  set (w2 := applySize _ _ w1) in *.
  destruct (applyPos_state force (Fullscreen p) w2) as [P3 L3].
  set (w3 := applyPos _ _ w2) in *.
  destruct (applyCursorPos_state force w3) as [P4 L4].
  set (w4 := applyCursorPos _ w3) in *.
  destruct (applyVisible_state force w4) as [P5 L5].
  set (w5 := applyVisible _ w4) in *.
  destruct (applyMinimized_state force w5) as [P6 L6].
  set (w6 := applyMinimized _ w5) in *.
  destruct (applyVSync_state force w6) as [P7 L7].
  set (w7 := applyVSync _ w6) in *.
  split; [by rewrite P7, P6, P5, P4, P3, P2, P1|].
  rewrite L7, L6, L5. simpl.
  destruct L4 as [->|[-> _]]; rewrite L3; destruct (Fullscreen p); simpl;
    by rewrite L2, L1.
Qed.

(** X20: once a pass of [useProps] has grabbed the cursor, the first
    cursor callback sends no event, whatever position it reports; the second
    one sends the difference to the first position as a delta (when the
    first was not at minus infinity twice).  Neither changes [props] or
    [last]. *)
Theorem grab_hides_first_cursor_delta p force w x1 y1 x2 y2 :
  Fullscreen p = Fullscreen (last w) →
  CursorGrabbed p = true →
  force = true ∨ CursorGrabbed (last w) = false →
  let w0 := useProps p force w in
  let r1 := cursorPosCallback f64_sub x1 y1 w0 in
  let r2 := cursorPosCallback f64_sub x2 y2 r1.1 in
  r1.2 = None ∧
  (f64_eqb x1 f64_neg_inf && f64_eqb y1 f64_neg_inf = false →
   r2.2 = Some (EvCursorMoved (f64_sub x2 x1) (f64_sub y2 y1) true)) ∧
  props r2.1 = props w0 ∧ last r2.1 = last w0.
Proof.
  intros Hf Hg Hc. cbv zeta.
  destruct (useProps_before_grab p force w Hf) as (w7 & -> & P & L).
  unfold applyCursorGrabbed. rewrite P, Hg, L.
  replace (force || negb (eqb (CursorGrabbed (last w)) true)) with true.
  2:{ destruct Hc as [->| ->]; [done|by rewrite orb_true_r]. }
  destruct w7 as [pr la bf lcX lcY e1 e2 frt vm cs]. simpl in P. subst pr.
  unfold cursorPosCallback, withoutLock, emit. simpl. rewrite Hg. simpl.
  rewrite Hg. split_and!; try done.
  - by intros ->.
  - by destruct (f64_eqb x1 f64_neg_inf && f64_eqb y1 f64_neg_inf).
  - by destruct (f64_eqb x1 f64_neg_inf && f64_eqb y1 f64_neg_inf).
Qed.

End Grab.

(** ** Rebuilding the window: [build] *)

Section Build.

Import Window.

Context `{Glfw}.

Lemma useProps_toggle p force w :
  Fullscreen p ≠ Fullscreen (last w) →
  useProps p force w =
    emit RebuildSignal
      (let w := set_last (SetFullscreen (Fullscreen p) (last w)) (set_props p w) in
       if negb (Fullscreen p) then set_props (SetSize (beforeFullscreen w) (props w)) w
       else w).
Proof.
  intros Hf. unfold useProps. cbv zeta.
  replace (negb (eqb (Fullscreen (props (set_props p w)))
                     (Fullscreen (last (set_props p w))))) with true; [done|].
  simpl. symmetry. apply negb_true_iff, eqb_false_iff. exact Hf.
Qed.

Lemma useProps_beforeFullscreen p force w :
  Fullscreen p = Fullscreen (last w) →
  beforeFullscreen (useProps p force w) =
    if Fullscreen p then beforeFullscreen w
    else if force then Size p
    else if bool_decide (Size p = Size (last w)) then beforeFullscreen w else Size p.
Proof.
  intros Hf. rewrite useProps_steps by done.
  assert (Hpos : ∀ f fs w, beforeFullscreen (applyPos f fs w) = beforeFullscreen w).
  { intros f fs w0. unfold applyPos.
    destruct w0 as [pr la bf ? ? ? ? ? [vw vh] cs]; simpl.
    destruct (Size pr), (Pos pr) as [x y], (Pos la).
    destruct (_ && negb fs); [|done]. by destruct ((x =? -1) && (y =? -1)). }
  assert (Hcur : ∀ f w, beforeFullscreen (applyCursorPos f w) = beforeFullscreen w).
  { intros f w0. unfold applyCursorPos.
    destruct (CursorPos (props w0)) as [x y], (CursorPos (last w0)).
    destruct (_ || _); [|done]. destruct (_ && _); by destruct w0. }
  assert (Hvis : ∀ f w, beforeFullscreen (applyVisible f w) = beforeFullscreen w).
  { intros f w0. unfold applyVisible. destruct (_ || _); by destruct w0. }
  assert (Hmin : ∀ f w, beforeFullscreen (applyMinimized f w) = beforeFullscreen w).
  { intros f w0. unfold applyMinimized. destruct (_ || _); by destruct w0. }
  assert (Hvs : ∀ f w, beforeFullscreen (applyVSync f w) = beforeFullscreen w).
  { intros f w0. unfold applyVSync. destruct (_ || _); by destruct w0. }
  assert (Hgr : ∀ f w, beforeFullscreen (applyCursorGrabbed f w) = beforeFullscreen w).
  { intros f w0. unfold applyCursorGrabbed. destruct (_ || _); by destruct w0. }
  rewrite Hgr, Hvs, Hmin, Hvis, Hcur, Hpos.
  unfold applySize. simpl.
  destruct (Size p) as [wd ht], (Size (last w)) as [lwd lht].
  destruct force; simpl.
  - by destruct (Fullscreen p).
  - case_bool_decide as Hs.
    + injection Hs as -> ->. rewrite !Z.eqb_refl. simpl. by destruct (Fullscreen p).
    + destruct (Z.eqb_spec wd lwd), (Z.eqb_spec ht lht); simpl;
        try (by destruct (Fullscreen p)). congruence.
Qed.

Lemma SetSize_same p : SetSize (Size p) p = p.
Proof. by destruct p. Qed.

(** A [build] in which nothing fails, for a window whose fullscreen mode is
    recorded as applied. *)
Lemma build_ok w :
  (∀ c, CreateWindow c = None) → glfwNewDevice = None →
  Fullscreen (props w) = Fullscreen (last w) →
  let p := props w in
  let size := if Fullscreen p then videoMode w else Size p in
  ∃ w', build w =
          (None, Some {| cwSize := size; cwTitle := Title p;
                         cwMonitor := Fullscreen p |}, w') ∧
        props w' = SetSize size p ∧
        Size (last w') = size ∧
        beforeFullscreen w' = Size p ∧
        Fullscreen (last w') = Fullscreen p.
Proof.
  intros HC HD Hf. cbv zeta. unfold build. cbv zeta. rewrite HC, HD.
  eexists. split.
  { f_equal. f_equal. f_equal. f_equal. by destruct w, (Fullscreen _). }
  set (wb := set_extensions _ _ _).
  assert (Pb : props wb =
                 SetSize (if Fullscreen (props w) then videoMode w else Size (props w))
                   (props w)).
  { unfold wb. destruct (Fullscreen (props w)); destruct w; simpl; [done|].
    by rewrite SetSize_same. }
  assert (Fb : Fullscreen (props wb) = Fullscreen (last wb)).
  { unfold wb. destruct (Fullscreen (props w)) eqn:E; destruct w; simpl in *; congruence. }
  assert (Bb : beforeFullscreen wb = Size (props w)).
  { unfold wb. destruct (Fullscreen (props w)); by destruct w. }
  assert (Lb : Fullscreen (last wb) = Fullscreen (last w)).
  { unfold wb. destruct (Fullscreen (props w)); by destruct w. }
  destruct (useProps_applied (props wb) true wb Fb) as (P & F & S & _).
  rewrite P, S, F, useProps_beforeFullscreen by done. rewrite Pb, Lb, Bb.
  split_and!; try done.
  simpl. by destruct (Fullscreen (props w)).
Qed.

(** X21: entering and leaving fullscreen, with no callback in between and
    GLFW and the device not failing.  The pass for the request to enter only
    signals the rebuild; [build] then asks GLFW for a fullscreen window of the
    size of the monitor's video mode.  The pass for the request to leave only
    signals the rebuild again, and [build] asks for a window of the size that
    the request to enter carried: the size of the request to leave is
    overwritten, in [props] too. *)
Theorem fullscreen_round_trip enter leave w :
  (∀ c, CreateWindow c = None) → glfwNewDevice = None →
  Fullscreen (last w) = false → Fullscreen enter = true → Fullscreen leave = false →
  let w1 := useProps enter false w in
  let b2 := build w1 in
  let w3 := useProps leave false b2.2 in
  let b4 := build w3 in
  calls w1 = calls w ++ [RebuildSignal] ∧
  b2.1 = (None, Some {| cwSize := videoMode w; cwTitle := Title enter;
                        cwMonitor := true |}) ∧
  calls w3 = calls b2.2 ++ [RebuildSignal] ∧
  b4.1 = (None, Some {| cwSize := Size enter; cwTitle := Title leave;
                        cwMonitor := false |}) ∧
  props b4.2 = SetSize (Size enter) leave ∧
  Size (last b4.2) = Size enter ∧
  beforeFullscreen b4.2 = Size enter.
Proof.
  intros HC HD Hl He Hv. cbv zeta.
  rewrite (useProps_toggle enter false w) by congruence. rewrite He. cbv zeta.
  change (negb true) with false. cbv iota.
  set (w1 := emit RebuildSignal _).
  assert (P1 : props w1 = enter) by done.
  assert (F1 : Fullscreen (props w1) = Fullscreen (last w1)) by (by rewrite P1, He).
  assert (V1 : videoMode w1 = videoMode w) by done.
  destruct (build_ok w1 HC HD F1) as (w2 & E2 & P2 & S2 & B2 & F2).
  rewrite E2. simpl. rewrite P1, He, V1 in *.
  rewrite (useProps_toggle leave false w2) by congruence. rewrite Hv. cbv zeta.
  change (negb false) with true. cbv iota.
  set (w3 := emit RebuildSignal _).
  assert (P3 : props w3 = SetSize (Size enter) leave).
  { unfold w3. destruct w2; simpl in *. by rewrite B2. }
  assert (F3 : Fullscreen (props w3) = Fullscreen (last w3)).
  { rewrite P3. unfold w3. by destruct w2. }
  destruct (build_ok w3 HC HD F3) as (w4 & E4 & P4 & S4 & B4 & F4).
  rewrite E4. simpl. rewrite P3 in *. simpl in *. rewrite Hv in *.
  split_and!; try done. by rewrite B2.
Qed.

End Build.

(** [windowedRequest] on [exampleWindow]: another title, vsync off, the
    cursor grabbed. *)
Lemma useProps_second_pass_witness :
  let w' := Window.useProps Window.windowedRequest false Window.exampleWindow in
  Window.props w' = Window.windowedRequest ∧ Window.settled w' ∧
  Window.useProps Window.windowedRequest false w' = Window.updateTitle w'.
Proof.
  apply (useProps_second_pass Window.windowedRequest false Window.exampleWindow).
  - reflexivity.
  - split; reflexivity.
Defined.

Lemma callbacks_keep_settled_witness :
  (∀ iconify, Window.settled (Window.iconifyCallback iconify Window.exampleWindow).1) ∧
  (∀ x y, Window.settled (Window.posCallback x y Window.exampleWindow).1) ∧
  (∀ width height,
     Window.settled (Window.sizeCallback width height Window.exampleWindow).1) ∧
  (∀ f64_sub x y, Window.notNaN (x, y) →
     Window.settled (Window.cursorPosCallback f64_sub x y Window.exampleWindow).1).
Proof.
  apply (callbacks_keep_settled Window.exampleWindow).
  unfold Window.settled. split_and!; done.
Defined.

(** The cursor is grabbed, then reported at (100, 50) and at (103.5, 50). *)
Lemma grab_hides_first_cursor_delta_witness :
  let w0 := Window.useProps Window.windowedRequest false Window.exampleWindow in
  let r1 := Window.cursorPosCallback Window.f64_minus Window.f64_100 Window.f64_50 w0 in
  let r2 :=
    Window.cursorPosCallback Window.f64_minus Window.f64_103_5 Window.f64_50 r1.1 in
  r1.2 = None ∧
  (Window.f64_eqb Window.f64_100 Window.f64_neg_inf &&
   Window.f64_eqb Window.f64_50 Window.f64_neg_inf = false →
   r2.2 = Some (Window.EvCursorMoved
                  (Window.f64_minus Window.f64_103_5 Window.f64_100)
                  (Window.f64_minus Window.f64_50 Window.f64_50) true)) ∧
  Window.props r2.1 = Window.props w0 ∧ Window.last r2.1 = Window.last w0.
Proof.
  apply (grab_hides_first_cursor_delta Window.f64_minus Window.windowedRequest false
           Window.exampleWindow Window.f64_100 Window.f64_50 Window.f64_103_5
           Window.f64_50).
  - reflexivity.
  - reflexivity.
  - by right.
Defined.

(** ... the delta is (3.5, 0). *)
Example grab_then_two_cursor_events :
  let w0 := Window.useProps Window.windowedRequest false Window.exampleWindow in
  let r1 := Window.cursorPosCallback Window.f64_minus Window.f64_100 Window.f64_50 w0 in
  let r2 :=
    Window.cursorPosCallback Window.f64_minus Window.f64_103_5 Window.f64_50 r1.1 in
  r1.2 = None ∧ r2.2 = Some (Window.EvCursorMoved 0x400C000000000000 0 true).
Proof. vm_compute. by split. Qed.

(** [exampleWindow] goes fullscreen and is asked back to 800 by 600: it
    comes back at 640 by 480. *)
Lemma fullscreen_round_trip_witness :
  let w1 := Window.useProps Window.fullscreenRequest false Window.exampleWindow in
  let b2 := @Window.build Window.exampleGlfw w1 in
  let w3 := Window.useProps Window.leaveRequest false b2.2 in
  let b4 := @Window.build Window.exampleGlfw w3 in
  Window.calls w1 = Window.calls Window.exampleWindow ++ [Window.RebuildSignal] ∧
  b2.1 = (None, Some {| Window.cwSize := Window.videoMode Window.exampleWindow;
                        Window.cwTitle := Window.Title Window.fullscreenRequest;
                        Window.cwMonitor := true |}) ∧
  Window.calls w3 = Window.calls b2.2 ++ [Window.RebuildSignal] ∧
  b4.1 = (None, Some {| Window.cwSize := Window.Size Window.fullscreenRequest;
                        Window.cwTitle := Window.Title Window.leaveRequest;
                        Window.cwMonitor := false |}) ∧
  Window.props b4.2 =
    Window.SetSize (Window.Size Window.fullscreenRequest) Window.leaveRequest ∧
  Window.Size (Window.last b4.2) = Window.Size Window.fullscreenRequest ∧
  Window.beforeFullscreen b4.2 = Window.Size Window.fullscreenRequest.
Proof.
  apply (fullscreen_round_trip (H:=Window.exampleGlfw) Window.fullscreenRequest
           Window.leaveRequest Window.exampleWindow); done.
Defined.

(** * Properties of [gfxutil.InsertionSort] *)

Section SortFacts.

Import Gfxutil.

Context {A : Type} (less : A → A → bool).

#[local] Existing Instance bySlice.

Lemma index_app_r (l1 l2 : list A) :
  index (l1 ++ l2) (Z.of_nat (length l1)) = l2 !! 0%nat.
Proof.
  unfold index. replace (_ <? 0) with false by (symmetry; apply Z.ltb_ge; lia).
  rewrite Nat2Z.id, lookup_app_r by done. by rewrite Nat.sub_diag.
Qed.

Lemma insertAt_moveDown r : ∀ x post,
  insertAt (H:=bySlice less) (length r) (rev r ++ x :: post) =
    Some (rev (moveDown less x r) ++ post).
Proof.
  induction r as [|y r IH]; intros x post; [done|].
  cbn [length insertAt Less bySlice].
  assert (Hx : index (rev (y :: r) ++ x :: post) (Z.of_nat (S (length r))) = Some x).
  { replace (S (length r)) with (length (rev (y :: r))) by (by rewrite length_rev).
    apply index_app_r. }
  assert (Hy : index (rev (y :: r) ++ x :: post) (Z.of_nat (length r)) = Some y).
  { simpl. rewrite <- app_assoc. replace (length r) with (length (rev r))
      by (by rewrite length_rev). apply index_app_r. }
  rewrite Hx, Hy. cbn [moveDown]. destruct (less x y); [|by simpl; rewrite <- !app_assoc].
  unfold Swap, bySlice, swapSlice. rewrite Hx, Hy. rewrite !Nat2Z.id.
  replace (<[length r:=x]> (<[S (length r):=y]> (rev (y :: r) ++ x :: post)))
    with (rev r ++ x :: y :: post).
  { rewrite IH. simpl. by rewrite <- app_assoc. }
  simpl. rewrite <- !app_assoc. simpl.
  replace (length r) with (length (rev r)) by (by rewrite length_rev).
  rewrite (insert_app_r_alt (rev r) _ (S (length (rev r)))) by lia.
  rewrite (insert_app_r_alt (rev r) _ (length (rev r))) by lia.
  replace (S (length (rev r)) - length (rev r))%nat with 1%nat by lia.
  by rewrite Nat.sub_diag.
Qed.

Lemma sortFrom_moveDown rest : ∀ fuel r,
  (length rest < fuel)%nat →
  sortFrom (H:=bySlice less) fuel (length r) (rev r ++ rest) =
    Returns (rev (foldl (λ r x, moveDown less x r) r rest)).
Proof.
  induction rest as [|x rest IH]; intros fuel r Hfuel;
    (destruct fuel as [|fuel]; [simpl in Hfuel; lia|]); cbn [sortFrom Len bySlice].
  - rewrite app_nil_r, length_rev.
    by replace (_ <? _) with false by (symmetry; apply Z.ltb_ge; lia).
  - replace (_ <? _) with true.
    2:{ symmetry. apply Z.ltb_lt. rewrite length_app, length_rev. simpl. lia. }
    rewrite insertAt_moveDown.
    assert (Hlen : S (length r) = length (moveDown less x r)).
    { clear. induction r as [|y r IH]; simpl; [done|]. destruct (less x y); simpl; lia. }
    rewrite Hlen. apply IH. simpl in Hfuel. lia.
Qed.

Lemma moveDown_perm x r : moveDown less x r ≡ₚ x :: r.
Proof.
  induction r as [|y r IH]; simpl; [done|]. destruct (less x y); [|done].
  rewrite IH. apply Permutation_swap.
Qed.

Lemma moveDown_all_perm rest : ∀ r,
  foldl (λ r x, moveDown less x r) r rest ≡ₚ rev rest ++ r.
Proof.
  induction rest as [|x rest IH]; intros r; simpl; [done|].
  by rewrite IH, moveDown_perm, <- app_assoc.
Qed.

(** The sorted part is kept with its last element first: the order is
    flipped. *)
Lemma moveDown_Sorted x r :
  asymmetric less →
  Sorted (flip (notBefore less)) r → Sorted (flip (notBefore less)) (moveDown less x r).
Proof.
  intros Has. induction r as [|y r IH]; intros Hs; simpl.
  { by repeat constructor. }
  destruct (less x y) eqn:Hxy.
  - apply Sorted_inv in Hs as [Hs Hd]. constructor; [by apply IH|].
    destruct r as [|y' r]; simpl.
    + constructor. unfold flip, notBefore. by apply Has.
    + destruct (less x y').
      * constructor. by apply HdRel_inv in Hd.
      * constructor. unfold flip, notBefore. by apply Has.
  - constructor; [done|]. constructor. exact Hxy.
Qed.

Lemma moveDown_all_Sorted rest : ∀ r,
  asymmetric less →
  Sorted (flip (notBefore less)) r →
  Sorted (flip (notBefore less)) (foldl (λ r x, moveDown less x r) r rest).
Proof.
  induction rest as [|x rest IH]; intros r Has Hs; simpl; [done|].
  apply IH; [done|]. by apply moveDown_Sorted.
Qed.

Lemma Sorted_snoc (R : A → A → Prop) l a :
  Sorted R l → (∀ y, last l = Some y → R y a) → Sorted R (l ++ [a]).
Proof.
  induction l as [|y l IH]; intros Hs Hl; simpl.
  { by repeat constructor. }
  apply Sorted_inv in Hs as [Hs Hd]. constructor.
  - apply IH; [done|]. intros z Hz. apply Hl. destruct l; [done|exact Hz].
  - destruct l as [|y' l]; simpl.
    + constructor. by apply Hl.
    + constructor. by apply HdRel_inv in Hd.
Qed.

Lemma Sorted_rev (R : A → A → Prop) r : Sorted (flip R) r → Sorted R (rev r).
Proof.
  induction r as [|y r IH]; intros Hs; simpl; [constructor|].
  apply Sorted_inv in Hs as [Hs Hd]. apply Sorted_snoc; [by apply IH|].
  intros z Hz. destruct r as [|y' r]; [done|]. simpl in Hz. rewrite last_snoc in Hz.
  injection Hz as <-. by apply HdRel_inv in Hd.
Qed.

Lemma StronglySorted_snoc (R : A → A → Prop) l a :
  StronglySorted R l → Forall (λ y, R y a) l → StronglySorted R (l ++ [a]).
Proof.
  induction l as [|y l IH]; intros Hs Hl; simpl.
  { by repeat constructor. }
  apply StronglySorted_inv in Hs as [Hs Hd]. apply Forall_cons in Hl as [Hy Hl].
  constructor; [by apply IH|]. apply Forall_app. split; [done|by constructor].
Qed.

Lemma StronglySorted_rev (R : A → A → Prop) r :
  StronglySorted (flip R) r → StronglySorted R (rev r).
Proof.
  induction r as [|y r IH]; intros Hs; simpl; [constructor|].
  apply StronglySorted_inv in Hs as [Hs Hd]. apply StronglySorted_snoc; [by apply IH|].
  apply Forall_rev. exact Hd.
Qed.

Lemma Sorted_middle (R : A → A → Prop) l1 y x l2 :
  Sorted R (l1 ++ y :: x :: l2) → R y x.
Proof.
  induction l1 as [|z l1 IH]; simpl; intros Hs; apply Sorted_inv in Hs as [Hs Hd].
  - by apply HdRel_inv in Hd.
  - by apply IH.
Qed.

Lemma moveDown_sorted_id rest : ∀ r,
  Sorted (notBefore less) (rev r ++ rest) →
  foldl (λ r x, moveDown less x r) r rest = rev rest ++ r.
Proof.
  induction rest as [|x rest IH]; intros r Hs; simpl; [done|].
  assert (Hx : moveDown less x r = x :: r).
  { destruct r as [|y r]; [done|]. simpl in *. rewrite <- app_assoc in Hs.
    apply Sorted_middle in Hs. unfold notBefore in Hs. by rewrite Hs. }
  rewrite Hx, IH, <- app_assoc; [done|]. simpl. by rewrite <- app_assoc.
Qed.

(** [InsertionSort] on a slice. *)
Lemma sortFrom_slice (s : list A) fuel :
  (length s < fuel)%nat →
  ∃ s', sortFrom (H:=bySlice less) fuel 0 s = Returns s' ∧ s' ≡ₚ s ∧
        (asymmetric less → Sorted (notBefore less) s') ∧
        (asymmetric less → negTransitive less → StronglySorted (notBefore less) s').
Proof.
  intros Hfuel. eexists. split; [exact (sortFrom_moveDown s fuel [] Hfuel)|].
  assert (Hs : asymmetric less →
               Sorted (notBefore less) (rev (foldl (λ r x, moveDown less x r) [] s))).
  { intros Has. apply Sorted_rev, moveDown_all_Sorted; [done|constructor]. }
  split_and!; [|done|].
  - by rewrite <- Permutation_rev, moveDown_all_perm, app_nil_r, <- Permutation_rev.
  - intros Has Htr. apply Sorted_StronglySorted; [|by apply Hs].
    intros a b c Hab Hbc. unfold notBefore in *. by eapply Htr.
Qed.

(** X22: [InsertionSort] on a slice, whatever [Less] compares: it returns
    (given fuel for one step more than the length), no index is ever out of
    range, and the result is a permutation of the slice.  If [Less] never
    holds both ways, no element of the result is less than the one before
    it; if besides the negation of [Less] is transitive, no element is less
    than any element before it. *)
Theorem InsertionSort_slice (s : list A) fuel :
  (length s < fuel)%nat →
  ∃ s', InsertionSort (H:=bySlice less) fuel s = Returns s' ∧ s' ≡ₚ s ∧
        (asymmetric less → Sorted (notBefore less) s') ∧
        (asymmetric less → negTransitive less → StronglySorted (notBefore less) s').
Proof. apply sortFrom_slice. Qed.

(** X23: a slice in which no element is less than the one before it is
    returned as it is. *)
Theorem InsertionSort_sorted_unchanged (s : list A) fuel :
  Sorted (notBefore less) s → (length s < fuel)%nat →
  InsertionSort (H:=bySlice less) fuel s = Returns s.
Proof.
  intros Hs Hfuel. unfold InsertionSort.
  etrans; [exact (sortFrom_moveDown s fuel [] Hfuel)|].
  rewrite moveDown_sorted_id by done. by rewrite app_nil_r, rev_involutive.
Qed.

End SortFacts.

Section ByDistFacts.

Import Gfxutil.

Context {Object Vec3 F : Type}.
Variable distSq : Object → Vec3 → F.
Variable gt : F → F → bool.

Lemma insertAt_byDist j : ∀ b,
  insertAt (H:=byDist distSq gt) j b =
    (λ s, {| Objects := s; Target := Target b |}) <$>
      insertAt (H:=bySlice (farther distSq gt (Target b))) j (Objects b).
Proof.
  induction j as [|j IH]; intros b; [by destruct b|].
  cbn [insertAt]. unfold Less, Swap, byDist, bySlice.
  destruct (index (Objects b) (Z.of_nat (S j))) as [x|]; [|done].
  destruct (index (Objects b) (Z.of_nat j)) as [y|]; [|done].
  destruct (farther distSq gt (Target b) x y); [|by destruct b].
  destruct (swapSlice (Objects b) (Z.of_nat (S j)) (Z.of_nat j)) as [s'|]; [|done].
  by rewrite IH.
Qed.

Lemma sortFrom_byDist fuel : ∀ i b,
  sortFrom (H:=byDist distSq gt) fuel i b =
    match sortFrom (H:=bySlice (farther distSq gt (Target b))) fuel i (Objects b) with
    | Returns s => Returns {| Objects := s; Target := Target b |}
    | Panics => Panics
    | OutOfFuel => OutOfFuel
    end.
Proof.
  induction fuel as [|fuel IH]; intros i b; [done|].
  cbn [sortFrom].
  change (Len (Interface:=byDist distSq gt) b) with (Z.of_nat (length (Objects b))).
  change (Len (Interface:=bySlice (farther distSq gt (Target b))) (Objects b))
    with (Z.of_nat (length (Objects b))).
  destruct (Z.of_nat i <? Z.of_nat (length (Objects b))); [|by destruct b].
  rewrite insertAt_byDist.
  destruct (insertAt i (Objects b)) as [s'|]; [|done]. simpl.
  by rewrite IH.
Qed.

(** X24: [InsertionSort] of a [ByDist] permutes its objects and leaves the
    target alone; if [>] on the distances never holds both ways, no object
    of the result is further from the target than the one before it, and if
    besides its negation is transitive (no NaN among the distances), than any
    object before it: the objects come back to front. *)
Theorem InsertionSort_ByDist (b : ByDist) fuel :
  (length (Objects b) < fuel)%nat →
  ∃ s', InsertionSort (H:=byDist distSq gt) fuel b =
          Returns {| Objects := s'; Target := Target b |} ∧
        s' ≡ₚ Objects b ∧
        (asymmetric gt → Sorted (notBefore (farther distSq gt (Target b))) s') ∧
        (asymmetric gt → negTransitive gt →
         StronglySorted (notBefore (farther distSq gt (Target b))) s').
Proof.
  intros Hfuel. unfold InsertionSort. rewrite sortFrom_byDist.
  destruct (sortFrom_slice (farther distSq gt (Target b)) (Objects b) fuel Hfuel)
    as (s' & -> & Hp & Hs & Hss).
  exists s'. split_and!; try done.
  - intros Has. apply Hs. intros x y. apply Has.
  - intros Has Htr. apply Hss.
    + intros x y. apply Has.
    + intros x y z. apply Htr.
Qed.

End ByDistFacts.

Lemma InsertionSort_slice_witness :
  ∃ s', Gfxutil.InsertionSort (H:=Gfxutil.bySlice Z.ltb) 4 [3; 1; 2] =
          Gfxutil.Returns s' ∧
        s' ≡ₚ [3; 1; 2] ∧
        (Gfxutil.asymmetric Z.ltb → Sorted (Gfxutil.notBefore Z.ltb) s') ∧
        (Gfxutil.asymmetric Z.ltb → Gfxutil.negTransitive Z.ltb →
         StronglySorted (Gfxutil.notBefore Z.ltb) s').
Proof. apply (InsertionSort_slice Z.ltb [3; 1; 2] 4). simpl. lia. Defined.

Example InsertionSort_three :
  Gfxutil.InsertionSort (H:=Gfxutil.bySlice Z.ltb) 4 [3; 1; 2] =
    Gfxutil.Returns [1; 2; 3].
Proof. reflexivity. Qed.

Lemma InsertionSort_sorted_unchanged_witness :
  Gfxutil.InsertionSort (H:=Gfxutil.bySlice Z.ltb) 5 [1; 2; 2; 3] =
    Gfxutil.Returns [1; 2; 2; 3].
Proof.
  apply (InsertionSort_sorted_unchanged Z.ltb [1; 2; 2; 3] 5).
  - by repeat constructor.
  - simpl. lia.
Defined.

(** Objects at 1, 10 and 4 seen from 0: the result is 10, 4, 1. *)
Lemma InsertionSort_ByDist_witness :
  ∃ s', Gfxutil.InsertionSort (H:=Gfxutil.byDist Gfxutil.exampleDistSq Z.gtb) 4
          Gfxutil.exampleByDist =
          Gfxutil.Returns {| Gfxutil.Objects := s';
                             Gfxutil.Target := Gfxutil.Target Gfxutil.exampleByDist |} ∧
        s' ≡ₚ Gfxutil.Objects Gfxutil.exampleByDist ∧
        (Gfxutil.asymmetric Z.gtb →
         Sorted (Gfxutil.notBefore
                   (Gfxutil.farther Gfxutil.exampleDistSq Z.gtb
                      (Gfxutil.Target Gfxutil.exampleByDist))) s') ∧
        (Gfxutil.asymmetric Z.gtb → Gfxutil.negTransitive Z.gtb →
         StronglySorted (Gfxutil.notBefore
                           (Gfxutil.farther Gfxutil.exampleDistSq Z.gtb
                              (Gfxutil.Target Gfxutil.exampleByDist))) s').
Proof.
  apply (InsertionSort_ByDist Gfxutil.exampleDistSq Z.gtb Gfxutil.exampleByDist 4).
  simpl. lia.
Defined.

Example InsertionSort_back_to_front :
  Gfxutil.InsertionSort (H:=Gfxutil.byDist Gfxutil.exampleDistSq Z.gtb) 4
    Gfxutil.exampleByDist =
  Gfxutil.Returns {| Gfxutil.Objects := [10; 4; 1]; Gfxutil.Target := 0 |}.
Proof. reflexivity. Qed.
